(** * Astro server renderer: the three delivery adapters of [render.ts]

    A shallow embedding of
    [packages/astro/src/runtime/server/render/astro/render.ts]:
    [renderToString], [renderToReadableStream], [renderToAsyncIterable],
    the entry dispatcher [callComponentAsTemplateResultOrResponse] and the
    head pre-pass [bufferHeadContent].

    JavaScript values that the file only passes around (responses, chunk
    payloads, props, component instances) are kept abstract; the functions
    the file imports ([chunkToString], [chunkToByteArray],
    [isRenderTemplateResult], [isHeadAndContent], ...) are the fields of a
    class of collaborators.  Mutable closure variables ([str], [buffer],
    [renderedFirstPageChunk], [error], [next]) become fields of explicit
    state records, promises become cells of a small heap, and every side
    effect is also recorded in a ghost log so that orderings can be stated. *)

From Stdlib Require Import Strings.Ascii Strings.String Strings.Byte.
From stdpp Require Import base list strings.

(** ** JavaScript built-ins used by the file *)

Module Js.

(** A [Uint8Array] is a sequence of bytes. *)
Abbreviation Uint8Array := (list byte).

(** [TextEncoder.prototype.encode], on the strings the file encodes: the two
    doctype strings, which are ASCII, so that the bytes are the characters.
    (A string is a sequence of bytes here; this is not the encoder on the
    UTF-16 strings of JavaScript at large, where a lone surrogate is replaced.
    Besides the two doctype strings it is applied to the ASCII literals of the
    examples only, to write their bytes down.) *)
Definition encoder_encode (s : string) : Uint8Array := String.list_byte_of_string s.

(** [new Uint8Array(length)]: zero filled. *)
Definition Uint8Array_new (length : nat) : Uint8Array := replicate length x00.

(** [typedArray.set(source, offset)]: copies [source] over the cells from
    [offset] on; a source that does not fit raises a [RangeError], which is
    [None] here. *)
Definition Uint8Array_set (target source : Uint8Array) (offset : nat)
  : option Uint8Array :=
  if decide (offset + length source <= length target)
  then Some (list_inserts offset source target)
  else None.

(** Case folding of a regular expression with the [i] flag (and no [u]
    flag): a code unit is compared through its upper-case form, and a
    non-ASCII code unit never folds onto an ASCII one. *)
Definition Canonicalize (ch : ascii) : ascii :=
  let n := nat_of_ascii ch in
  if (97 <=? n)%nat && (n <=? 122)%nat then ascii_of_nat (n - 32) else ch.

(** A pattern made of literal characters matches at the head of [s]. *)
Fixpoint match_here (pattern s : string) : bool :=
  match pattern, s with
  | EmptyString, _ => true
  | String _ _, EmptyString => false
  | String p pattern', String c s' =>
      Ascii.eqb (Canonicalize p) (Canonicalize c) && match_here pattern' s'
  end.

(** [RegExp.prototype.test] for a literal pattern: try every position. *)
Fixpoint RegExp_test (pattern s : string) : bool :=
  match_here pattern s ||
  match s with
  | EmptyString => false
  | String _ s' => RegExp_test pattern s'
  end.

End Js.

Import Js.

(** [const DOCTYPE_EXP = /<!doctype html/i;] and its [test] method. *)
Definition DOCTYPE_EXP : string := "<!doctype html".
Definition DOCTYPE_EXP_test (s : string) : bool := RegExp_test DOCTYPE_EXP s.

(** ** Data model *)

(** The opaque JavaScript values of a render. *)
Class Values := {
  Response : Type;      (** instances of [Response] *)
  Content : Type;       (** chunks that are not a [Response] *)
  Foreign : Type;       (** any other value that is thrown *)
  (** [ToBoolean(v)] for such a value: an error object is truthy, but a
      promise may reject with [undefined], [null], [0] or the empty string *)
  Foreign_truthy : Foreign -> bool;
  Component : Type;     (** factory results that are not a [Response] *)
  Propagator : Type;    (** component instances held in [propagators] *)
  Propagator_eq :: EqDecision Propagator;
  Props : Type;
  Children : Type;
}.

Section DataModel.
Context `{V : Values}.

(** A chunk handed to [destination.write]. *)
Inductive Chunk :=
| ChunkResponse (r : Response)
| ChunkContent (c : Content).

(** What a component factory (or a propagator's [init]) resolves to. *)
Inductive FactoryResult :=
| FactoryResponse (r : Response)
| FactoryComponent (o : Component).

(** [RouteData], as far as the file reads it. *)
Record RouteData := {
  route : string;
  component : string;
}.

(** [route?.route] and [route?.component] for an optional argument. *)
Definition optional_route (r : option RouteData) : option string :=
  route <$> r.
Definition optional_component (r : option RouteData) : option string :=
  component <$> r.

(** The [location] of an [AstroError]; [file] may be [undefined]. *)
Record ErrorLocation := { file : option string }.

(** The entries of [AstroErrorData] the file uses; the arguments given to the
    [message] function of [OnlyResponseCanBeReturned] are kept. *)
Inductive AstroErrorData :=
| ResponseSentError
| OnlyResponseCanBeReturned (route : option string) (typeof : string)
| OtherErrorData (name : string).

Record AstroError := {
  data : AstroErrorData;
  loc : option ErrorLocation;
}.

(** Anything that can be thrown: an [AstroError], the [RangeError] of a
    typed array, or some other value. *)
Inductive JsError :=
| ErrAstro (e : AstroError)
| ErrRange
| ErrForeign (v : Foreign).

(** [ToBoolean(e)] for a thrown value: an [AstroError] and a [RangeError]
    are objects, hence truthy. *)
Definition truthy (e : JsError) : bool :=
  match e with
  | ErrForeign v => Foreign_truthy v
  | _ => true
  end.

(** [e.setLocation(location)] *)
Definition setLocation (e : AstroError) (location : ErrorLocation) : AstroError :=
  {| data := data e; loc := Some location |}.

(** How a call, or an awaited promise, ends: it returns, it throws, or (for
    a promise) it is still pending when the model stops looking. *)
Inductive Outcome (A : Type) :=
| Returned (a : A)
| Threw (e : JsError)
| Pending.
Global Arguments Returned {A} a.
Global Arguments Threw {A} e.
Global Arguments Pending {A}.

(** [SSRResult], as far as the file reads and writes it.  [propagators] is a
    JavaScript [Set]: no duplicates, iterated in insertion order. *)
Record SSRMetadata := {
  propagators : list Propagator;
  extraHead : list string;
}.

Record SSRResult := {
  partial : bool;
  compressHTML : bool;
  _metadata : SSRMetadata;
}.

(** [set.add(p)] *)
Definition Set_add (s : list Propagator) (p : Propagator) : list Propagator :=
  if decide (p ∈ s) then s else s ++ [p].

(** The behaviour of [templateResult.render(destination)]: a finite tree of
    calls to [destination.write].  After each call the render goes on
    according to how the call ended ([None]: it returned, [Some e]: it threw
    [e]), and at the end the returned promise resolves or rejects. *)
Inductive Render :=
| Resolve
| Reject (e : JsError)
| Write (chunk : Chunk) (k : option JsError -> Render).

(** The usual render: write the chunks in order, let an exception of
    [write] escape, and end as [final]. *)
Fixpoint script (chunks : list Chunk) (final : Render) : Render :=
  match chunks with
  | [] => final
  | c :: chunks' =>
      Write c (fun thrown =>
                 match thrown with
                 | None => script chunks' final
                 | Some e => Reject e
                 end)
  end.

(** What awaiting a propagator's [init(result)] gives: the instances it
    registered in [propagators] while it ran, and its result. *)
Record InitResult := {
  registered : list Propagator;
  returnValue : Outcome FactoryResult;
}.

(** Side effects, in the order they happen (ghost state). *)
Inductive Effect :=
| PropagatorInit (p : Propagator)
| ExtraHeadPush (head : string)
| DestinationWrite (chunk : Chunk)
| StrAppend (s : string)
| ControllerEnqueue (bytes : Uint8Array)
| ControllerClose
| ControllerError (e : JsError)
| BufferPush (bytes : Uint8Array).

End DataModel.

(** The functions [render.ts] imports or receives. *)
Class Collaborators `{V : Values} := {
  (** [String(chunk)] for a chunk that is not a [Response] *)
  Content_toString : Content -> string;
  (** [chunkToString(result, chunk)] and [chunkToByteArray(result, chunk)] from
      [../common.js] *)
  chunkToString : SSRResult -> Content -> string;
  chunkToByteArray : SSRResult -> Content -> Uint8Array;
  (** [isRenderTemplateResult] and [isHeadAndContent]: two independent brands
      on an object, with the fields [content] and [head] of the second *)
  isRenderTemplateResult : Component -> bool;
  isHeadAndContent : Component -> bool;
  content : Component -> FactoryResult;
  head : Component -> string;
  (** [typeof factoryResult] *)
  typeof : Component -> string;
  (** the [render] method of a template result *)
  render : Component -> Render;
  (** [instance.init(result)] *)
  init : Propagator -> InitResult;
}.

(** ** The parts shared by the three adapters *)

Section Shared.
Context `{C : Collaborators}.

(** [String(chunk)]; a [Response] has no [toString] of its own and carries
    the string tag ["Response"]. *)
Definition Chunk_toString (chunk : Chunk) : string :=
  match chunk with
  | ChunkResponse _ => "[object Response]"
  | ChunkContent c => Content_toString c
  end.

(** The two doctype strings of the source; the second ends in a line feed. *)
Definition doctype_compressed : string := "<!DOCTYPE html>".
Definition doctype_newline : string :=
  "<!DOCTYPE html>" +:+ String (ascii_of_nat 10) EmptyString.

(** A component factory: an asynchronous function of the render context,
    which it may update (it registers propagators), the props and the
    children. *)
Definition AstroComponentFactory : Type :=
  SSRResult -> Props -> Children -> SSRResult * Outcome FactoryResult.

(** [async function callComponentAsTemplateResultOrResponse] *)
Definition callComponentAsTemplateResultOrResponse
    (result : SSRResult) (componentFactory : AstroComponentFactory)
    (props : Props) (children : Children) (route : option RouteData)
  : SSRResult * Outcome FactoryResult :=
  let '(result, factoryResult) := componentFactory result props children in
  match factoryResult with
  | Returned (FactoryResponse r) => (result, Returned (FactoryResponse r))
  | Returned (FactoryComponent o) =>
      if negb (isRenderTemplateResult o) then
        (result,
         Threw (ErrAstro
                  {| data := OnlyResponseCanBeReturned
                               (optional_route route) (typeof o);
                     loc := Some {| file := optional_component route |} |}))
      else
        (result,
         Returned (if isHeadAndContent o then content o else FactoryComponent o))
  | Threw e => (result, Threw e)
  | Pending => (result, Pending)
  end.

(** The render context together with the log of side effects. *)
Record World := {
  ctx : SSRResult;
  effects : list Effect;
}.

(** [propagators.add(p)] for each instance that an [init] registers. *)
Definition register (added : list Propagator) (w : World) : World :=
  {| ctx :=
       {| partial := partial (ctx w);
          compressHTML := compressHTML (ctx w);
          _metadata :=
            {| propagators :=
                 foldl Set_add (propagators (_metadata (ctx w))) added;
               extraHead := extraHead (_metadata (ctx w)) |} |};
     effects := effects w |}.

(** [result._metadata.extraHead.push(head)] *)
Definition extraHead_push (h : string) (w : World) : World :=
  {| ctx :=
       {| partial := partial (ctx w);
          compressHTML := compressHTML (ctx w);
          _metadata :=
            {| propagators := propagators (_metadata (ctx w));
               extraHead := extraHead (_metadata (ctx w)) ++ [h] |} |};
     effects := effects w ++ [ExtraHeadPush h] |}.

(** The log entry of a call of [init]. *)
Definition log_init (p : Propagator) (w : World) : World :=
  {| ctx := ctx w; effects := effects w ++ [PropagatorInit p] |}.

(** [isHeadAndContent(returnValue)] on any awaited value. *)
Definition isHeadAndContent_value (v : FactoryResult) : option string :=
  match v with
  | FactoryResponse _ => None
  | FactoryComponent o => if isHeadAndContent o then Some (head o) else None
  end.

(** The [while (true)] loop of [bufferHeadContent].  [iterator] is the
    position of the set iterator; an entry added while the loop runs is
    visited too, as a JavaScript [Set] has it.  [fuel] bounds the number of
    turns: when it runs out the promise is still pending. *)
Fixpoint bufferHeadContent_loop (fuel : nat) (iterator : nat) (w : World)
  : World * Outcome unit :=
  match fuel with
  | O => (w, Pending)
  | S fuel =>
      match propagators (_metadata (ctx w)) !! iterator with
      | None => (w, Returned tt)
      | Some value =>
          let called := init value in
          let w := register (registered called) (log_init value w) in
          match returnValue called with
          | Returned returnValue =>
              let w :=
                match isHeadAndContent_value returnValue with
                | Some h => extraHead_push h w
                | None => w
                end in
              bufferHeadContent_loop fuel (S iterator) w
          | Threw e => (w, Threw e)
          | Pending => (w, Pending)
          end
      end
  end.

(** [async function bufferHeadContent(result)] *)
Definition bufferHeadContent (fuel : nat) (w : World) : World * Outcome unit :=
  bufferHeadContent_loop fuel 0 w.

(** [await templateResult.render(destination)] for a destination whose
    [write] acts on a state [S]: every call of the render tree is made, in
    order, and the tree goes on with how the call ended. *)
Fixpoint drive {S : Type} (write : S -> Chunk -> S * option JsError)
    (r : Render) (s : S) : S * Outcome unit :=
  match r with
  | Resolve => (s, Returned tt)
  | Reject e => (s, Threw e)
  | Write chunk k =>
      let '(s, thrown) := write s chunk in
      drive write (k thrown) s
  end.

(** What an adapter resolves to: the response of the component, or its own
    output. *)
Inductive Rendered (A : Type) :=
| IsResponse (r : Response)
| IsOutput (a : A).
Global Arguments IsResponse {A} r.
Global Arguments IsOutput {A} a.

End Shared.

(** ** The String Adapter *)

Module ToString.
Section ToString.
Context `{C : Collaborators}.

(** The closure variables of [renderToString], and the log. *)
Record State := {
  str : string;
  renderedFirstPageChunk : bool;
  log : list Effect;
}.

(** [str += s] *)
Definition append (s : string) (st : State) : State :=
  {| str := str st +:+ s;
     renderedFirstPageChunk := renderedFirstPageChunk st;
     log := log st ++ [StrAppend s] |}.

(** [renderedFirstPageChunk = true] *)
Definition set_rendered (st : State) : State :=
  {| str := str st; renderedFirstPageChunk := true; log := log st |}.

(** The log entry of a call of [write]. *)
Definition called (chunk : Chunk) (st : State) : State :=
  {| str := str st;
     renderedFirstPageChunk := renderedFirstPageChunk st;
     log := log st ++ [DestinationWrite chunk] |}.

(** [destination.write(chunk)] *)
Definition write (result : SSRResult) (isPage : bool)
    (st : State) (chunk : Chunk) : State * option JsError :=
  let st := called chunk st in
  let st :=
    if isPage && negb (renderedFirstPageChunk st) then
      let st := set_rendered st in
      if negb (partial result) && negb (DOCTYPE_EXP_test (Chunk_toString chunk))
      then
        let doctype :=
          if compressHTML result then doctype_compressed else doctype_newline in
        append doctype st
      else st
    else st in
  match chunk with
  | ChunkResponse _ => (st, None)
  | ChunkContent c => (append (chunkToString result c) st, None)
  end.

(** [export async function renderToString] *)
Definition renderToString (result : SSRResult)
    (componentFactory : AstroComponentFactory)
    (props : Props) (children : Children)
    (isPage : bool) (route : option RouteData)
  : World * Outcome (Rendered string) :=
  let '(result, templateResult) :=
    callComponentAsTemplateResultOrResponse
      result componentFactory props children route in
  match templateResult with
  | Threw e => ({| ctx := result; effects := [] |}, Threw e)
  | Pending => ({| ctx := result; effects := [] |}, Pending)
  | Returned (FactoryResponse r) =>
      ({| ctx := result; effects := [] |}, Returned (IsResponse r))
  | Returned (FactoryComponent templateResult) =>
      let st := {| str := EmptyString; renderedFirstPageChunk := false; log := [] |} in
      let '(st, completion) :=
        drive (write result isPage) (render templateResult) st in
      let w := {| ctx := result; effects := log st |} in
      match completion with
      | Returned _ => (w, Returned (IsOutput (str st)))
      | Threw e => (w, Threw e)
      | Pending => (w, Pending)
      end
  end.

End ToString.
End ToString.

(** ** The Stream Adapter *)

Module ToReadableStream.
Section ToReadableStream.
Context `{C : Collaborators}.

(** A callback handed to [setTimeout]. *)
Inductive Callback :=
| CallControllerError (e : JsError).

(** The stream controller, as the calls it received; the timers that are
    set; the closure variable of the adapter; the log. *)
Record State := {
  enqueued : list Uint8Array;
  closed : bool;
  errored : option JsError;
  timers : list Callback;
  renderedFirstPageChunk : bool;
  log : list Effect;
}.

(** [controller.enqueue(bytes)] *)
Definition controller_enqueue (bytes : Uint8Array) (st : State) : State :=
  {| enqueued := enqueued st ++ [bytes];
     closed := closed st;
     errored := errored st;
     timers := timers st;
     renderedFirstPageChunk := renderedFirstPageChunk st;
     log := log st ++ [ControllerEnqueue bytes] |}.

(** [controller.close()] *)
Definition controller_close (st : State) : State :=
  {| enqueued := enqueued st;
     closed := true;
     errored := errored st;
     timers := timers st;
     renderedFirstPageChunk := renderedFirstPageChunk st;
     log := log st ++ [ControllerClose] |}.

(** [controller.error(e)] *)
Definition controller_error (e : JsError) (st : State) : State :=
  {| enqueued := enqueued st;
     closed := closed st;
     errored := Some e;
     timers := timers st;
     renderedFirstPageChunk := renderedFirstPageChunk st;
     log := log st ++ [ControllerError e] |}.

(** [setTimeout(callback, 0)] *)
Definition setTimeout (callback : Callback) (st : State) : State :=
  {| enqueued := enqueued st;
     closed := closed st;
     errored := errored st;
     timers := timers st ++ [callback];
     renderedFirstPageChunk := renderedFirstPageChunk st;
     log := log st |}.

(** [renderedFirstPageChunk = true] *)
Definition set_rendered (st : State) : State :=
  {| enqueued := enqueued st;
     closed := closed st;
     errored := errored st;
     timers := timers st;
     renderedFirstPageChunk := true;
     log := log st |}.

(** The log entry of a call of [write]. *)
Definition called (chunk : Chunk) (st : State) : State :=
  {| enqueued := enqueued st;
     closed := closed st;
     errored := errored st;
     timers := timers st;
     renderedFirstPageChunk := renderedFirstPageChunk st;
     log := log st ++ [DestinationWrite chunk] |}.

(** [destination.write(chunk)] *)
Definition write (result : SSRResult) (isPage : bool)
    (st : State) (chunk : Chunk) : State * option JsError :=
  let st := called chunk st in
  let st :=
    if isPage && negb (renderedFirstPageChunk st) then
      let st := set_rendered st in
      if negb (partial result) && negb (DOCTYPE_EXP_test (Chunk_toString chunk))
      then
        let doctype :=
          if compressHTML result then doctype_compressed else doctype_newline in
        controller_enqueue (encoder_encode doctype) st
      else st
    else st in
  match chunk with
  | ChunkResponse _ =>
      (st, Some (ErrAstro {| data := ResponseSentError; loc := None |}))
  | ChunkContent c =>
      let bytes := chunkToByteArray result c in
      (controller_enqueue bytes st, None)
  end.

(** The [catch] clause of the detached task: the location is added to an
    [AstroError] that has none. *)
Definition addLocation (route : option RouteData) (e : JsError) : JsError :=
  match e with
  | ErrAstro a =>
      match loc a with
      | None => ErrAstro (setLocation a {| file := optional_component route |})
      | Some _ => e
      end
  | _ => e
  end.

(** The detached task of [start(controller)], run to its end. *)
Definition start (result : SSRResult) (isPage : bool)
    (route : option RouteData) (templateResult : Component) (st : State)
  : State :=
  let '(st, completion) :=
    drive (write result isPage) (render templateResult) st in
  match completion with
  | Returned _ => controller_close st
  | Threw e => setTimeout (CallControllerError (addLocation route e)) st
  | Pending => st
  end.

(** One callback of the timer queue. *)
Definition run_callback (callback : Callback) (st : State) : State :=
  match callback with
  | CallControllerError e => controller_error e st
  end.

(** The next scheduling tick: the timers that are due run, in order. *)
Definition tick (st : State) : State :=
  foldl (fun st callback => run_callback callback st)
        {| enqueued := enqueued st;
           closed := closed st;
           errored := errored st;
           timers := [];
           renderedFirstPageChunk := renderedFirstPageChunk st;
           log := log st |}
        (timers st).

(** What [reader.read()] settles to. *)
Inductive ReadResult :=
| ReadChunk (bytes : Uint8Array)
| ReadDone
| ReadError (e : JsError)
| ReadPending.

(** [reader.read()] on the stream in state [st], for a reader that has taken
    [taken] chunks so far.  A stream in error rejects every read:
    [controller.error] resets the queue, so the chunks not read by then are
    lost.  Otherwise the read gives the next chunk of the queue; with nothing
    left it ends the reader when the stream is closed, and stays pending when
    it is not. *)
Definition reader_read (st : State) (taken : nat) : ReadResult :=
  match errored st with
  | Some e => ReadError e
  | None =>
      match enqueued st !! taken with
      | Some bytes => ReadChunk bytes
      | None => if closed st then ReadDone else ReadPending
      end
  end.

(** [export async function renderToReadableStream]; the stream it returns is
    given as the state the detached task leaves. *)
Definition renderToReadableStream (fuel : nat) (result : SSRResult)
    (componentFactory : AstroComponentFactory)
    (props : Props) (children : Children)
    (isPage : bool) (route : option RouteData)
  : World * Outcome (Rendered State) :=
  let '(result, templateResult) :=
    callComponentAsTemplateResultOrResponse
      result componentFactory props children route in
  match templateResult with
  | Threw e => ({| ctx := result; effects := [] |}, Threw e)
  | Pending => ({| ctx := result; effects := [] |}, Pending)
  | Returned (FactoryResponse r) =>
      ({| ctx := result; effects := [] |}, Returned (IsResponse r))
  | Returned (FactoryComponent templateResult) =>
      let '(w, buffered) :=
        if isPage
        then bufferHeadContent fuel {| ctx := result; effects := [] |}
        else ({| ctx := result; effects := [] |}, Returned tt) in
      match buffered with
      | Threw e => (w, Threw e)
      | Pending => (w, Pending)
      | Returned _ =>
          let st :=
            start (ctx w) isPage route templateResult
                  {| enqueued := [];
                     closed := false;
                     errored := None;
                     timers := [];
                     renderedFirstPageChunk := false;
                     log := effects w |} in
          ({| ctx := ctx w; effects := log st |},
           Returned (IsOutput st))
      end
  end.

End ToReadableStream.
End ToReadableStream.

(** ** The Async-Iterable Adapter *)

Module ToAsyncIterable.
Section ToAsyncIterable.
Context `{C : Collaborators}.

(** The closure variables of [renderToAsyncIterable].  A promise made by
    [promiseWithResolvers] is a cell of [promises], [true] once resolved;
    the variable [next] holds the index of the current one.  [error] holds
    the truthy value recorded, if any (see [set_error]). *)
Record State := {
  error : option JsError;
  next : nat;
  promises : list bool;
  buffer : list Uint8Array;
  renderedFirstPageChunk : bool;
  log : list Effect;
}.

(** [{ done, value }] *)
Record IteratorResult := {
  done : bool;
  value : Uint8Array;
}.

(** [buffer.push(bytes)] *)
Definition buffer_push (bytes : Uint8Array) (st : State) : State :=
  {| error := error st;
     next := next st;
     promises := promises st;
     buffer := buffer st ++ [bytes];
     renderedFirstPageChunk := renderedFirstPageChunk st;
     log := log st ++ [BufferPush bytes] |}.

(** [buffer.length = 0] *)
Definition buffer_clear (st : State) : State :=
  {| error := error st;
     next := next st;
     promises := promises st;
     buffer := [];
     renderedFirstPageChunk := renderedFirstPageChunk st;
     log := log st |}.

(** [next.resolve()] *)
Definition next_resolve (st : State) : State :=
  {| error := error st;
     next := next st;
     promises := <[next st := true]> (promises st);
     buffer := buffer st;
     renderedFirstPageChunk := renderedFirstPageChunk st;
     log := log st |}.

(** [promiseWithResolvers<void>()] from [../util.js]: a new, pending promise
    in the heap. *)
Definition promiseWithResolvers (heap : list bool) : nat * list bool :=
  (length heap, heap ++ [false]).

(** [next = promiseWithResolvers<void>()] *)
Definition next_renew (st : State) : State :=
  {| error := error st;
     next := (promiseWithResolvers (promises st)).1;
     promises := (promiseWithResolvers (promises st)).2;
     buffer := buffer st;
     renderedFirstPageChunk := renderedFirstPageChunk st;
     log := log st |}.

(** [error = err].  The variable is read by [if (error)] and [throw error]
    only, so its falsy contents are not told apart: [None] stands for [null]
    and for a falsy value a render rejected with, [Some e] for a truthy [e]. *)
Definition set_error (err : JsError) (st : State) : State :=
  {| error := if truthy err then Some err else None;
     next := next st;
     promises := promises st;
     buffer := buffer st;
     renderedFirstPageChunk := renderedFirstPageChunk st;
     log := log st |}.

(** [renderedFirstPageChunk = true] *)
Definition set_rendered (st : State) : State :=
  {| error := error st;
     next := next st;
     promises := promises st;
     buffer := buffer st;
     renderedFirstPageChunk := true;
     log := log st |}.

(** The log entry of a call of [write]. *)
Definition called (chunk : Chunk) (st : State) : State :=
  {| error := error st;
     next := next st;
     promises := promises st;
     buffer := buffer st;
     renderedFirstPageChunk := renderedFirstPageChunk st;
     log := log st ++ [DestinationWrite chunk] |}.

(** Whether the promise [p] is resolved. *)
Definition resolved (st : State) (p : nat) : bool :=
  bool_decide (promises st !! p = Some true).

(** [destination.write(chunk)] *)
Definition write (result : SSRResult) (isPage : bool)
    (st : State) (chunk : Chunk) : State * option JsError :=
  let st := called chunk st in
  let st :=
    if isPage && negb (renderedFirstPageChunk st) then
      let st := set_rendered st in
      if negb (partial result) && negb (DOCTYPE_EXP_test (Chunk_toString chunk))
      then
        let doctype :=
          if compressHTML result then doctype_compressed else doctype_newline in
        buffer_push (encoder_encode doctype) st
      else st
    else st in
  match chunk with
  | ChunkResponse _ =>
      (st, Some (ErrAstro {| data := ResponseSentError; loc := None |}))
  | ChunkContent c =>
      let bytes := chunkToByteArray result c in
      if decide (0 < length bytes)
      then (next_renew (next_resolve (buffer_push bytes st)), None)
      else (st, None)
  end.

(** [for (let i = 0, len = buffer.length; i < len; i++)
       length += buffer[i].length;]
    with [todo] the number of turns left. *)
Fixpoint sum_lengths (buffer : list Uint8Array) (todo i length : nat) : nat :=
  match todo with
  | O => length
  | S todo =>
      sum_lengths buffer todo (S i)
                  (length + List.length (default [] (buffer !! i)))
  end.

(** [for (let i = 0, len = buffer.length; i < len; i++) {
       const item = buffer[i];
       mergedArray.set(item, offset);
       offset += item.length; }]
    which stops with [None] when [set] raises a [RangeError]. *)
Fixpoint merge (buffer : list Uint8Array) (todo i : nat)
    (mergedArray : Uint8Array) (offset : nat) : option Uint8Array :=
  match todo with
  | O => Some mergedArray
  | S todo =>
      let item := default [] (buffer !! i) in
      match Uint8Array_set mergedArray item offset with
      | Some mergedArray =>
          merge buffer todo (S i) mergedArray (offset + List.length item)
      | None => None
      end
  end.

(** The body of [iterator.next()] after [await next.promise]. *)
Definition next_body (st : State) : State * Outcome IteratorResult :=
  match error st with
  | Some e => (st, Threw e)
  | None =>
      let length := sum_lengths (buffer st) (List.length (buffer st)) 0 0 in
      match
        merge (buffer st) (List.length (buffer st)) 0 (Uint8Array_new length) 0
      with
      | Some mergedArray =>
          (buffer_clear st,
           Returned {| done := bool_decide (length = 0); value := mergedArray |})
      | None => (st, Threw ErrRange)
      end
  end.

(** [iterator.next()], for a call made in state [st] when nothing else runs
    before it is over: the promise returned stays pending as long as the
    promise held by [next] at the call is not resolved.  (The moves [Pull] and
    [Resume] below split the call at its [await].) *)
Definition iterator_next (st : State) : State * Outcome IteratorResult :=
  if resolved st (next st) then next_body st else (st, Pending).

(** The [then] and [catch] callbacks on [renderPromise]. *)
Definition on_fulfilled (st : State) : State := next_resolve st.
Definition on_rejected (err : JsError) (st : State) : State :=
  next_resolve (set_error err st).

(** *** The adapter at work

    The render task and a consumer that pulls one chunk at a time (a
    [for await] loop) take turns.  A turn of the render task is one call of
    [write], or the callback that follows the end of the render; the
    consumer calls [next()], and goes on once the promise it awaits is
    resolved. *)

Inductive Consumer :=
| Idle
| Awaiting (p : nat)
| Finished
| Failed (e : JsError).

(** The closure environment, the variables of the adapter, what is left of
    the render, where the consumer stands, and the values of its pulls. *)
Record Config := {
  result : SSRResult;
  isPage : bool;
  state : State;
  rendering : option Render;
  consumer : Consumer;
  pulled : list Uint8Array;
}.

(** The moves: a turn of the render task, a call of [next()] by the
    consumer, and the rest of that call once its promise is resolved. *)
Inductive Move :=
| RenderTurn
| Pull
| Resume.

(** Updates of one field of a configuration. *)
Definition set_state (st : State) (c : Config) : Config :=
  {| result := result c;
     isPage := isPage c;
     state := st;
     rendering := rendering c;
     consumer := consumer c;
     pulled := pulled c |}.

Definition set_rendering (r : option Render) (c : Config) : Config :=
  {| result := result c;
     isPage := isPage c;
     state := state c;
     rendering := r;
     consumer := consumer c;
     pulled := pulled c |}.

Definition set_consumer (k : Consumer) (c : Config) : Config :=
  {| result := result c;
     isPage := isPage c;
     state := state c;
     rendering := rendering c;
     consumer := k;
     pulled := pulled c |}.

Definition deliver (v : Uint8Array) (c : Config) : Config :=
  {| result := result c;
     isPage := isPage c;
     state := state c;
     rendering := rendering c;
     consumer := consumer c;
     pulled := pulled c ++ [v] |}.

(** One move; [None] when the move is not enabled. *)
Definition step (m : Move) (c : Config) : option Config :=
  match m with
  | RenderTurn =>
      match rendering c with
      | None => None
      | Some (Write chunk k) =>
          let '(st, thrown) := write (result c) (isPage c) (state c) chunk in
          Some (set_rendering (Some (k thrown)) (set_state st c))
      | Some Resolve =>
          Some (set_rendering None (set_state (on_fulfilled (state c)) c))
      | Some (Reject e) =>
          Some (set_rendering None (set_state (on_rejected e (state c)) c))
      end
  | Pull =>
      match consumer c with
      | Idle => Some (set_consumer (Awaiting (next (state c))) c)
      | _ => None
      end
  | Resume =>
      match consumer c with
      | Awaiting p =>
          if resolved (state c) p then
            match next_body (state c) with
            | (st, Returned r) =>
                Some (set_consumer (if done r then Finished else Idle)
                        (deliver (value r) (set_state st c)))
            | (st, Threw e) => Some (set_consumer (Failed e) (set_state st c))
            | (_, Pending) => None
            end
          else None
      | _ => None
      end
  end.

(** A schedule is a sequence of moves; a move that is not enabled stops it. *)
Fixpoint run (schedule : list Move) (c : Config) : option Config :=
  match schedule with
  | [] => Some c
  | m :: schedule =>
      match step m c with
      | Some c => run schedule c
      | None => None
      end
  end.

(** The configuration when [renderToAsyncIterable] has set up its variables:
    no error, a first pending promise in [next], an empty buffer. *)
Definition initial (context : SSRResult) (page : bool) (l : list Effect)
    (r : Render) : Config :=
  {| result := context;
     isPage := page;
     state :=
       {| error := None;
          next := (promiseWithResolvers []).1;
          promises := (promiseWithResolvers []).2;
          buffer := [];
          renderedFirstPageChunk := false;
          log := l |};
     rendering := Some r;
     consumer := Idle;
     pulled := [] |}.

(** [export async function renderToAsyncIterable]; the iterable it returns is
    given as the configuration from which the render task and the consumer
    start. *)
Definition renderToAsyncIterable (fuel : nat) (result : SSRResult)
    (componentFactory : AstroComponentFactory)
    (props : Props) (children : Children)
    (isPage : bool) (route : option RouteData)
  : World * Outcome (Rendered Config) :=
  let '(result, templateResult) :=
    callComponentAsTemplateResultOrResponse
      result componentFactory props children route in
  match templateResult with
  | Threw e => ({| ctx := result; effects := [] |}, Threw e)
  | Pending => ({| ctx := result; effects := [] |}, Pending)
  | Returned (FactoryResponse r) =>
      ({| ctx := result; effects := [] |}, Returned (IsResponse r))
  | Returned (FactoryComponent templateResult) =>
      let '(w, buffered) :=
        if isPage
        then bufferHeadContent fuel {| ctx := result; effects := [] |}
        else ({| ctx := result; effects := [] |}, Returned tt) in
      match buffered with
      | Threw e => (w, Threw e)
      | Pending => (w, Pending)
      | Returned _ =>
          (w,
           Returned
             (IsOutput
                (initial (ctx w) isPage (effects w) (render templateResult))))
      end
  end.

End ToAsyncIterable.
End ToAsyncIterable.

(** ** Vocabulary of the statements *)

Section Observations.
Context `{C : Collaborators}.

(** The chunks handed to [destination.write], in order. *)
Definition written (l : list Effect) : list Chunk :=
  omap (fun e => match e with DestinationWrite c => Some c | _ => None end) l.

(** The propagators whose [init] was called, in order. *)
Definition inits (l : list Effect) : list Propagator :=
  omap (fun e => match e with PropagatorInit p => Some p | _ => None end) l.

(** The head fragments pushed on [extraHead], in order. *)
Definition heads (l : list Effect) : list string :=
  omap (fun e => match e with ExtraHeadPush h => Some h | _ => None end) l.

(** The byte arrays pushed on the buffer of the iterable, in order. *)
Definition pushes (l : list Effect) : list Uint8Array :=
  omap (fun e => match e with BufferPush b => Some b | _ => None end) l.

(** An effect on an output channel: the destination, the accumulator, the
    stream controller or the buffer. *)
Definition is_output (e : Effect) : bool :=
  match e with
  | PropagatorInit _ | ExtraHeadPush _ => false
  | _ => true
  end.

(** A chunk that is not a [Response]. *)
Definition is_content (c : Chunk) : bool :=
  match c with
  | ChunkContent _ => true
  | ChunkResponse _ => false
  end.

(** The converted text and bytes of the chunks that are not a [Response]. *)
Definition texts (result : SSRResult) (chunks : list Chunk) : list string :=
  omap (fun c => match c with
                 | ChunkContent c => Some (chunkToString result c)
                 | ChunkResponse _ => None
                 end) chunks.

Definition byte_arrays (result : SSRResult) (chunks : list Chunk)
  : list Uint8Array :=
  omap (fun c => match c with
                 | ChunkContent c => Some (chunkToByteArray result c)
                 | ChunkResponse _ => None
                 end) chunks.

(** The strings of a list, put end to end. *)
Definition join (l : list string) : string := foldr String.append EmptyString l.

(** The number of bytes in a list of arrays. *)
Definition total_length (l : list Uint8Array) : nat :=
  sum_list (length <$> l).

(** The byte arrays that are not empty. *)
Definition non_empty (l : list Uint8Array) : list Uint8Array :=
  filter (fun b : Uint8Array => 0 < length b) l.

(** The doctype a render is expected to insert, decided on the first chunk
    written: none for a render that is not a page, for a partial, and for a
    first chunk that holds the marker. *)
Definition expected_doctype (result : SSRResult) (isPage : bool)
    (chunks : list Chunk) : option string :=
  match chunks with
  | [] => None
  | first :: _ =>
      if isPage && negb (partial result)
         && negb (DOCTYPE_EXP_test (Chunk_toString first))
      then Some (if compressHTML result
                 then "<!DOCTYPE html>"
                 else "<!DOCTYPE html>" +:+ String (ascii_of_nat 10) EmptyString)
      else None
  end.

(** A string holds the marker: some substring of it is ["<!doctype html"] up
    to the case of its letters. *)
Definition same_letter (a b : ascii) : Prop := Canonicalize a = Canonicalize b.

Fixpoint same_letters (s t : string) : Prop :=
  match s, t with
  | EmptyString, EmptyString => True
  | String a s, String b t => same_letter a b /\ same_letters s t
  | _, _ => False
  end.

Definition contains_marker (s : string) : Prop :=
  exists before marker after,
    s = before +:+ marker +:+ after /\ same_letters "<!doctype html" marker.

(** The head fragment that awaiting [init] of a propagator yields, if any. *)
Definition propagated_head (p : Propagator) : option string :=
  match returnValue (init p) with
  | Returned v => isHeadAndContent_value v
  | _ => None
  end.

(** A set of propagators that holds every instance a render can register. *)
Definition closed_universe (universe : list Propagator) (w : World) : Prop :=
  NoDup (propagators (_metadata (ctx w)))
  /\ (forall p, p ∈ propagators (_metadata (ctx w)) -> p ∈ universe)
  /\ (forall p q, p ∈ universe -> q ∈ registered (init p) -> q ∈ universe).

(** The log [l] continues [l0] with effects of the body only: no [init] of a
    propagator, no push on [extraHead]. *)
Definition body_only (l0 l : list Effect) : Prop :=
  exists post, l = l0 ++ post /\ inits post = [] /\ heads post = [].

(** The error the two streaming adapters throw at a [Response]. *)
Definition response_sent : JsError :=
  ErrAstro {| data := ResponseSentError; loc := None |}.

(** The location an error carries, if any. *)
Definition location_of (e : JsError) : option ErrorLocation :=
  match e with
  | ErrAstro a => loc a
  | _ => None
  end.

End Observations.

(** ** Invariants of the three destinations *)

Section Invariants.
Context `{C : Collaborators}.

(** The doctype of a render as the byte arrays it adds to a channel. *)
Definition doctype_bytes (result : SSRResult) (isPage : bool)
    (chunks : list Chunk) : list Uint8Array :=
  option_list (encoder_encode <$> expected_doctype result isPage chunks).

(** What one call of [write] puts before the chunk, given the value of
    [renderedFirstPageChunk] at the call. *)
Definition injected (result : SSRResult) (isPage flag : bool) (chunk : Chunk)
  : option string :=
  if isPage && negb flag then
    if negb (partial result) && negb (DOCTYPE_EXP_test (Chunk_toString chunk))
    then Some (if compressHTML result then doctype_compressed else doctype_newline)
    else None
  else None.

(** [renderedFirstPageChunk] is set once a page has seen a chunk. *)
Definition first_chunk_seen (isPage : bool) (l : list Effect) : bool :=
  isPage && match written l with [] => false | _ :: _ => true end.

(** What holds of each destination after any number of calls of [write]: the
    flag is as the chunks written so far make it, and the output is the
    expected doctype followed by the converted chunks. *)
Definition string_inv (result : SSRResult) (isPage : bool)
    (st : ToString.State) : Prop :=
  ToString.renderedFirstPageChunk st = first_chunk_seen isPage (ToString.log st)
  /\ ToString.str st
     = default EmptyString (expected_doctype result isPage (written (ToString.log st)))
       +:+ join (texts result (written (ToString.log st))).

Definition stream_inv (result : SSRResult) (isPage : bool)
    (st : ToReadableStream.State) : Prop :=
  ToReadableStream.renderedFirstPageChunk st
  = first_chunk_seen isPage (ToReadableStream.log st)
  /\ ToReadableStream.enqueued st
     = doctype_bytes result isPage (written (ToReadableStream.log st))
       ++ byte_arrays result (written (ToReadableStream.log st)).

(** The controller is left alone while the render runs. *)
Definition stream_untouched (st0 st : ToReadableStream.State) : Prop :=
  ToReadableStream.closed st = ToReadableStream.closed st0
  /\ ToReadableStream.errored st = ToReadableStream.errored st0
  /\ ToReadableStream.timers st = ToReadableStream.timers st0.

Definition iterable_inv (result : SSRResult) (isPage : bool)
    (st : ToAsyncIterable.State) : Prop :=
  ToAsyncIterable.renderedFirstPageChunk st
  = first_chunk_seen isPage (ToAsyncIterable.log st)
  /\ pushes (ToAsyncIterable.log st)
     = doctype_bytes result isPage (written (ToAsyncIterable.log st))
       ++ non_empty (byte_arrays result (written (ToAsyncIterable.log st))).

(** The promises of the iterable: [next] holds the one made last, and the
    earlier ones are resolved. *)
Definition heap_inv (st : ToAsyncIterable.State) : Prop :=
  length (ToAsyncIterable.promises st) = S (ToAsyncIterable.next st)
  /\ forall p, p < ToAsyncIterable.next st ->
              ToAsyncIterable.promises st !! p = Some true.

(** The render task and the consumer of the iterable, together. *)
Definition config_inv (c : ToAsyncIterable.Config) : Prop :=
  iterable_inv (ToAsyncIterable.result c) (ToAsyncIterable.isPage c)
               (ToAsyncIterable.state c)
  /\ concat (ToAsyncIterable.pulled c)
       ++ concat (ToAsyncIterable.buffer (ToAsyncIterable.state c))
     = concat (pushes (ToAsyncIterable.log (ToAsyncIterable.state c)))
  /\ Forall (fun b : Uint8Array => 0 < length b)
            (ToAsyncIterable.buffer (ToAsyncIterable.state c))
  /\ heap_inv (ToAsyncIterable.state c)
  /\ (ToAsyncIterable.resolved (ToAsyncIterable.state c)
        (ToAsyncIterable.next (ToAsyncIterable.state c)) = true
      <-> ToAsyncIterable.rendering c = None)
  /\ (ToAsyncIterable.rendering c <> None ->
      ToAsyncIterable.error (ToAsyncIterable.state c) = None)
  /\ match ToAsyncIterable.consumer c with
     | ToAsyncIterable.Idle => True
     | ToAsyncIterable.Awaiting p =>
         p <= ToAsyncIterable.next (ToAsyncIterable.state c)
         /\ (p < ToAsyncIterable.next (ToAsyncIterable.state c) ->
             ToAsyncIterable.buffer (ToAsyncIterable.state c) <> [])
     | ToAsyncIterable.Finished =>
         ToAsyncIterable.rendering c = None
         /\ ToAsyncIterable.buffer (ToAsyncIterable.state c) = []
         /\ ToAsyncIterable.error (ToAsyncIterable.state c) = None
     | ToAsyncIterable.Failed e =>
         ToAsyncIterable.rendering c = None
         /\ ToAsyncIterable.error (ToAsyncIterable.state c) = Some e
     end.

(** The number of turns the render task of the iterable takes: one for each
    call of [write], and one for the end of the render. *)
Fixpoint turns (result : SSRResult) (isPage : bool) (r : Render)
    (st : ToAsyncIterable.State) : nat :=
  match r with
  | Write chunk k =>
      let '(st, thrown) := ToAsyncIterable.write result isPage st chunk in
      S (turns result isPage (k thrown) st)
  | _ => 1
  end.

(** The state of the iterable after the callback that follows the end of the
    render. *)
Definition settle (completion : ToAsyncIterable.State * Outcome unit)
  : ToAsyncIterable.State :=
  match completion with
  | (st, Returned _) => ToAsyncIterable.on_fulfilled st
  | (st, Threw e) => ToAsyncIterable.on_rejected e st
  | (st, Pending) => st
  end.

(** The state of a destination after the given chunks were written. *)
Definition after_writes {S : Type} (write : S -> Chunk -> S * option JsError)
    (s : S) (chunks : list Chunk) : S :=
  foldl (fun s chunk => (write s chunk).1) s chunks.

(** What one turn of the loop of [bufferHeadContent] does to the world, for a propagator whose
    [init] returned. *)
Definition turn (value : Propagator) (w : World) : World :=
  let w := register (registered (init value)) (log_init value w) in
  match propagated_head value with
  | Some h => extraHead_push h w
  | None => w
  end.

End Invariants.

(** ** The path of a render through a streaming destination *)

Section Paths.
Context `{C : Collaborators}.

(** How [write] of the Stream and of the Async-Iterable Adapter ends: it
    throws at a [Response] and returns otherwise. *)
Definition thrown_at (chunk : Chunk) : option JsError :=
  match chunk with
  | ChunkResponse _ => Some response_sent
  | ChunkContent _ => None
  end.

(** The chunks a render hands to such a destination, in order. *)
Fixpoint streamed (r : Render) : list Chunk :=
  match r with
  | Write chunk k => chunk :: streamed (k (thrown_at chunk))
  | _ => []
  end.

(** How the render ends on that path. *)
Fixpoint streamed_end (r : Render) : Outcome unit :=
  match r with
  | Resolve => Returned tt
  | Reject e => Threw e
  | Write chunk k => streamed_end (k (thrown_at chunk))
  end.

(** What is left to write for the render task of the iterable. *)
Definition remaining (c : ToAsyncIterable.Config) : list Chunk :=
  match ToAsyncIterable.rendering c with
  | Some r => streamed r
  | None => []
  end.

(** The render task of the iterable stays on the path of its render: the
    chunks written and those left to write are the chunks of the path, and the
    task ends as the path does. *)
Definition path_inv (chunks : list Chunk) (ending : Outcome unit)
    (c : ToAsyncIterable.Config) : Prop :=
  written (ToAsyncIterable.log (ToAsyncIterable.state c)) ++ remaining c = chunks
  /\ match ToAsyncIterable.rendering c with
     | Some r => streamed_end r = ending
     | None =>
         ToAsyncIterable.error (ToAsyncIterable.state c)
         = match ending with
           | Threw e => if truthy e then Some e else None
           | _ => None
           end
     end.

(** The buffer holds the arrays pushed that were not pulled yet: the arrays
    pushed so far are those taken by the pulls followed by the buffer. *)
Definition buffer_inv (c : ToAsyncIterable.Config) : Prop :=
  exists taken,
    pushes (ToAsyncIterable.log (ToAsyncIterable.state c))
    = taken ++ ToAsyncIterable.buffer (ToAsyncIterable.state c)
    /\ concat taken = concat (ToAsyncIterable.pulled c).

(** The values pulled so far: none is empty as long as the consumer has not
    seen [done], and the one that came with [done] is the empty array. *)
Definition pulls_inv (c : ToAsyncIterable.Config) : Prop :=
  match ToAsyncIterable.consumer c with
  | ToAsyncIterable.Finished =>
      exists earlier,
        ToAsyncIterable.pulled c = earlier ++ [[]]
        /\ Forall (fun v : Uint8Array => v <> []) earlier
  | _ => Forall (fun v : Uint8Array => v <> []) (ToAsyncIterable.pulled c)
  end.

End Paths.

(** ** A concrete universe, for examples *)

Module Demo.

(** A component value: its brands, its head fragment, the chunks its [render]
    writes (a number stands for a [Response]) and the error it ends with. *)
Record widget := {
  template : bool;
  headAndContent : bool;
  fragment : string;
  chunks : list (nat + string);
  failure : option string;
}.

#[export] Instance values : Values := {|
  Response := nat;
  Content := string;
  Foreign := string;
  Foreign_truthy := fun v => match v with EmptyString => false | _ => true end;
  Component := widget;
  Propagator := nat;
  Props := unit;
  Children := unit;
|}.

Definition response (n : nat) : @Response values := n.

Definition chunk_of (c : nat + string) : Chunk :=
  match c with
  | inl r => @ChunkResponse values r
  | inr s => @ChunkContent values s
  end.

Definition render_of (o : widget) : Render :=
  script (chunk_of <$> chunks o)
         (match failure o with
          | None => Resolve
          | Some v => Reject (@ErrForeign values v)
          end).

Definition page (cs : list (nat + string)) (f : option string) : widget :=
  {| template := true; headAndContent := false; fragment := EmptyString;
     chunks := cs; failure := f |}.

(** Three propagators: [0] registers [1] and [2] and gives a head fragment,
    [1] registers [0] again and gives a plain template, [2] gives another
    head fragment. *)
Definition init_of (p : nat) : InitResult :=
  match p with
  | 0 => {| registered := [1; 2];
            returnValue :=
              Returned (FactoryComponent
                          {| template := false; headAndContent := true;
                             fragment := "<link>"; chunks := [];
                             failure := None |}) |}
  | 1 => {| registered := [0];
            returnValue := Returned (FactoryComponent (page [] None)) |}
  | _ => {| registered := [];
            returnValue :=
              Returned (FactoryComponent
                          {| template := false; headAndContent := true;
                             fragment := "<style>"; chunks := [];
                             failure := None |}) |}
  end.

#[export] Instance collaborators : @Collaborators values := {|
  Content_toString := fun c => c;
  chunkToString := fun _ c => c;
  chunkToByteArray := fun _ c => String.list_byte_of_string c;
  isRenderTemplateResult := template;
  isHeadAndContent := headAndContent;
  content := fun o => FactoryComponent (page (chunks o) (failure o));
  head := fragment;
  typeof := fun _ => "object";
  render := render_of;
  init := init_of;
|}.

Definition context (p c : bool) (ps : list nat) : SSRResult :=
  {| partial := p; compressHTML := c;
     _metadata := {| propagators := ps; extraHead := [] |} |}.

(** A factory that resolves to the given value and leaves the context as it
    is. *)
Definition factory (v : FactoryResult) : AstroComponentFactory :=
  fun result _ _ => (result, Returned v).

Definition index : RouteData :=
  {| route := "/"; component := "src/pages/index.astro" |}.

(** A page that writes two chunks and resolves. *)
Definition hello : widget :=
  page [inr "<html>"; inr "<body>Hi</body></html>"] None.

(** The iterable of the page [hello], and where it stands once the render
    task has had its three turns and the consumer has pulled twice. *)
Definition hello_iterable : ToAsyncIterable.Config :=
  ToAsyncIterable.initial (context false false []) true [] (render_of hello).

Definition hello_schedule : list ToAsyncIterable.Move :=
  [ToAsyncIterable.RenderTurn; ToAsyncIterable.RenderTurn;
   ToAsyncIterable.RenderTurn; ToAsyncIterable.Pull; ToAsyncIterable.Resume;
   ToAsyncIterable.Pull; ToAsyncIterable.Resume].

Definition hello_pulled : ToAsyncIterable.Config :=
  default hello_iterable (ToAsyncIterable.run hello_schedule hello_iterable).

(** A page with a response between two chunks. *)
Definition redirecting : widget := page [inr "<p>"; inl 3; inr "</p>"] None.

Definition hello_rendered : ToAsyncIterable.Config :=
  default hello_iterable
    (ToAsyncIterable.run
       [ToAsyncIterable.RenderTurn; ToAsyncIterable.RenderTurn;
        ToAsyncIterable.RenderTurn] hello_iterable).

(** A page that writes one chunk and rejects; its iterable, at the start,
    when the render task is about to reject, and after the consumer has
    pulled. *)
Definition broken : widget := page [inr "<p>"] (Some "boom").

Definition broken_iterable : ToAsyncIterable.Config :=
  ToAsyncIterable.initial (context false false []) true [] (render_of broken).

Definition broken_rejecting : ToAsyncIterable.Config :=
  default broken_iterable
    (ToAsyncIterable.run [ToAsyncIterable.RenderTurn] broken_iterable).

Definition broken_failed : ToAsyncIterable.Config :=
  default broken_iterable
    (ToAsyncIterable.run
       [ToAsyncIterable.RenderTurn; ToAsyncIterable.Pull; ToAsyncIterable.Resume]
       broken_rejecting).

(** A page that writes one chunk and rejects with the empty string, which
    is falsy; its iterable, at the start, when the render task is about to
    reject, and after the consumer has pulled twice. *)
Definition muted : widget := page [inr "<p>"] (Some EmptyString).

Definition muted_iterable : ToAsyncIterable.Config :=
  ToAsyncIterable.initial (context false false []) true [] (render_of muted).

Definition muted_rejecting : ToAsyncIterable.Config :=
  default muted_iterable
    (ToAsyncIterable.run [ToAsyncIterable.RenderTurn] muted_iterable).

Definition muted_finished : ToAsyncIterable.Config :=
  default muted_iterable
    (ToAsyncIterable.run
       [ToAsyncIterable.RenderTurn; ToAsyncIterable.Pull; ToAsyncIterable.Resume;
        ToAsyncIterable.Pull; ToAsyncIterable.Resume]
       muted_rejecting).

(** A head-and-content pair that is no render-template result. *)
Definition bare_pair : widget :=
  {| template := false; headAndContent := true; fragment := "<link>";
     chunks := [inr "<p>"]; failure := None |}.

(** A value that is no render-template result, and a head-and-content pair
    that is one. *)
Definition stray : widget :=
  {| template := false; headAndContent := false; fragment := EmptyString;
     chunks := []; failure := None |}.

Definition hoisting : widget :=
  {| template := true; headAndContent := true; fragment := "<title>";
     chunks := [inr "<p>"]; failure := None |}.

End Demo.

(** ** A second universe, with propagators that fail *)

Module Faulty.
Import Demo.

(** Propagator [0] registers [1] and [2] and gives a head fragment; the
    promise of [1] rejects; the promise of [2] never settles. *)
Definition init_of (p : nat) : InitResult :=
  match p with
  | 0 => {| registered := [1; 2];
            returnValue :=
              Returned (FactoryComponent
                          {| template := false; headAndContent := true;
                             fragment := "<link>"; chunks := [];
                             failure := None |}) |}
  | 1 => {| registered := [];
            returnValue := Threw (@ErrForeign values "no head") |}
  | _ => {| registered := []; returnValue := Pending |}
  end.

Definition collaborators : @Collaborators values := {|
  Content_toString := fun c => c;
  chunkToString := fun _ c => c;
  chunkToByteArray := fun _ c => String.list_byte_of_string c;
  isRenderTemplateResult := template;
  isHeadAndContent := headAndContent;
  content := fun o => FactoryComponent (page (chunks o) (failure o));
  head := fragment;
  typeof := fun _ => "object";
  render := render_of;
  init := init_of;
|}.

End Faulty.

(** ** A third universe, whose chunks are byte arrays *)

Module Binary.

(** [String(chunk)] for a [Uint8Array] is [Array.prototype.join]: the bytes
    as decimal numbers, separated by commas. *)
Definition digit (n : nat) : ascii := ascii_of_nat (48 + n).

Definition decimal (b : byte) : string :=
  let n := Byte.to_nat b in
  if n <? 10 then String (digit n) EmptyString
  else if n <? 100
       then String (digit (n / 10)) (String (digit (n mod 10)) EmptyString)
       else String (digit (n / 100))
              (String (digit (n / 10 mod 10))
                 (String (digit (n mod 10)) EmptyString)).

Fixpoint Uint8Array_toString (a : Uint8Array) : string :=
  match a with
  | [] => EmptyString
  | [b] => decimal b
  | b :: a' => decimal b +:+ "," +:+ Uint8Array_toString a'
  end.

(** A component is the list of the arrays its [render] writes. *)
#[export] Instance values : Values := {|
  Response := nat;
  Content := Uint8Array;
  Foreign := string;
  Foreign_truthy := fun v => match v with EmptyString => false | _ => true end;
  Component := list Uint8Array;
  Propagator := nat;
  Props := unit;
  Children := unit;
|}.

(** [chunkToString] decodes a byte array and [chunkToByteArray] hands it on,
    as for a chunk that is an [ArrayBufferView]. *)
#[export] Instance collaborators : @Collaborators values := {|
  Content_toString := Uint8Array_toString;
  chunkToString := fun _ c => String.string_of_list_byte c;
  chunkToByteArray := fun _ c => c;
  isRenderTemplateResult := fun _ => true;
  isHeadAndContent := fun _ => false;
  content := fun o => @FactoryComponent values o;
  head := fun _ => EmptyString;
  typeof := fun _ => "object";
  render := fun o => script (@ChunkContent values <$> o) Resolve;
  init := fun _ =>
            {| registered := [];
               returnValue := Returned (@FactoryComponent values []) |};
|}.

Definition context : SSRResult :=
  {| partial := false; compressHTML := false;
     _metadata := {| propagators := []; extraHead := [] |} |}.

(** A page whose only chunk is the bytes of a document with its doctype. *)
Definition document : Uint8Array := encoder_encode "<!DOCTYPE html><html>".

Definition factory : AstroComponentFactory :=
  fun result _ _ => (result, Returned (@FactoryComponent values [document])).

End Binary.

(** ** Properties of the built-ins *)

Section Builtins.

Lemma append_cons (a : ascii) (s t : string) :
  String a s +:+ t = String a (s +:+ t).
Proof. reflexivity. Qed.

Lemma append_nil_l (s : string) : EmptyString +:+ s = s.
Proof. reflexivity. Qed.

Lemma append_nil_r (s : string) : s +:+ EmptyString = s.
Proof.
  induction s as [|a s IH]; [done |]. by rewrite append_cons, IH.
Qed.

Lemma append_assoc (s t u : string) : (s +:+ t) +:+ u = s +:+ (t +:+ u).
Proof.
  induction s as [|a s IH]; [done |]. by rewrite !append_cons, IH.
Qed.

Lemma match_here_spec (pattern s : string) :
  match_here pattern s = true <->
  exists marker after, s = marker +:+ after /\ same_letters pattern marker.
Proof.
  revert s. induction pattern as [|p pattern IH]; intros s; simpl.
  - split; [intros _ | done]. by exists EmptyString, s.
  - destruct s as [|c s].
    + split; [done |]. intros (marker & after & Hs & Hm).
      destruct marker; [done | discriminate].
    + rewrite andb_true_iff, Ascii.eqb_eq, IH. split.
      * intros (Hc & marker & after & -> & Hm).
        exists (String c marker), after. by rewrite append_cons.
      * intros (marker & after & Hs & Hm).
        destruct marker as [|b marker]; [done |].
        destruct Hm as [Hb Hm]. rewrite append_cons in Hs.
        injection Hs as -> ->.
        split; [done |]. by exists marker, after.
Qed.

Lemma RegExp_test_spec (pattern s : string) :
  RegExp_test pattern s = true <->
  exists before marker after,
    s = before +:+ marker +:+ after /\ same_letters pattern marker.
Proof.
  induction s as [|c s IH].
  - simpl. rewrite orb_false_r, match_here_spec. split.
    + intros (marker & after & Hs & Hm). by exists EmptyString, marker, after.
    + intros (before & marker & after & Hs & Hm).
      destruct before; [| discriminate].
      rewrite append_nil_l in Hs. by exists marker, after.
  - simpl. rewrite orb_true_iff, match_here_spec, IH. split.
    + intros [(marker & after & Hs & Hm) | (before & marker & after & Hs & Hm)].
      * by exists EmptyString, marker, after.
      * exists (String c before), marker, after.
        by rewrite append_cons, Hs.
    + intros (before & marker & after & Hs & Hm).
      destruct before as [|b before].
      * left. rewrite append_nil_l in Hs. by exists marker, after.
      * right. rewrite append_cons in Hs. injection Hs as _ ->.
        by exists before, marker, after.
Qed.

(** The regular expression of the source tests exactly for the marker. *)
Lemma DOCTYPE_EXP_test_spec (s : string) :
  DOCTYPE_EXP_test s = true <-> contains_marker s.
Proof. apply RegExp_test_spec. Qed.

Lemma total_length_cons (b : Uint8Array) (l : list Uint8Array) :
  total_length (b :: l) = length b + total_length l.
Proof. done. Qed.

Lemma total_length_app (l k : list Uint8Array) :
  total_length (l ++ k) = total_length l + total_length k.
Proof.
  induction l as [|b l IH]; [done |].
  simpl. rewrite !total_length_cons, IH. lia.
Qed.

Lemma total_length_concat (l : list Uint8Array) :
  length (concat l) = total_length l.
Proof.
  induction l as [|b l IH]; [done |].
  simpl. by rewrite length_app, total_length_cons, IH.
Qed.

Lemma drop_lookup_cons {A} (l : list A) (i : nat) (x : A) :
  l !! i = Some x -> drop i l = x :: drop (S i) l.
Proof.
  revert i. induction l as [|y l IH]; intros [|i] H; simpl in *;
    try discriminate.
  - by injection H as ->.
  - by apply IH.
Qed.

(** The first loop of [next()] adds up the lengths of the buffered arrays. *)
Lemma sum_lengths_spec (buffer : list Uint8Array) (todo i acc : nat) :
  i + todo = length buffer ->
  ToAsyncIterable.sum_lengths buffer todo i acc
  = acc + total_length (drop i buffer).
Proof.
  revert i acc.
  induction todo as [|todo IH]; intros i acc Hlen;
    cbn [ToAsyncIterable.sum_lengths].
  - rewrite drop_ge by lia. unfold total_length. simpl. lia.
  - destruct (lookup_lt_is_Some_2 buffer i) as [item Hitem]; [lia |].
    rewrite IH by lia. rewrite (drop_lookup_cons _ _ _ Hitem), Hitem.
    rewrite total_length_cons. simpl. lia.
Qed.

(** The second loop copies them, in order, and [set] never overflows. *)
Lemma merge_spec (buffer : list Uint8Array) (todo i : nat) (copied : Uint8Array) :
  i + todo = length buffer ->
  ToAsyncIterable.merge buffer todo i
    (copied ++ Uint8Array_new (total_length (drop i buffer))) (length copied)
  = Some (copied ++ concat (drop i buffer)).
Proof.
  revert i copied.
  induction todo as [|todo IH]; intros i copied Hlen;
    cbn [ToAsyncIterable.merge].
  - by rewrite drop_ge by lia.
  - destruct (lookup_lt_is_Some_2 buffer i) as [item Hitem]; [lia |].
    rewrite (drop_lookup_cons _ _ _ Hitem), Hitem. simpl.
    rewrite total_length_cons. unfold Uint8Array_set, Uint8Array_new.
    rewrite length_app, length_replicate.
    destruct (decide _) as [_ | Hno]; [| lia].
    rewrite replicate_add.
    replace (length copied) with (length copied + 0) at 1 by lia.
    rewrite list_inserts_app_r.
    rewrite list_inserts_0_r by (by rewrite length_replicate).
    specialize (IH (S i) (copied ++ item)).
    rewrite length_app, <- !(assoc_L (++)) in IH.
    apply IH. lia.
Qed.

End Builtins.

(** ** The doctype injector *)

(** Case analysis on one call of [write]. *)
Ltac stream_simpl :=
  cbn [fst snd ToReadableStream.controller_enqueue ToReadableStream.set_rendered
       ToReadableStream.called ToReadableStream.enqueued ToReadableStream.closed
       ToReadableStream.errored ToReadableStream.timers
       ToReadableStream.renderedFirstPageChunk ToReadableStream.log].

Ltac stream_cases st chunk flag :=
  destruct st as [q closed errored timers flag l]; unfold ToReadableStream.write;
  stream_simpl;
  match goal with
  | |- context [negb (partial ?result) && ?t] =>
      destruct (negb (partial result) && t)
  end;
  destruct chunk.

Ltac iterable_simpl :=
  cbn [fst snd ToAsyncIterable.buffer_push ToAsyncIterable.set_rendered
       ToAsyncIterable.called ToAsyncIterable.next_resolve
       ToAsyncIterable.next_renew ToAsyncIterable.promiseWithResolvers
       ToAsyncIterable.error ToAsyncIterable.next
       ToAsyncIterable.promises ToAsyncIterable.buffer
       ToAsyncIterable.renderedFirstPageChunk ToAsyncIterable.log].

Ltac iterable_cases st chunk flag :=
  destruct st as [err nxt heap buf flag l]; unfold ToAsyncIterable.write;
  iterable_simpl;
  match goal with
  | |- context [negb (partial ?result) && ?t] =>
      destruct (negb (partial result) && t)
  end;
  (destruct chunk as [r|c]; [| destruct (decide (0 < length _))]).

Ltac config_simpl :=
  unfold heap_inv, ToAsyncIterable.set_state, ToAsyncIterable.set_rendering,
    ToAsyncIterable.set_consumer, ToAsyncIterable.deliver,
    ToAsyncIterable.on_fulfilled, ToAsyncIterable.on_rejected,
    ToAsyncIterable.next_resolve, ToAsyncIterable.set_error,
    ToAsyncIterable.buffer_clear in *;
  cbn [ToAsyncIterable.result ToAsyncIterable.isPage ToAsyncIterable.state
       ToAsyncIterable.rendering ToAsyncIterable.consumer
       ToAsyncIterable.pulled ToAsyncIterable.error ToAsyncIterable.next
       ToAsyncIterable.promises ToAsyncIterable.buffer
       ToAsyncIterable.renderedFirstPageChunk ToAsyncIterable.log] in *.

Section Doctype.
Context `{C : Collaborators}.

Lemma written_app (l k : list Effect) : written (l ++ k) = written l ++ written k.
Proof. apply omap_app. Qed.

Lemma pushes_app (l k : list Effect) : pushes (l ++ k) = pushes l ++ pushes k.
Proof. apply omap_app. Qed.

Lemma inits_app (l k : list Effect) : inits (l ++ k) = inits l ++ inits k.
Proof. apply omap_app. Qed.

Lemma heads_app (l k : list Effect) : heads (l ++ k) = heads l ++ heads k.
Proof. apply omap_app. Qed.

Lemma texts_app (result : SSRResult) (l k : list Chunk) :
  texts result (l ++ k) = texts result l ++ texts result k.
Proof. apply omap_app. Qed.

Lemma byte_arrays_app (result : SSRResult) (l k : list Chunk) :
  byte_arrays result (l ++ k) = byte_arrays result l ++ byte_arrays result k.
Proof. apply omap_app. Qed.

Lemma join_app (l k : list string) : join (l ++ k) = join l +:+ join k.
Proof.
  induction l as [|s l IH]; [done |].
  simpl. by rewrite IH, append_assoc.
Qed.

Lemma injected_first (result : SSRResult) (isPage : bool) (chunk : Chunk) :
  injected result isPage false chunk = expected_doctype result isPage [chunk].
Proof.
  unfold injected, expected_doctype, doctype_compressed, doctype_newline.
  by destruct isPage, (partial result), (DOCTYPE_EXP_test _).
Qed.

Lemma injected_later (result : SSRResult) (isPage : bool) (chunk : Chunk) :
  injected result isPage isPage chunk = None.
Proof. unfold injected. by destruct isPage. Qed.

Lemma injected_seen (result : SSRResult) (isPage : bool) (chunk : Chunk) :
  injected result isPage true chunk = None.
Proof. unfold injected. by destruct isPage. Qed.

(** *** One call of [write], for each destination *)

Lemma string_write_str (result : SSRResult) (isPage : bool)
    (st : ToString.State) (chunk : Chunk) :
  ToString.str (ToString.write result isPage st chunk).1
  = ToString.str st
    +:+ default EmptyString (injected result isPage (ToString.renderedFirstPageChunk st) chunk)
    +:+ join (texts result [chunk]).
Proof.
  destruct st as [s flag l]. unfold ToString.write, injected.
  cbn [ToString.called ToString.renderedFirstPageChunk ToString.log ToString.str].
  destruct (isPage && negb flag),
    (negb (partial result) && negb (DOCTYPE_EXP_test (Chunk_toString chunk))),
    chunk; cbn; by rewrite ?append_nil_r, ?append_assoc.
Qed.

Lemma string_write_flag (result : SSRResult) (isPage : bool)
    (st : ToString.State) (chunk : Chunk) :
  ToString.renderedFirstPageChunk (ToString.write result isPage st chunk).1
  = ToString.renderedFirstPageChunk st || isPage.
Proof.
  destruct st as [s flag l]. unfold ToString.write.
  cbn [ToString.called ToString.renderedFirstPageChunk ToString.log ToString.str].
  by destruct isPage, flag,
    (negb (partial result) && negb (DOCTYPE_EXP_test (Chunk_toString chunk))),
    chunk.
Qed.

Lemma string_write_written (result : SSRResult) (isPage : bool)
    (st : ToString.State) (chunk : Chunk) :
  written (ToString.log (ToString.write result isPage st chunk).1)
  = written (ToString.log st) ++ [chunk].
Proof.
  destruct st as [s flag l]. unfold ToString.write.
  cbn [ToString.called ToString.renderedFirstPageChunk ToString.log ToString.str].
  destruct (isPage && negb flag),
    (negb (partial result) && negb (DOCTYPE_EXP_test (Chunk_toString chunk))),
    chunk;
    cbn [fst ToString.append ToString.set_rendered ToString.called ToString.log];
    rewrite ?written_app; cbn; by rewrite ?app_nil_r.
Qed.

Lemma string_write_returns (result : SSRResult) (isPage : bool)
    (st : ToString.State) (chunk : Chunk) :
  (ToString.write result isPage st chunk).2 = None.
Proof. unfold ToString.write. by destruct chunk. Qed.

Lemma stream_write_enqueued (result : SSRResult) (isPage : bool)
    (st : ToReadableStream.State) (chunk : Chunk) :
  ToReadableStream.enqueued (ToReadableStream.write result isPage st chunk).1
  = ToReadableStream.enqueued st
    ++ option_list
         (encoder_encode
            <$> injected result isPage
                  (ToReadableStream.renderedFirstPageChunk st) chunk)
    ++ byte_arrays result [chunk].
Proof.
  unfold injected. stream_cases st chunk flag;
    destruct (isPage && negb flag); stream_simpl; cbn;
    by rewrite <- ?(assoc_L (++)), ?app_nil_r.
Qed.

Lemma stream_write_flag (result : SSRResult) (isPage : bool)
    (st : ToReadableStream.State) (chunk : Chunk) :
  ToReadableStream.renderedFirstPageChunk
    (ToReadableStream.write result isPage st chunk).1
  = ToReadableStream.renderedFirstPageChunk st || isPage.
Proof. stream_cases st chunk flag; by destruct isPage, flag. Qed.

Lemma stream_write_written (result : SSRResult) (isPage : bool)
    (st : ToReadableStream.State) (chunk : Chunk) :
  written (ToReadableStream.log (ToReadableStream.write result isPage st chunk).1)
  = written (ToReadableStream.log st) ++ [chunk].
Proof.
  stream_cases st chunk flag; destruct (isPage && negb flag); stream_simpl;
    rewrite ?written_app; cbn; by rewrite ?app_nil_r.
Qed.

Lemma stream_write_untouched (result : SSRResult) (isPage : bool)
    (st : ToReadableStream.State) (chunk : Chunk) :
  stream_untouched st (ToReadableStream.write result isPage st chunk).1.
Proof.
  unfold stream_untouched.
  stream_cases st chunk flag; by destruct (isPage && negb flag).
Qed.

(** A [Response] makes [write] throw, anything else makes it return. *)
Lemma stream_write_throws (result : SSRResult) (isPage : bool)
    (st : ToReadableStream.State) (chunk : Chunk) :
  (ToReadableStream.write result isPage st chunk).2
  = match chunk with
    | ChunkResponse _ =>
        Some (ErrAstro {| data := ResponseSentError; loc := None |})
    | ChunkContent _ => None
    end.
Proof. unfold ToReadableStream.write. by destruct chunk. Qed.

Lemma non_empty_one (b : Uint8Array) :
  non_empty [b] = if decide (0 < length b) then [b] else [].
Proof.
  unfold non_empty. destruct (decide _).
  - by rewrite filter_cons_True.
  - by rewrite filter_cons_False.
Qed.

Lemma non_empty_app (l k : list Uint8Array) :
  non_empty (l ++ k) = non_empty l ++ non_empty k.
Proof. apply filter_app. Qed.

Lemma iterable_write_buffer (result : SSRResult) (isPage : bool)
    (st : ToAsyncIterable.State) (chunk : Chunk) :
  ToAsyncIterable.buffer (ToAsyncIterable.write result isPage st chunk).1
  = ToAsyncIterable.buffer st
    ++ option_list
         (encoder_encode
            <$> injected result isPage
                  (ToAsyncIterable.renderedFirstPageChunk st) chunk)
    ++ non_empty (byte_arrays result [chunk]).
Proof.
  unfold injected. iterable_cases st chunk flag;
    destruct (isPage && negb flag); iterable_simpl; cbn [byte_arrays omap list_omap];
    rewrite ?non_empty_one; try destruct (decide _); try lia; cbn;
    by rewrite <- ?(assoc_L (++)), ?app_nil_r.
Qed.

Lemma iterable_write_pushes (result : SSRResult) (isPage : bool)
    (st : ToAsyncIterable.State) (chunk : Chunk) :
  pushes (ToAsyncIterable.log (ToAsyncIterable.write result isPage st chunk).1)
  = pushes (ToAsyncIterable.log st)
    ++ option_list
         (encoder_encode
            <$> injected result isPage
                  (ToAsyncIterable.renderedFirstPageChunk st) chunk)
    ++ non_empty (byte_arrays result [chunk]).
Proof.
  unfold injected. iterable_cases st chunk flag;
    destruct (isPage && negb flag); iterable_simpl; cbn [byte_arrays omap list_omap];
    rewrite ?non_empty_one; try destruct (decide _); try lia;
    rewrite ?pushes_app; cbn;
    by rewrite <- ?(assoc_L (++)), ?app_nil_r.
Qed.

Lemma iterable_write_flag (result : SSRResult) (isPage : bool)
    (st : ToAsyncIterable.State) (chunk : Chunk) :
  ToAsyncIterable.renderedFirstPageChunk
    (ToAsyncIterable.write result isPage st chunk).1
  = ToAsyncIterable.renderedFirstPageChunk st || isPage.
Proof. iterable_cases st chunk flag; by destruct isPage, flag. Qed.

Lemma iterable_write_written (result : SSRResult) (isPage : bool)
    (st : ToAsyncIterable.State) (chunk : Chunk) :
  written (ToAsyncIterable.log (ToAsyncIterable.write result isPage st chunk).1)
  = written (ToAsyncIterable.log st) ++ [chunk].
Proof.
  iterable_cases st chunk flag; destruct (isPage && negb flag); iterable_simpl;
    rewrite ?written_app; cbn; by rewrite ?app_nil_r.
Qed.

Lemma iterable_write_error (result : SSRResult) (isPage : bool)
    (st : ToAsyncIterable.State) (chunk : Chunk) :
  ToAsyncIterable.error (ToAsyncIterable.write result isPage st chunk).1
  = ToAsyncIterable.error st.
Proof. iterable_cases st chunk flag; by destruct (isPage && negb flag). Qed.

Lemma iterable_write_throws (result : SSRResult) (isPage : bool)
    (st : ToAsyncIterable.State) (chunk : Chunk) :
  (ToAsyncIterable.write result isPage st chunk).2
  = match chunk with
    | ChunkResponse _ =>
        Some (ErrAstro {| data := ResponseSentError; loc := None |})
    | ChunkContent _ => None
    end.
Proof.
  unfold ToAsyncIterable.write. destruct chunk; [done |]. by destruct (decide _).
Qed.

(** *** The invariants hold along a render *)

Lemma injected_cases (result : SSRResult) (isPage : bool) (l : list Effect)
    (chunk : Chunk) :
  (written l = []
   /\ first_chunk_seen isPage l = false
   /\ injected result isPage false chunk
      = expected_doctype result isPage (written l ++ [chunk]))
  \/ (first_chunk_seen isPage l = isPage
      /\ injected result isPage isPage chunk = None
      /\ expected_doctype result isPage (written l ++ [chunk])
         = expected_doctype result isPage (written l)).
Proof.
  unfold first_chunk_seen. destruct (written l) as [|c0 cs].
  - left. rewrite injected_first. by destruct isPage.
  - right. rewrite injected_later. by destruct isPage.
Qed.

Lemma first_chunk_seen_step (isPage : bool) (l l' : list Effect) (chunk : Chunk) :
  written l' = written l ++ [chunk] ->
  first_chunk_seen isPage l || isPage = first_chunk_seen isPage l'.
Proof.
  intros Hw. unfold first_chunk_seen. rewrite Hw.
  by destruct isPage, (written l).
Qed.

Lemma string_write_inv (result : SSRResult) (isPage : bool)
    (st : ToString.State) (chunk : Chunk) :
  string_inv result isPage st ->
  string_inv result isPage (ToString.write result isPage st chunk).1.
Proof.
  intros [Hflag Hstr]. split.
  - rewrite string_write_flag, Hflag.
    apply (first_chunk_seen_step _ _ _ chunk), string_write_written.
  - rewrite string_write_str, string_write_written, Hflag, Hstr.
    rewrite texts_app, join_app.
    destruct (injected_cases result isPage (ToString.log st) chunk)
      as [(Hw & -> & Hi) | (-> & Hi & ->)]; rewrite Hi.
    + by rewrite Hw.
    + by rewrite append_nil_l, append_assoc.
Qed.

Lemma stream_write_inv (result : SSRResult) (isPage : bool)
    (st : ToReadableStream.State) (chunk : Chunk) :
  stream_inv result isPage st ->
  stream_inv result isPage (ToReadableStream.write result isPage st chunk).1.
Proof.
  intros [Hflag Hq]. split.
  - rewrite stream_write_flag, Hflag.
    apply (first_chunk_seen_step _ _ _ chunk), stream_write_written.
  - rewrite stream_write_enqueued, stream_write_written, Hflag, Hq.
    rewrite byte_arrays_app. unfold doctype_bytes.
    destruct (injected_cases result isPage (ToReadableStream.log st) chunk)
      as [(Hw & -> & Hi) | (-> & Hi & ->)]; rewrite Hi.
    + by rewrite Hw.
    + simpl. by rewrite <- (assoc_L (++)).
Qed.

Lemma iterable_write_inv (result : SSRResult) (isPage : bool)
    (st : ToAsyncIterable.State) (chunk : Chunk) :
  iterable_inv result isPage st ->
  iterable_inv result isPage (ToAsyncIterable.write result isPage st chunk).1.
Proof.
  intros [Hflag Hq]. split.
  - rewrite iterable_write_flag, Hflag.
    apply (first_chunk_seen_step _ _ _ chunk), iterable_write_written.
  - rewrite iterable_write_pushes, iterable_write_written, Hflag, Hq.
    rewrite byte_arrays_app, non_empty_app. unfold doctype_bytes.
    destruct (injected_cases result isPage (ToAsyncIterable.log st) chunk)
      as [(Hw & -> & Hi) | (-> & Hi & ->)]; rewrite Hi.
    + by rewrite Hw.
    + simpl. by rewrite <- (assoc_L (++)).
Qed.

(** A generic invariant rule for [drive]. *)
Lemma drive_invariant {S : Type} (write : S -> Chunk -> S * option JsError)
    (P : S -> Prop) :
  (forall s chunk, P s -> P (write s chunk).1) ->
  forall r s, P s -> P (drive write r s).1.
Proof.
  intros Hwrite r. induction r as [| e | chunk k IH]; intros s Hs; simpl; try done.
  specialize (Hwrite s chunk Hs). destruct (write s chunk) as [s' thrown].
  by apply IH.
Qed.

(** [drive] never leaves its promise pending: the render tree is finite. *)
Lemma drive_settles {S : Type} (write : S -> Chunk -> S * option JsError)
    (r : Render) (s : S) :
  (drive write r s).2 <> Pending.
Proof.
  revert s. induction r as [| e | chunk k IH]; intros s; simpl; try done.
  destruct (write s chunk) as [s' thrown]. apply IH.
Qed.

End Doctype.

(** ** The head propagator *)

Section HeadPass.
Context `{C : Collaborators}.

Lemma Set_add_prefix (s : list Propagator) (p : Propagator) :
  s `prefix_of` Set_add s p.
Proof.
  unfold Set_add. destruct (decide _); [done |]. by apply prefix_app_r.
Qed.

Lemma Set_add_elem (s : list Propagator) (p q : Propagator) :
  q ∈ Set_add s p <-> q ∈ s \/ q = p.
Proof.
  unfold Set_add. destruct (decide (p ∈ s)) as [Hin|Hin].
  - split; [by left |]. by intros [? | ->].
  - rewrite elem_of_app, list_elem_of_singleton. tauto.
Qed.

Lemma Set_add_NoDup (s : list Propagator) (p : Propagator) :
  NoDup s -> NoDup (Set_add s p).
Proof.
  intros Hs. unfold Set_add. destruct (decide (p ∈ s)) as [Hin|Hin]; [done |].
  apply NoDup_app. split; [done |]. split; [| apply NoDup_singleton].
  intros x Hx ->%list_elem_of_singleton. done.
Qed.

Lemma Set_add_all_prefix (added s : list Propagator) :
  s `prefix_of` foldl Set_add s added.
Proof.
  revert s. induction added as [|p added IH]; intros s; simpl; [done |].
  etrans; [apply (Set_add_prefix s p) | apply IH].
Qed.

Lemma Set_add_all_elem (added s : list Propagator) (q : Propagator) :
  q ∈ foldl Set_add s added <-> q ∈ s \/ q ∈ added.
Proof.
  revert s. induction added as [|p added IH]; intros s; simpl.
  - rewrite elem_of_nil. tauto.
  - rewrite IH, Set_add_elem, elem_of_cons. tauto.
Qed.

Lemma Set_add_all_NoDup (added s : list Propagator) :
  NoDup s -> NoDup (foldl Set_add s added).
Proof.
  revert s. induction added as [|p added IH]; intros s Hs; simpl; [done |].
  by apply IH, Set_add_NoDup.
Qed.

Lemma turn_effects (value : Propagator) (w : World) :
  effects (turn value w)
  = effects w ++ PropagatorInit value
                 :: (ExtraHeadPush <$> option_list (propagated_head value)).
Proof.
  unfold turn. destruct (propagated_head value); simpl; [| done].
  by rewrite <- (assoc_L (++)).
Qed.

Lemma turn_propagators (value : Propagator) (w : World) :
  propagators (_metadata (ctx (turn value w)))
  = foldl Set_add (propagators (_metadata (ctx w))) (registered (init value)).
Proof. unfold turn. by destruct (propagated_head value). Qed.

Lemma turn_extraHead (value : Propagator) (w : World) :
  extraHead (_metadata (ctx (turn value w)))
  = extraHead (_metadata (ctx w)) ++ option_list (propagated_head value).
Proof.
  unfold turn. destruct (propagated_head value); simpl; [done |].
  by rewrite app_nil_r.
Qed.

Lemma turn_flags (value : Propagator) (w : World) :
  partial (ctx (turn value w)) = partial (ctx w)
  /\ compressHTML (ctx (turn value w)) = compressHTML (ctx w).
Proof. unfold turn. by destruct (propagated_head value). Qed.

(** The loop, one turn unfolded. *)
Lemma bufferHeadContent_loop_turn (fuel iterator : nat) (w : World)
    (value : Propagator) :
  propagators (_metadata (ctx w)) !! iterator = Some value ->
  bufferHeadContent_loop (S fuel) iterator w
  = match returnValue (init value) with
    | Returned _ => bufferHeadContent_loop fuel (S iterator) (turn value w)
    | Threw e =>
        (register (registered (init value)) (log_init value w), Threw e)
    | Pending =>
        (register (registered (init value)) (log_init value w), Pending)
    end.
Proof.
  intros Hvalue. cbn [bufferHeadContent_loop]. rewrite Hvalue.
  unfold turn, propagated_head. by destruct (returnValue (init value)).
Qed.

Lemma bufferHeadContent_loop_done (fuel iterator : nat) (w : World) :
  propagators (_metadata (ctx w)) !! iterator = None ->
  bufferHeadContent_loop (S fuel) iterator w = (w, Returned tt).
Proof. intros Hnone. cbn [bufferHeadContent_loop]. by rewrite Hnone. Qed.

(** Whatever the loop does, it touches no output channel and leaves the
    flags of the context alone. *)
Lemma bufferHeadContent_loop_quiet (fuel iterator : nat) (w : World) :
  exists new,
    effects (bufferHeadContent_loop fuel iterator w).1 = effects w ++ new
    /\ Forall (fun e => is_output e = false) new
    /\ partial (ctx (bufferHeadContent_loop fuel iterator w).1) = partial (ctx w)
    /\ compressHTML (ctx (bufferHeadContent_loop fuel iterator w).1)
       = compressHTML (ctx w).
Proof.
  revert iterator w. induction fuel as [|fuel IH]; intros iterator w.
  - exists []. by rewrite app_nil_r.
  - destruct (propagators (_metadata (ctx w)) !! iterator) as [value|] eqn:Hvalue.
    + rewrite (bufferHeadContent_loop_turn _ _ _ _ Hvalue).
      destruct (returnValue (init value)).
      * destruct (IH (S iterator) (turn value w)) as (new & -> & Hnew & -> & ->).
        destruct (turn_flags value w) as [-> ->]. rewrite turn_effects.
        eexists. rewrite <- (assoc_L (++)). split; [done |].
        split; [| done]. apply Forall_app. split; [| done].
        apply Forall_cons. split; [done |].
        by destruct (propagated_head value); repeat constructor.
      * exists [PropagatorInit value]. by repeat constructor.
      * exists [PropagatorInit value]. by repeat constructor.
    + rewrite (bufferHeadContent_loop_done _ _ _ Hvalue).
      exists []. by rewrite app_nil_r.
Qed.

(** When the loop returns, it has called [init] on every entry from
    [iterator] on, those added on the way included, once each and in the order
    of the set, and has pushed the head fragments in that order. *)
Lemma bufferHeadContent_loop_returned (fuel iterator : nat) (w w' : World) :
  bufferHeadContent_loop fuel iterator w = (w', Returned tt) ->
  exists new,
    effects w' = effects w ++ new
    /\ propagators (_metadata (ctx w))
       `prefix_of` propagators (_metadata (ctx w'))
    /\ inits new = drop iterator (propagators (_metadata (ctx w')))
    /\ heads new
       = omap propagated_head (drop iterator (propagators (_metadata (ctx w'))))
    /\ extraHead (_metadata (ctx w'))
       = extraHead (_metadata (ctx w)) ++ heads new.
Proof.
  revert iterator w. induction fuel as [|fuel IH]; intros iterator w; [done |].
  destruct (propagators (_metadata (ctx w)) !! iterator) as [value|] eqn:Hvalue.
  - rewrite (bufferHeadContent_loop_turn _ _ _ _ Hvalue).
    destruct (returnValue (init value)) eqn:Hret; [| done | done].
    intros (new & -> & Hprefix & Hinits & Hheads & ->)%IH.
    rewrite turn_propagators in Hprefix.
    assert (propagators (_metadata (ctx w))
              `prefix_of` propagators (_metadata (ctx w'))) as Hpre.
    { etrans; [apply Set_add_all_prefix | done]. }
    assert (propagators (_metadata (ctx w')) !! iterator = Some value) as Hlook.
    { by apply (prefix_lookup_Some _ _ _ _ Hvalue). }
    rewrite turn_effects, turn_extraHead.
    eexists. rewrite <- (assoc_L (++)). split; [done |]. split; [done |].
    rewrite (drop_lookup_cons _ _ _ Hlook).
    assert (heads (ExtraHeadPush <$> option_list (propagated_head value))
            = option_list (propagated_head value)) as Hh.
    { by destruct (propagated_head value). }
    assert (inits (ExtraHeadPush <$> option_list (propagated_head value)) = [])
      as Hi.
    { by destruct (propagated_head value). }
    change (PropagatorInit value :: ?l) with ([PropagatorInit value] ++ l).
    rewrite !inits_app, !heads_app, Hh, Hi, Hinits, Hheads.
    split; [done |]. split.
    + simpl. by destruct (propagated_head value).
    + simpl. by rewrite <- (assoc_L (++)).
  - rewrite (bufferHeadContent_loop_done _ _ _ Hvalue).
    intros [= <-]. exists []. rewrite app_nil_r.
    apply lookup_ge_None in Hvalue. rewrite drop_ge by done.
    by rewrite app_nil_r.
Qed.

Lemma closed_universe_turn (universe : list Propagator) (value : Propagator)
    (w : World) :
  closed_universe universe w ->
  value ∈ propagators (_metadata (ctx w)) ->
  closed_universe universe (turn value w).
Proof.
  intros (Hnodup & Hsub & Hclosed) Hvalue. unfold closed_universe.
  rewrite turn_propagators. split; [by apply Set_add_all_NoDup |].
  split; [| done]. intros p [Hp | Hp]%Set_add_all_elem; [by apply Hsub |].
  by apply (Hclosed value); [apply Hsub |].
Qed.

Lemma closed_universe_length (universe : list Propagator) (w : World) :
  closed_universe universe w ->
  length (propagators (_metadata (ctx w))) <= length universe.
Proof.
  intros (Hnodup & Hsub & _). by apply submseteq_length, NoDup_submseteq.
Qed.

(** With more turns than the universe has propagators the loop never stops
    for want of fuel: one more unit changes nothing. *)
Lemma bufferHeadContent_loop_fuel (universe : list Propagator)
    (fuel iterator : nat) (w : World) :
  closed_universe universe w ->
  1 <= fuel -> length universe + 1 - iterator <= fuel ->
  bufferHeadContent_loop (S fuel) iterator w
  = bufferHeadContent_loop fuel iterator w.
Proof.
  revert iterator w. induction fuel as [|fuel IH]; intros iterator w Hw H1 Hfuel;
    [lia |].
  destruct (propagators (_metadata (ctx w)) !! iterator) as [value|] eqn:Hvalue.
  - rewrite !(bufferHeadContent_loop_turn _ _ _ _ Hvalue).
    destruct (returnValue (init value)); [| done | done].
    pose proof (closed_universe_length _ _ Hw) as Hlen.
    pose proof (lookup_lt_Some _ _ _ Hvalue) as Hlt.
    apply IH; [| lia | lia].
    apply closed_universe_turn; [done |]. by eapply list_elem_of_lookup_2.
  - by rewrite !(bufferHeadContent_loop_done _ _ _ Hvalue).
Qed.

Lemma bufferHeadContent_fuel (universe : list Propagator) (fuel : nat)
    (w : World) :
  closed_universe universe w ->
  length universe < fuel ->
  bufferHeadContent fuel w = bufferHeadContent (S (length universe)) w.
Proof.
  intros Hw Hfuel. unfold bufferHeadContent.
  induction fuel as [|fuel IH]; [lia |].
  destruct (decide (fuel = length universe)) as [-> | Hne]; [done |].
  rewrite <- IH by lia. apply (bufferHeadContent_loop_fuel universe); [done | lia | lia].
Qed.

(** With more turns than the universe has propagators, the loop returns
    when every [init] it can call returns. *)
Lemma bufferHeadContent_loop_returns (universe : list Propagator)
    (fuel iterator : nat) (w : World) :
  closed_universe universe w ->
  1 <= fuel -> length universe + 1 - iterator <= fuel ->
  (forall p, p ∈ universe -> exists v, returnValue (init p) = Returned v) ->
  (bufferHeadContent_loop fuel iterator w).2 = Returned tt.
Proof.
  intros Hw H1 Hfuel Hreturns. revert iterator w Hw H1 Hfuel.
  induction fuel as [|fuel IH]; intros iterator w Hw H1 Hfuel; [lia |].
  destruct (propagators (_metadata (ctx w)) !! iterator) as [value|] eqn:Hvalue.
  - rewrite (bufferHeadContent_loop_turn _ _ _ _ Hvalue).
    pose proof (closed_universe_length _ _ Hw) as Hlen.
    pose proof (lookup_lt_Some _ _ _ Hvalue) as Hlt.
    assert (value ∈ propagators (_metadata (ctx w))) as Hin
      by (by eapply list_elem_of_lookup_2).
    destruct (Hreturns value) as [v ->]; [by apply Hw |].
    apply IH; [| lia | lia]. by apply closed_universe_turn.
  - by rewrite (bufferHeadContent_loop_done _ _ _ Hvalue).
Qed.

Lemma bufferHeadContent_loop_NoDup (fuel iterator : nat) (w : World) :
  NoDup (propagators (_metadata (ctx w))) ->
  NoDup (propagators (_metadata (ctx (bufferHeadContent_loop fuel iterator w).1))).
Proof.
  revert iterator w. induction fuel as [|fuel IH]; intros iterator w Hw; [done |].
  destruct (propagators (_metadata (ctx w)) !! iterator) as [value|] eqn:Hvalue.
  - rewrite (bufferHeadContent_loop_turn _ _ _ _ Hvalue).
    destruct (returnValue (init value)).
    + apply IH. rewrite turn_propagators. by apply Set_add_all_NoDup.
    + by apply Set_add_all_NoDup.
    + by apply Set_add_all_NoDup.
  - by rewrite (bufferHeadContent_loop_done _ _ _ Hvalue).
Qed.

End HeadPass.

(** ** The iterable at work *)

Section Iterable.
Context `{C : Collaborators}.
Import ToAsyncIterable.

(** A call of [write] leaves the promises alone, or, when it has pushed the
    bytes of the chunk, resolves [next] and makes a new promise. *)
Lemma iterable_write_heap (result : SSRResult) (isPage : bool)
    (st : State) (chunk : Chunk) :
  (non_empty (byte_arrays result [chunk]) = []
   /\ next (write result isPage st chunk).1 = next st
   /\ promises (write result isPage st chunk).1 = promises st)
  \/ (non_empty (byte_arrays result [chunk]) <> []
      /\ next (write result isPage st chunk).1 = length (promises st)
      /\ promises (write result isPage st chunk).1
         = <[next st := true]> (promises st) ++ [false]).
Proof.
  iterable_cases st chunk flag; destruct (isPage && negb flag); iterable_simpl;
    cbn [byte_arrays omap list_omap]; rewrite ?non_empty_one;
    try destruct (decide _); try lia;
    first [by left | right; by rewrite length_insert].
Qed.

Lemma injected_non_empty (result : SSRResult) (isPage flag : bool)
    (chunk : Chunk) :
  Forall (fun b : Uint8Array => 0 < length b)
         (option_list (encoder_encode <$> injected result isPage flag chunk)).
Proof.
  unfold injected.
  destruct (isPage && negb flag),
    (negb (partial result) && negb (DOCTYPE_EXP_test (Chunk_toString chunk))),
    (compressHTML result); repeat constructor; simpl; lia.
Qed.

Lemma non_empty_Forall (l : list Uint8Array) :
  Forall (fun b : Uint8Array => 0 < length b) (non_empty l).
Proof. apply Forall_forall. by intros b [Hb _]%list_elem_of_filter. Qed.

Lemma concat_non_empty (l : list Uint8Array) : concat (non_empty l) = concat l.
Proof.
  induction l as [|b l IH]; [done |]. unfold non_empty in *.
  destruct (decide (0 < length b)) as [Hb|Hb].
  - rewrite filter_cons_True by done. simpl. by rewrite IH.
  - rewrite filter_cons_False by done. rewrite IH.
    destruct b; [done | simpl in Hb; lia].
Qed.

(** Nothing but empty arrays can merge into an empty array. *)
Lemma total_length_zero (l : list Uint8Array) :
  Forall (fun b : Uint8Array => 0 < length b) l ->
  total_length l = 0 -> l = [].
Proof.
  destruct 1 as [|b l Hb Hl]; [done |]. rewrite total_length_cons. lia.
Qed.

(** The body of [next()], once the two loops are understood. *)
Lemma next_body_spec (st : State) :
  next_body st
  = match error st with
    | Some e => (st, Threw e)
    | None =>
        (buffer_clear st,
         Returned {| done := bool_decide (total_length (buffer st) = 0);
                     value := concat (buffer st) |})
    end.
Proof.
  unfold next_body. destruct (error st); [done |].
  rewrite sum_lengths_spec by done. rewrite drop_0, Nat.add_0_l.
  pose proof (merge_spec (buffer st) (length (buffer st)) 0 [] eq_refl) as Hm.
  rewrite drop_0 in Hm. simpl in Hm. by rewrite Hm.
Qed.

Lemma resolved_spec (st : State) (p : nat) :
  resolved st p = true <-> promises st !! p = Some true.
Proof. unfold resolved. apply bool_decide_eq_true. Qed.

Lemma step_environment (m : Move) (c c' : Config) :
  step m c = Some c' -> result c' = result c /\ isPage c' = isPage c.
Proof.
  unfold step. intros Hstep.
  destruct m, c as [res page st r k pl]; config_simpl.
  - destruct r as [[| e | chunk kont]|]; try discriminate.
    + by injection Hstep as <-.
    + by injection Hstep as <-.
    + destruct (write res page st chunk). by injection Hstep as <-.
  - destruct k; try discriminate. by injection Hstep as <-.
  - destruct k; try discriminate. destruct (resolved st p); [| discriminate].
    destruct (next_body st) as [st' [r0 | e |]]; try discriminate;
      by injection Hstep as <-.
Qed.

Lemma step_render_turn_inv (c c' : Config) :
  config_inv c -> step RenderTurn c = Some c' -> config_inv c'.
Proof.
  destruct c as [res page st r k pl]. unfold config_inv, step. config_simpl.
  intros (Hinv & Hacc & Hbuf & [Hlen Hold] & Hnext & Herr & Hk) Hstep.
  destruct r as [[| e | chunk kont]|]; [| | | discriminate].
  - injection Hstep as <-. config_simpl.
    split; [exact Hinv |]. split; [exact Hacc |]. split; [exact Hbuf |].
    split; [split; [by rewrite length_insert |] |].
    { intros p Hp. rewrite list_lookup_insert_ne by lia. by apply Hold. }
    split; [split; [done | intros _] |].
    { apply resolved_spec. cbn [promises]. apply list_lookup_insert_eq. lia. }
    split; [done |].
    destruct k as [| p | |]; try done; by destruct Hk as [[=] _].
  - injection Hstep as <-. config_simpl.
    split; [exact Hinv |]. split; [exact Hacc |]. split; [exact Hbuf |].
    split; [split; [by rewrite length_insert |] |].
    { intros p Hp. rewrite list_lookup_insert_ne by lia. by apply Hold. }
    split; [split; [done | intros _] |].
    { apply resolved_spec. cbn [promises]. apply list_lookup_insert_eq. lia. }
    split; [done |].
    destruct k as [| p | |]; try done.
    + by destruct Hk as [[=] _].
    + by destruct Hk as [[=] _].
  - destruct (write res page st chunk) as [st' thrown] eqn:Hwrite.
    injection Hstep as <-. config_simpl.
    pose proof (iterable_write_inv res page st chunk Hinv) as Hinv'.
    pose proof (iterable_write_buffer res page st chunk) as Hb.
    pose proof (iterable_write_pushes res page st chunk) as Hp.
    pose proof (iterable_write_error res page st chunk) as He.
    pose proof (iterable_write_heap res page st chunk) as Hheap.
    rewrite Hwrite in Hinv', Hb, Hp, He, Hheap. cbn [fst] in *.
    assert (promises st !! next st <> Some true) as Hpending.
    { rewrite <- resolved_spec. intros Ht. apply Hnext in Ht. discriminate. }
    split; [done |]. split.
    { rewrite Hb, Hp, !concat_app, (assoc_L (++)). by rewrite Hacc. }
    split.
    { rewrite Hb. rewrite !Forall_app. split; [done |].
      split; [apply injected_non_empty | apply non_empty_Forall]. }
    split.
    { destruct Hheap as [(_ & -> & ->) | (_ & -> & ->)]; [done |].
      split; [rewrite length_app, length_insert; simpl; lia |].
      intros p Hlt. rewrite length_insert in Hlt || idtac.
      destruct (decide (p = next st)) as [-> | Hne].
      - rewrite lookup_app_l by (rewrite length_insert; lia).
        apply list_lookup_insert_eq. lia.
      - rewrite lookup_app_l by (rewrite length_insert; lia).
        rewrite list_lookup_insert_ne by done. apply Hold. lia. }
    split.
    { split; [| done]. rewrite resolved_spec.
      destruct Hheap as [(_ & -> & ->) | (_ & -> & ->)]; [done |].
      rewrite lookup_app_r by (rewrite length_insert; lia).
      rewrite length_insert, Nat.sub_diag. done. }
    split; [intros _; rewrite He; by apply Herr |].
    destruct k as [| p | |]; try done.
    + destruct Hk as [Hle Hnon].
      destruct Hheap as [(_ & -> & _) | (Hne & -> & _)].
      * split; [done |]. intros Hlt. rewrite Hb.
        specialize (Hnon Hlt). by destruct (buffer st).
      * split; [lia |]. intros _. rewrite Hb.
        destruct (non_empty (byte_arrays res [chunk])); [done |].
        intros Heq. apply (f_equal length) in Heq.
        rewrite !length_app in Heq. simpl in Heq. lia.
    + by destruct Hk as [[=] _].
    + by destruct Hk as [[=] _].
Qed.

Lemma step_pull_inv (c c' : Config) :
  config_inv c -> step Pull c = Some c' -> config_inv c'.
Proof.
  destruct c as [res page st r k pl]. unfold config_inv, step. config_simpl.
  intros (Hinv & Hacc & Hbuf & Hheap & Hnext & Herr & Hk) Hstep.
  destruct k; try discriminate. injection Hstep as <-. config_simpl.
  repeat (split; [done |]). lia.
Qed.

Lemma step_resume_inv (c c' : Config) :
  config_inv c -> step Resume c = Some c' -> config_inv c'.
Proof.
  destruct c as [res page st r k pl]. unfold config_inv, step. config_simpl.
  intros (Hinv & Hacc & Hbuf & Hheap & Hnext & Herr & Hk) Hstep.
  destruct k as [| p | |]; try discriminate.
  destruct (resolved st p) eqn:Hp; [| discriminate].
  rewrite next_body_spec in Hstep. destruct (error st) as [e|] eqn:He.
  - injection Hstep as <-. config_simpl.
    repeat (split; [done |]).
    assert (r = None) as ->.
    { destruct r; [| done]. by discriminate Herr. }
    by rewrite He.
  - injection Hstep as <-. config_simpl.
    split; [exact Hinv |]. split.
    { rewrite concat_app. simpl. by rewrite !app_nil_r. }
    do 4 (split; [done |]).
    case_bool_decide as Hzero; [| done].
    apply total_length_zero in Hzero; [| done].
    destruct Hk as [Hle Hnon]. split; [| done].
    apply Hnext. destruct (decide (p = next st)) as [<- | Hne]; [done |].
    destruct Hnon; [lia | done].
Qed.

Lemma step_inv (m : Move) (c c' : Config) :
  config_inv c -> step m c = Some c' -> config_inv c'.
Proof.
  destruct m;
    [apply step_render_turn_inv | apply step_pull_inv | apply step_resume_inv].
Qed.

Lemma run_inv (schedule : list Move) (c c' : Config) :
  config_inv c -> run schedule c = Some c' -> config_inv c'.
Proof.
  revert c. induction schedule as [|m schedule IH]; intros c Hc; simpl.
  - by intros [= <-].
  - destruct (step m c) as [c1|] eqn:Hstep; [| done].
    apply IH. by eapply step_inv.
Qed.

Lemma run_environment (schedule : list Move) (c c' : Config) :
  run schedule c = Some c' -> result c' = result c /\ isPage c' = isPage c.
Proof.
  revert c. induction schedule as [|m schedule IH]; intros c; simpl.
  - by intros [= <-].
  - destruct (step m c) as [c1|] eqn:Hstep; [| done].
    intros [-> ->]%IH. by apply step_environment in Hstep.
Qed.

Lemma run_app (s1 s2 : list Move) (c : Config) :
  run (s1 ++ s2) c = run s1 c ≫= run s2.
Proof.
  revert c. induction s1 as [|m s1 IH]; intros c; simpl; [done |].
  by destruct (step m c).
Qed.

(** The effects of the head pass are not on an output channel. *)
Lemma quiet_written (l : list Effect) :
  Forall (fun e => is_output e = false) l -> written l = [] /\ pushes l = [].
Proof.
  induction 1 as [|e l He Hl [IHw IHp]]; [done |].
  destruct e; try discriminate; by simpl.
Qed.

Lemma initial_inv (context : SSRResult) (page : bool) (l : list Effect)
    (r : Render) :
  Forall (fun e => is_output e = false) l ->
  config_inv (initial context page l r).
Proof.
  intros [Hw Hp]%quiet_written. unfold config_inv, initial, heap_inv, iterable_inv.
  cbn [result isPage state rendering consumer pulled error next promises
       buffer renderedFirstPageChunk log promiseWithResolvers fst snd length app].
  unfold first_chunk_seen, doctype_bytes. rewrite Hw, Hp.
  split; [by rewrite andb_false_r |]. split; [done |]. split; [done |].
  split; [split; [done | lia] |]. split; [done |]. done.
Qed.

(** The buffer is what was pushed and not pulled yet. *)
Lemma step_buffer_inv (m : Move) (c c' : Config) :
  step m c = Some c' -> buffer_inv c -> buffer_inv c'.
Proof.
  unfold step, buffer_inv. intros Hstep (taken & Hpushes & Htaken).
  destruct m, c as [res page st r k pl]; config_simpl.
  - destruct r as [[| e | chunk kont]|]; try discriminate.
    + injection Hstep as <-. config_simpl. by exists taken.
    + injection Hstep as <-. config_simpl. by exists taken.
    + pose proof (iterable_write_pushes res page st chunk) as Hp.
      pose proof (iterable_write_buffer res page st chunk) as Hb.
      destruct (write res page st chunk) as [st1 thrown]. cbn [fst] in Hp, Hb.
      injection Hstep as <-. config_simpl. exists taken.
      rewrite Hp, Hb, Hpushes. by rewrite <- (assoc_L (++)).
  - destruct k; try discriminate. injection Hstep as <-. by exists taken.
  - destruct k; try discriminate. destruct (resolved st p); [| discriminate].
    rewrite next_body_spec in Hstep.
    destruct (error st); injection Hstep as <-; config_simpl.
    + by exists taken.
    + exists (taken ++ buffer st). rewrite app_nil_r. split; [done |].
      rewrite !concat_app, Htaken. simpl. by rewrite app_nil_r.
Qed.

Lemma run_buffer_inv (schedule : list Move) (c c' : Config) :
  run schedule c = Some c' -> buffer_inv c -> buffer_inv c'.
Proof.
  revert c. induction schedule as [|m schedule IH]; intros c; simpl.
  - by intros [= <-].
  - destruct (step m c) as [c1|] eqn:Hstep; [| done].
    intros Hrun Hc. apply (IH c1 Hrun). by eapply step_buffer_inv.
Qed.

Lemma initial_buffer_inv (context : SSRResult) (page : bool) (l : list Effect)
    (r : Render) :
  Forall (fun e => is_output e = false) l ->
  buffer_inv (initial context page l r).
Proof. intros [_ Hp]%quiet_written. by exists []. Qed.

(** The doctype, when there is one, is not an empty array. *)
Lemma doctype_bytes_non_empty (result : SSRResult) (isPage : bool)
    (chunks : list Chunk) :
  Forall (fun b : Uint8Array => 0 < length b)
         (doctype_bytes result isPage chunks).
Proof.
  unfold doctype_bytes, expected_doctype. destruct chunks as [|first rest];
    [by constructor |].
  destruct (isPage && negb (partial result)
            && negb (DOCTYPE_EXP_test (Chunk_toString first)));
    [| by constructor].
  destruct (compressHTML result); repeat constructor; simpl; lia.
Qed.

End Iterable.

(** ** The entry dispatcher and the three adapters *)

Section Adapters.
Context `{C : Collaborators}.

(** C2.  When the component factory resolves to a [Response], each of the
    three adapters resolves to that very response, the render context is the
    one the factory left, and no side effect has happened: no [init] of a
    propagator, no push on [extraHead], no call of [write], no append to the
    accumulator, no enqueue, no push on the buffer. *)
Theorem top_level_response_is_returned (fuel : nat) (result result' : SSRResult)
    (componentFactory : AstroComponentFactory) (props : Props)
    (children : Children) (isPage : bool) (route : option RouteData)
    (r : Response) :
  componentFactory result props children = (result', Returned (FactoryResponse r)) ->
  ToString.renderToString result componentFactory props children isPage route
  = ({| ctx := result'; effects := [] |}, Returned (IsResponse r))
  /\ ToReadableStream.renderToReadableStream
       fuel result componentFactory props children isPage route
     = ({| ctx := result'; effects := [] |}, Returned (IsResponse r))
  /\ ToAsyncIterable.renderToAsyncIterable
       fuel result componentFactory props children isPage route
     = ({| ctx := result'; effects := [] |}, Returned (IsResponse r)).
Proof.
  intros Hfactory.
  unfold ToString.renderToString, ToReadableStream.renderToReadableStream,
    ToAsyncIterable.renderToAsyncIterable,
    callComponentAsTemplateResultOrResponse.
  by rewrite Hfactory.
Qed.

(** What the dispatcher does with a value that is not a [Response].  When
    it is no render-template result, the dispatcher throws the
    [OnlyResponseCanBeReturned] error, made from the route pattern and the type
    of the value and located at the component of the route; each adapter
    throws it before any side effect.  A render-template result is returned:
    its [content] when it is also a head-and-content pair, itself otherwise. *)
Theorem dispatcher_classifies (result result' : SSRResult)
    (componentFactory : AstroComponentFactory) (props : Props)
    (children : Children) (route : option RouteData) (o : Component) :
  componentFactory result props children
  = (result', Returned (FactoryComponent o)) ->
  (isRenderTemplateResult o = false ->
   let e :=
     ErrAstro {| data := OnlyResponseCanBeReturned
                           (optional_route route) (typeof o);
                 loc := Some {| file := optional_component route |} |} in
   callComponentAsTemplateResultOrResponse
     result componentFactory props children route
   = (result', Threw e)
   /\ forall fuel isPage,
       ToString.renderToString result componentFactory props children isPage route
       = ({| ctx := result'; effects := [] |}, Threw e)
       /\ ToReadableStream.renderToReadableStream
            fuel result componentFactory props children isPage route
          = ({| ctx := result'; effects := [] |}, Threw e)
       /\ ToAsyncIterable.renderToAsyncIterable
            fuel result componentFactory props children isPage route
          = ({| ctx := result'; effects := [] |}, Threw e))
  /\ (isRenderTemplateResult o = true ->
      callComponentAsTemplateResultOrResponse
        result componentFactory props children route
      = (result',
         Returned (if isHeadAndContent o then content o else FactoryComponent o))).
Proof.
  intros Hfactory.
  assert (forall b, isRenderTemplateResult o = b ->
          callComponentAsTemplateResultOrResponse
            result componentFactory props children route
          = if b
            then (result',
                  Returned (if isHeadAndContent o
                            then content o else FactoryComponent o))
            else (result',
                  Threw (ErrAstro
                           {| data := OnlyResponseCanBeReturned
                                        (optional_route route) (typeof o);
                              loc := Some {| file := optional_component route |} |})))
    as Hcall.
  { intros b Hb. unfold callComponentAsTemplateResultOrResponse.
    rewrite Hfactory, Hb. by destruct b. }
  split; intros Hbrand; [| by apply (Hcall true)].
  split; [by apply (Hcall false) |]. intros fuel isPage.
  unfold ToString.renderToString, ToReadableStream.renderToReadableStream,
    ToAsyncIterable.renderToAsyncIterable.
  by rewrite (Hcall false Hbrand).
Qed.

(** C8, where the code misses what it attempts.  The dispatcher ends with
    the unwrapping of a head-and-content pair
    ([isHeadAndContent(factoryResult) ? factoryResult.content : factoryResult]),
    but a pair that does not carry the brand of a render-template result as
    well never gets there: the guard before it takes the pair for a stray
    value and throws [OnlyResponseCanBeReturned], and so does each adapter,
    before any side effect. *)
Theorem head_and_content_pair_is_refused (result result' : SSRResult)
    (componentFactory : AstroComponentFactory) (props : Props)
    (children : Children) (route : option RouteData) (o : Component) :
  componentFactory result props children
  = (result', Returned (FactoryComponent o)) ->
  isHeadAndContent o = true ->
  isRenderTemplateResult o = false ->
  let e :=
    ErrAstro {| data := OnlyResponseCanBeReturned
                          (optional_route route) (typeof o);
                loc := Some {| file := optional_component route |} |} in
  callComponentAsTemplateResultOrResponse
    result componentFactory props children route
  = (result', Threw e)
  /\ callComponentAsTemplateResultOrResponse
       result componentFactory props children route
     <> (result', Returned (content o))
  /\ forall fuel isPage,
      ToString.renderToString result componentFactory props children isPage route
      = ({| ctx := result'; effects := [] |}, Threw e)
      /\ ToReadableStream.renderToReadableStream
           fuel result componentFactory props children isPage route
         = ({| ctx := result'; effects := [] |}, Threw e)
      /\ ToAsyncIterable.renderToAsyncIterable
           fuel result componentFactory props children isPage route
         = ({| ctx := result'; effects := [] |}, Threw e).
Proof.
  intros Hfactory Hpair Hbrand e.
  assert (callComponentAsTemplateResultOrResponse
            result componentFactory props children route
          = (result', Threw e)) as Hcall.
  { unfold callComponentAsTemplateResultOrResponse.
    by rewrite Hfactory, Hbrand. }
  split; [done |]. split; [by rewrite Hcall |]. intros fuel isPage.
  unfold ToString.renderToString, ToReadableStream.renderToReadableStream,
    ToAsyncIterable.renderToAsyncIterable.
  by rewrite Hcall.
Qed.

(** The accumulator of the String Adapter after a render. *)
Lemma string_drive_inv (result : SSRResult) (isPage : bool) (r : Render) :
  string_inv result isPage
    (drive (ToString.write result isPage) r
       {| ToString.str := EmptyString;
          ToString.renderedFirstPageChunk := false;
          ToString.log := [] |}).1.
Proof.
  apply drive_invariant; [apply string_write_inv |].
  split; [by destruct isPage | done].
Qed.

(** The queue of the Stream Adapter after a render that starts when the head
    pass is over. *)
Lemma stream_drive_inv (result : SSRResult) (isPage : bool) (r : Render)
    (l : list Effect) :
  Forall (fun e => is_output e = false) l ->
  stream_inv result isPage
    (drive (ToReadableStream.write result isPage) r
       {| ToReadableStream.enqueued := [];
          ToReadableStream.closed := false;
          ToReadableStream.errored := None;
          ToReadableStream.timers := [];
          ToReadableStream.renderedFirstPageChunk := false;
          ToReadableStream.log := l |}).1.
Proof.
  intros [Hw _]%quiet_written.
  apply drive_invariant; [apply stream_write_inv |].
  unfold stream_inv, first_chunk_seen, doctype_bytes. simpl. rewrite Hw.
  split; [by destruct isPage | done].
Qed.

(** The end of the detached task adds no chunk to the queue. *)
Lemma start_enqueued (result : SSRResult) (isPage : bool)
    (route : option RouteData) (templateResult : Component)
    (st0 : ToReadableStream.State) :
  ToReadableStream.enqueued
    (ToReadableStream.start result isPage route templateResult st0)
  = ToReadableStream.enqueued
      (drive (ToReadableStream.write result isPage) (render templateResult) st0).1.
Proof.
  unfold ToReadableStream.start. by destruct (drive _ _ _) as [st [[] | e |]].
Qed.

Lemma start_written (result : SSRResult) (isPage : bool)
    (route : option RouteData) (templateResult : Component)
    (st0 : ToReadableStream.State) :
  written (ToReadableStream.log
             (ToReadableStream.start result isPage route templateResult st0))
  = written
      (ToReadableStream.log
         (drive (ToReadableStream.write result isPage) (render templateResult)
                st0).1).
Proof.
  unfold ToReadableStream.start.
  destruct (drive _ _ _) as [st [[] | e |]]; try done.
  cbn [fst ToReadableStream.controller_close ToReadableStream.log].
  rewrite written_app. simpl. by rewrite app_nil_r.
Qed.

(** The head pass of an adapter: what it leaves, and that it is quiet. *)
Lemma head_pass_quiet (fuel : nat) (isPage : bool) (result : SSRResult) :
  Forall (fun e => is_output e = false)
    (effects
       (if isPage
        then bufferHeadContent fuel {| ctx := result; effects := [] |}
        else ({| ctx := result; effects := [] |}, Returned tt)).1).
Proof.
  destruct isPage; [| by constructor].
  destruct (bufferHeadContent_loop_quiet fuel 0 {| ctx := result; effects := [] |})
    as (new & Hnew & Hquiet & _).
  unfold bufferHeadContent. by rewrite Hnew.
Qed.

(** What the stream adapter returns, when it returns a stream. *)
Lemma renderToReadableStream_output (fuel : nat) (result : SSRResult)
    (componentFactory : AstroComponentFactory) (props : Props)
    (children : Children) (isPage : bool) (route : option RouteData)
    (w : World) (st : ToReadableStream.State) :
  ToReadableStream.renderToReadableStream
    fuel result componentFactory props children isPage route
  = (w, Returned (IsOutput st)) ->
  exists result' templateResult w0,
    callComponentAsTemplateResultOrResponse
      result componentFactory props children route
    = (result', Returned (FactoryComponent templateResult))
    /\ (if isPage
        then bufferHeadContent fuel {| ctx := result'; effects := [] |}
        else ({| ctx := result'; effects := [] |}, Returned tt))
       = (w0, Returned tt)
    /\ st = ToReadableStream.start (ctx w0) isPage route templateResult
              {| ToReadableStream.enqueued := [];
                 ToReadableStream.closed := false;
                 ToReadableStream.errored := None;
                 ToReadableStream.timers := [];
                 ToReadableStream.renderedFirstPageChunk := false;
                 ToReadableStream.log := effects w0 |}
    /\ w = {| ctx := ctx w0; effects := ToReadableStream.log st |}.
Proof.
  unfold ToReadableStream.renderToReadableStream.
  destruct (callComponentAsTemplateResultOrResponse _ _ _ _ _)
    as [result' [[r | templateResult] | e |]]; try discriminate.
  destruct (if isPage then _ else _) as [w0 [[] | e |]] eqn:Hhead;
    try discriminate.
  intros [= <- <-]. by exists result', templateResult, w0.
Qed.

(** What the iterable adapter returns, when it returns an iterable. *)
Lemma renderToAsyncIterable_output (fuel : nat) (result : SSRResult)
    (componentFactory : AstroComponentFactory) (props : Props)
    (children : Children) (isPage : bool) (route : option RouteData)
    (w : World) (c0 : ToAsyncIterable.Config) :
  ToAsyncIterable.renderToAsyncIterable
    fuel result componentFactory props children isPage route
  = (w, Returned (IsOutput c0)) ->
  exists result' templateResult,
    callComponentAsTemplateResultOrResponse
      result componentFactory props children route
    = (result', Returned (FactoryComponent templateResult))
    /\ (if isPage
        then bufferHeadContent fuel {| ctx := result'; effects := [] |}
        else ({| ctx := result'; effects := [] |}, Returned tt))
       = (w, Returned tt)
    /\ c0 = ToAsyncIterable.initial (ctx w) isPage (effects w)
              (render templateResult).
Proof.
  unfold ToAsyncIterable.renderToAsyncIterable.
  destruct (callComponentAsTemplateResultOrResponse _ _ _ _ _)
    as [result' [[r | templateResult] | e |]]; try discriminate.
  destruct (if isPage then _ else _) as [w0 [[] | e |]] eqn:Hhead;
    try discriminate.
  intros [= <- <-]. by exists result', templateResult.
Qed.

(** What the string adapter returns, when it returns a string. *)
Lemma renderToString_output (result : SSRResult)
    (componentFactory : AstroComponentFactory) (props : Props)
    (children : Children) (isPage : bool) (route : option RouteData)
    (w : World) (s : string) :
  ToString.renderToString result componentFactory props children isPage route
  = (w, Returned (IsOutput s)) ->
  exists result' templateResult st,
    callComponentAsTemplateResultOrResponse
      result componentFactory props children route
    = (result', Returned (FactoryComponent templateResult))
    /\ drive (ToString.write result' isPage) (render templateResult)
         {| ToString.str := EmptyString;
            ToString.renderedFirstPageChunk := false;
            ToString.log := [] |}
       = (st, Returned tt)
    /\ w = {| ctx := result'; effects := ToString.log st |}
    /\ s = ToString.str st.
Proof.
  unfold ToString.renderToString.
  destruct (callComponentAsTemplateResultOrResponse _ _ _ _ _)
    as [result' [[r | templateResult] | e |]]; try discriminate.
  destruct (drive _ _ _) as [st [[] | e |]] eqn:Hdrive; try discriminate.
  intros [= <- <-]. by exists result', templateResult, st.
Qed.

(** Every reachable configuration of the iterable is a good one. *)
Lemma reachable_inv (fuel : nat) (result : SSRResult)
    (componentFactory : AstroComponentFactory) (props : Props)
    (children : Children) (isPage : bool) (route : option RouteData)
    (w : World) (c0 c : ToAsyncIterable.Config) (schedule : list ToAsyncIterable.Move) :
  ToAsyncIterable.renderToAsyncIterable
    fuel result componentFactory props children isPage route
  = (w, Returned (IsOutput c0)) ->
  ToAsyncIterable.run schedule c0 = Some c ->
  config_inv c
  /\ ToAsyncIterable.result c = ctx w /\ ToAsyncIterable.isPage c = isPage.
Proof.
  intros (result' & templateResult & Hcall & Hhead & ->)%renderToAsyncIterable_output
    Hrun.
  split; [| by apply run_environment in Hrun].
  eapply run_inv; [| exact Hrun]. apply initial_inv.
  pose proof (head_pass_quiet fuel isPage result') as Hquiet.
  by rewrite Hhead in Hquiet.
Qed.

(** When a doctype is expected, in the words of the marker. *)
Lemma expected_doctype_spec (result : SSRResult) (isPage : bool)
    (first : Chunk) (rest : list Chunk) :
  (isPage = true -> partial result = false ->
   ~ contains_marker (Chunk_toString first) ->
   expected_doctype result isPage (first :: rest)
   = Some (if compressHTML result
           then "<!DOCTYPE html>"
           else "<!DOCTYPE html>" +:+ String (ascii_of_nat 10) EmptyString))
  /\ (isPage = false \/ partial result = true
      \/ contains_marker (Chunk_toString first) ->
      expected_doctype result isPage (first :: rest) = None).
Proof.
  unfold expected_doctype. split.
  - intros -> -> Hmarker. rewrite <- DOCTYPE_EXP_test_spec in Hmarker.
    apply not_true_is_false in Hmarker. by rewrite Hmarker.
  - intros [-> | [-> | Hmarker]]; [done | by rewrite andb_false_r |].
    apply DOCTYPE_EXP_test_spec in Hmarker. rewrite Hmarker.
    by rewrite andb_false_r.
Qed.

(** The output of each adapter, in terms of the chunks written. *)
Lemma string_output (result : SSRResult)
    (componentFactory : AstroComponentFactory) (props : Props)
    (children : Children) (isPage : bool) (route : option RouteData)
    (w : World) (s : string) :
  ToString.renderToString result componentFactory props children isPage route
  = (w, Returned (IsOutput s)) ->
  s = default EmptyString (expected_doctype (ctx w) isPage (written (effects w)))
      +:+ join (texts (ctx w) (written (effects w))).
Proof.
  intros (result' & templateResult & st & _ & Hdrive & -> & ->)%renderToString_output.
  pose proof (string_drive_inv result' isPage (render templateResult)) as [_ Hstr].
  by rewrite Hdrive in Hstr.
Qed.

Lemma stream_output (fuel : nat) (result : SSRResult)
    (componentFactory : AstroComponentFactory) (props : Props)
    (children : Children) (isPage : bool) (route : option RouteData)
    (w : World) (st : ToReadableStream.State) :
  ToReadableStream.renderToReadableStream
    fuel result componentFactory props children isPage route
  = (w, Returned (IsOutput st)) ->
  ToReadableStream.enqueued st
  = doctype_bytes (ctx w) isPage (written (effects w))
    ++ byte_arrays (ctx w) (written (effects w)).
Proof.
  intros (result' & templateResult & w0 & _ & Hhead & -> & ->)%renderToReadableStream_output.
  pose proof (head_pass_quiet fuel isPage result') as Hquiet.
  rewrite Hhead in Hquiet.
  pose proof (stream_drive_inv (ctx w0) isPage (render templateResult)
                (effects w0) Hquiet) as [_ Hinv].
  cbn [ctx effects]. by rewrite start_enqueued, start_written.
Qed.

Lemma iterable_output (fuel : nat) (result : SSRResult)
    (componentFactory : AstroComponentFactory) (props : Props)
    (children : Children) (isPage : bool) (route : option RouteData)
    (w : World) (c0 c : ToAsyncIterable.Config)
    (schedule : list ToAsyncIterable.Move) :
  ToAsyncIterable.renderToAsyncIterable
    fuel result componentFactory props children isPage route
  = (w, Returned (IsOutput c0)) ->
  ToAsyncIterable.run schedule c0 = Some c ->
  pushes (ToAsyncIterable.log (ToAsyncIterable.state c))
  = doctype_bytes (ctx w) isPage
      (written (ToAsyncIterable.log (ToAsyncIterable.state c)))
    ++ non_empty
         (byte_arrays (ctx w)
            (written (ToAsyncIterable.log (ToAsyncIterable.state c)))).
Proof.
  intros Hadapter Hrun.
  destruct (reachable_inv _ _ _ _ _ _ _ _ _ _ _ Hadapter Hrun)
    as (([_ Hpushes] & _) & <- & <-).
  exact Hpushes.
Qed.

(** C1, as the code has it.  Whatever the render writes, the output of each
    adapter is the expected doctype followed by the converted chunks, in the
    order written: the text returned by the String Adapter, the arrays
    enqueued by the Stream Adapter, the arrays pushed on the buffer of the
    Async-Iterable Adapter (which leaves the empty ones out).  Of the latter,
    the buffer holds those not pulled yet, after those the pulls have taken: as
    long as nothing was pulled the buffer is the whole list.  The expected
    doctype is decided on the first chunk written: ["<!DOCTYPE html>"],
    followed by a line feed unless [compressHTML] is set, for a page that is
    not partial and whose first chunk does not hold the marker in its string
    form [String(chunk)] (no part of it is ["<!doctype html"] up to the case of
    the letters), and nothing otherwise; so it comes once, right before the
    first chunk, and no later chunk adds one.  (The string form is not the
    converted text: see [byte_chunk_with_a_doctype_gets_another].) *)
Theorem doctype_is_inserted_once (fuel : nat) (result : SSRResult)
    (componentFactory : AstroComponentFactory) (props : Props)
    (children : Children) (isPage : bool) (route : option RouteData) :
  (forall w s,
      ToString.renderToString result componentFactory props children isPage route
      = (w, Returned (IsOutput s)) ->
      s = default EmptyString (expected_doctype (ctx w) isPage (written (effects w)))
          +:+ join (texts (ctx w) (written (effects w))))
  /\ (forall w st,
        ToReadableStream.renderToReadableStream
          fuel result componentFactory props children isPage route
        = (w, Returned (IsOutput st)) ->
        ToReadableStream.enqueued st
        = option_list
            (encoder_encode
               <$> expected_doctype (ctx w) isPage (written (effects w)))
          ++ byte_arrays (ctx w) (written (effects w)))
  /\ (forall w c0 schedule c,
        ToAsyncIterable.renderToAsyncIterable
          fuel result componentFactory props children isPage route
        = (w, Returned (IsOutput c0)) ->
        ToAsyncIterable.run schedule c0 = Some c ->
        let expected :=
          option_list
            (encoder_encode
               <$> expected_doctype (ctx w) isPage
                     (written (ToAsyncIterable.log (ToAsyncIterable.state c))))
          ++ non_empty
               (byte_arrays (ctx w)
                  (written (ToAsyncIterable.log (ToAsyncIterable.state c)))) in
        pushes (ToAsyncIterable.log (ToAsyncIterable.state c)) = expected
        /\ (exists taken,
              expected = taken ++ ToAsyncIterable.buffer (ToAsyncIterable.state c)
              /\ concat taken = concat (ToAsyncIterable.pulled c))
        /\ (ToAsyncIterable.pulled c = [] ->
            ToAsyncIterable.buffer (ToAsyncIterable.state c) = expected))
  /\ (forall context first rest,
        (isPage = true -> partial context = false ->
         ~ contains_marker (Chunk_toString first) ->
         expected_doctype context isPage (first :: rest)
         = Some (if compressHTML context
                 then "<!DOCTYPE html>"
                 else "<!DOCTYPE html>" +:+ String (ascii_of_nat 10) EmptyString))
        /\ (isPage = false \/ partial context = true
            \/ contains_marker (Chunk_toString first) ->
            expected_doctype context isPage (first :: rest) = None)).
Proof.
  split; [| split; [| split]].
  - intros w s. apply string_output.
  - intros w st. apply stream_output.
  - intros w c0 schedule c Hadapter Hrun expected.
    pose proof (iterable_output _ _ _ _ _ _ _ _ _ _ _ Hadapter Hrun) as Hpushes.
    fold (doctype_bytes (ctx w) isPage
            (written (ToAsyncIterable.log (ToAsyncIterable.state c))))
      in expected.
    assert (buffer_inv c) as (taken & Htaken & Hconcat).
    { apply renderToAsyncIterable_output in Hadapter
        as (result' & templateResult & _ & Hhead & ->).
      eapply run_buffer_inv; [exact Hrun |]. apply initial_buffer_inv.
      pose proof (head_pass_quiet fuel isPage result') as Hquiet.
      by rewrite Hhead in Hquiet. }
    rewrite Hpushes in Htaken. fold expected in Htaken.
    split; [done |]. split; [by exists taken |].
    intros Hpulled. rewrite Hpulled in Hconcat. simpl in Hconcat.
    assert (Forall (fun b : Uint8Array => 0 < length b) taken) as Hnonempty.
    { assert (Forall (fun b : Uint8Array => 0 < length b) expected) as Hall.
      { apply Forall_app. split;
          [apply doctype_bytes_non_empty | apply non_empty_Forall]. }
      rewrite Htaken in Hall. by apply Forall_app in Hall as [? _]. }
    assert (taken = []) as ->.
    { apply total_length_zero; [done |].
      by rewrite <- total_length_concat, Hconcat. }
    by rewrite Htaken.
  - intros context first rest. apply expected_doctype_spec.
Qed.

End Adapters.

Section AdaptersExamples.
Import Demo.

(** The example for C2: a page whose factory answers with response number 7. *)
Lemma top_level_response_is_returned_witness :
  ToString.renderToString
    (context false false [0]) (factory (FactoryResponse (response 7))) tt tt
    true (Some index)
  = ({| ctx := context false false [0]; effects := [] |},
     Returned (IsResponse (response 7)))
  /\ ToReadableStream.renderToReadableStream
       5 (context false false [0]) (factory (FactoryResponse (response 7))) tt tt
       true (Some index)
     = ({| ctx := context false false [0]; effects := [] |},
        Returned (IsResponse (response 7)))
  /\ ToAsyncIterable.renderToAsyncIterable
       5 (context false false [0]) (factory (FactoryResponse (response 7))) tt tt
       true (Some index)
     = ({| ctx := context false false [0]; effects := [] |},
        Returned (IsResponse (response 7))).
Proof.
  exact (top_level_response_is_returned
           5 (context false false [0]) (context false false [0])
           (factory (FactoryResponse (response 7))) tt tt true (Some index)
           (response 7) eq_refl).
Defined.

(** A stray value is refused, at the component of the route; a
    head-and-content pair that is a template result is unwrapped. *)
Lemma dispatcher_classifies_witness :
  callComponentAsTemplateResultOrResponse
    (context false false []) (factory (FactoryComponent stray)) tt tt (Some index)
  = (context false false [],
     Threw (ErrAstro
              {| data := OnlyResponseCanBeReturned (Some "/") "object";
                 loc := Some {| file := Some "src/pages/index.astro" |} |}))
  /\ callComponentAsTemplateResultOrResponse
       (context false false []) (factory (FactoryComponent hoisting)) tt tt
       (Some index)
     = (context false false [],
        Returned (FactoryComponent (page [inr "<p>"] None))).
Proof.
  split.
  - exact (proj1 (proj1 (dispatcher_classifies
                           (context false false []) (context false false [])
                           (factory (FactoryComponent stray)) tt tt (Some index)
                           stray eq_refl) eq_refl)).
  - exact (proj2 (dispatcher_classifies
                    (context false false []) (context false false [])
                    (factory (FactoryComponent hoisting)) tt tt (Some index)
                    hoisting eq_refl) eq_refl).
Defined.

(** The example for C8: the factory resolves to a head-and-content pair
    that is no render-template result, as the one [init] of propagator [0]
    gives; the dispatcher refuses it. *)
Lemma head_and_content_pair_is_refused_witness :
  isHeadAndContent bare_pair = true
  /\ isRenderTemplateResult bare_pair = false
  /\ callComponentAsTemplateResultOrResponse
       (context false false []) (factory (FactoryComponent bare_pair)) tt tt
       (Some index)
     = (context false false [],
        Threw (ErrAstro
                 {| data := OnlyResponseCanBeReturned (Some "/") "object";
                    loc := Some {| file := Some "src/pages/index.astro" |} |})).
Proof.
  split; [reflexivity |]. split; [reflexivity |].
  exact (proj1 (head_and_content_pair_is_refused
                  (context false false []) (context false false [])
                  (factory (FactoryComponent bare_pair)) tt tt (Some index)
                  bare_pair eq_refl eq_refl eq_refl)).
Defined.

(** The example for C1: the page [hello], not partial and not compressed,
    through each adapter; the iterable is looked at after three turns of the
    render task. *)
Lemma doctype_is_inserted_once_witness :
  (exists w s,
      ToString.renderToString
        (context false false []) (factory (FactoryComponent hello)) tt tt true
        (Some index)
      = (w, Returned (IsOutput s))
      /\ s = doctype_newline +:+ "<html><body>Hi</body></html>")
  /\ (exists w st,
        ToReadableStream.renderToReadableStream
          5 (context false false []) (factory (FactoryComponent hello)) tt tt true
          (Some index)
        = (w, Returned (IsOutput st))
        /\ ToReadableStream.enqueued st
           = [encoder_encode doctype_newline; encoder_encode "<html>";
              encoder_encode "<body>Hi</body></html>"])
  /\ (ToAsyncIterable.renderToAsyncIterable
        5 (context false false []) (factory (FactoryComponent hello)) tt tt true
        (Some index)
      = ({| ctx := context false false []; effects := [] |},
         Returned (IsOutput hello_iterable))
      /\ ToAsyncIterable.run
           [ToAsyncIterable.RenderTurn; ToAsyncIterable.RenderTurn;
            ToAsyncIterable.RenderTurn] hello_iterable
         = Some hello_rendered
      /\ pushes (ToAsyncIterable.log (ToAsyncIterable.state hello_rendered))
         = [encoder_encode doctype_newline; encoder_encode "<html>";
            encoder_encode "<body>Hi</body></html>"]
      /\ ToAsyncIterable.pulled hello_rendered = []
      /\ ToAsyncIterable.buffer (ToAsyncIterable.state hello_rendered)
         = [encoder_encode doctype_newline; encoder_encode "<html>";
            encoder_encode "<body>Hi</body></html>"]
      /\ ToAsyncIterable.run hello_schedule hello_iterable = Some hello_pulled
      /\ ToAsyncIterable.buffer (ToAsyncIterable.state hello_pulled) = []
      /\ concat (ToAsyncIterable.pulled hello_pulled)
         = encoder_encode
             (doctype_newline +:+ "<html><body>Hi</body></html>")).
Proof.
  pose proof (doctype_is_inserted_once
                5 (context false false []) (factory (FactoryComponent hello))
                tt tt true (Some index)) as (Hstring & Hstream & Hiterable & _).
  split; [| split].
  - eexists _, _. split; [vm_compute; reflexivity |].
    etrans; [exact (Hstring _ _ eq_refl) | vm_compute; reflexivity].
  - eexists _, _. split; [vm_compute; reflexivity |].
    etrans; [exact (Hstream _ _ eq_refl) | vm_compute; reflexivity].
  - assert (ToAsyncIterable.renderToAsyncIterable
              5 (context false false []) (factory (FactoryComponent hello))
              tt tt true (Some index)
            = ({| ctx := context false false []; effects := [] |},
               Returned (IsOutput hello_iterable))) as Hadapter
      by (vm_compute; reflexivity).
    assert (ToAsyncIterable.run
              [ToAsyncIterable.RenderTurn; ToAsyncIterable.RenderTurn;
               ToAsyncIterable.RenderTurn] hello_iterable
            = Some hello_rendered) as Hrun
      by (vm_compute; reflexivity).
    assert (ToAsyncIterable.pulled hello_rendered = []) as Hnone
      by (vm_compute; reflexivity).
    assert (ToAsyncIterable.run hello_schedule hello_iterable = Some hello_pulled)
      as Hrun2 by (vm_compute; reflexivity).
    assert (ToAsyncIterable.buffer (ToAsyncIterable.state hello_pulled) = [])
      as Hempty by (vm_compute; reflexivity).
    do 2 (split; [assumption |]).
    split;
      [etrans; [exact (proj1 (Hiterable _ _ _ _ Hadapter Hrun))
               | vm_compute; reflexivity] |].
    split; [assumption |].
    split;
      [etrans; [exact (proj2 (proj2 (Hiterable _ _ _ _ Hadapter Hrun)) Hnone)
               | vm_compute; reflexivity] |].
    do 2 (split; [assumption |]).
    destruct (proj1 (proj2 (Hiterable _ _ _ _ Hadapter Hrun2)))
      as (taken & Htaken & Hconcat).
    rewrite Hempty, app_nil_r in Htaken.
    rewrite <- Hconcat, <- Htaken. vm_compute. reflexivity.
Defined.

End AdaptersExamples.

Section BinaryExamples.
Import Binary.

(** The counterexample for C1: in the universe of byte arrays, the first
    chunk of a page is the bytes of a document that starts with its doctype.
    Its text holds the marker, but the test is made on [String(chunk)], the
    list of its numbers, which does not: the String Adapter returns a document
    with two doctypes. *)
Lemma byte_chunk_with_a_doctype_gets_another :
  contains_marker (chunkToString Binary.context Binary.document)
  /\ DOCTYPE_EXP_test (Chunk_toString (ChunkContent Binary.document)) = false
  /\ ToString.renderToString Binary.context Binary.factory tt tt true None
     = ({| ctx := Binary.context;
           effects :=
             [DestinationWrite (ChunkContent Binary.document);
              StrAppend doctype_newline;
              StrAppend "<!DOCTYPE html><html>"] |},
        Returned (IsOutput (doctype_newline +:+ "<!DOCTYPE html><html>"))).
Proof.
  split; [| split].
  - apply DOCTYPE_EXP_test_spec. vm_compute. reflexivity.
  - vm_compute. reflexivity.
  - vm_compute. reflexivity.
Qed.

End BinaryExamples.

(** ** The iterator of the Async-Iterable Adapter *)

Section Iterator.
Context `{C : Collaborators}.
Import ToAsyncIterable.




End Iterator.

Section IteratorExamples.
Import Demo ToAsyncIterable.



(** The scenario of the specification for [next()]: with two arrays buffered
    and the promise resolved, the pull gives both, merged; the next pull gives
    the empty array and is the last. *)
Example next_scenario :
  let st :=
    {| error := None; next := 0; promises := [true];
       buffer := [encoder_encode "<p>"; encoder_encode "Hi"];
       renderedFirstPageChunk := true; log := [] |} in
  (iterator_next st).2
  = Returned {| done := false; value := encoder_encode "<p>Hi" |}
  /\ (iterator_next (iterator_next st).1).2
     = Returned {| done := true; value := [] |}.
Proof. split; vm_compute; reflexivity. Qed.

End IteratorExamples.


(** ** A [Response] among the chunks *)

Section ResponseChunks.
Context `{C : Collaborators}.

(** The string form of a [Response] does not hold the marker. *)
Lemma response_has_no_marker (r : Response) :
  DOCTYPE_EXP_test (Chunk_toString (ChunkResponse r)) = false.
Proof. reflexivity. Qed.

Lemma injected_response (result : SSRResult) (r : Response) :
  partial result = false ->
  injected result true false (ChunkResponse r)
  = Some (if compressHTML result then doctype_compressed else doctype_newline).
Proof.
  intros Hpartial. unfold injected. by rewrite Hpartial, response_has_no_marker.
Qed.

(** C9.  On a page that is not partial, a [Response] written as the very
    first chunk still gets the doctype: the String Adapter appends it to the
    accumulator and drops the response; the Stream Adapter enqueues it, the
    Async-Iterable Adapter pushes it on the buffer, and both then throw
    [ResponseSentError].  In each case [renderedFirstPageChunk] is set by that
    call, and a call made once it is set, whatever its chunk, adds nothing but
    the converted chunk and leaves it set: no later chunk gets a doctype. *)
Theorem response_takes_the_first_chunk_slot (result : SSRResult) (r : Response) :
  partial result = false ->
  let doctype :=
    if compressHTML result
    then "<!DOCTYPE html>"
    else "<!DOCTYPE html>" +:+ String (ascii_of_nat 10) EmptyString in
  (forall st,
      ToString.renderedFirstPageChunk st = false ->
      ToString.str (ToString.write result true st (ChunkResponse r)).1
      = ToString.str st +:+ doctype
      /\ ToString.renderedFirstPageChunk
           (ToString.write result true st (ChunkResponse r)).1 = true
      /\ (ToString.write result true st (ChunkResponse r)).2 = None)
  /\ (forall st,
        ToReadableStream.renderedFirstPageChunk st = false ->
        ToReadableStream.enqueued
          (ToReadableStream.write result true st (ChunkResponse r)).1
        = ToReadableStream.enqueued st ++ [encoder_encode doctype]
        /\ ToReadableStream.renderedFirstPageChunk
             (ToReadableStream.write result true st (ChunkResponse r)).1 = true
        /\ (ToReadableStream.write result true st (ChunkResponse r)).2
           = Some (ErrAstro {| data := ResponseSentError; loc := None |}))
  /\ (forall st,
        ToAsyncIterable.renderedFirstPageChunk st = false ->
        ToAsyncIterable.buffer
          (ToAsyncIterable.write result true st (ChunkResponse r)).1
        = ToAsyncIterable.buffer st ++ [encoder_encode doctype]
        /\ ToAsyncIterable.renderedFirstPageChunk
             (ToAsyncIterable.write result true st (ChunkResponse r)).1 = true
        /\ (ToAsyncIterable.write result true st (ChunkResponse r)).2
           = Some (ErrAstro {| data := ResponseSentError; loc := None |}))
  /\ (forall isPage chunk,
        (forall st,
            ToString.renderedFirstPageChunk st = true ->
            ToString.str (ToString.write result isPage st chunk).1
            = ToString.str st +:+ join (texts result [chunk])
            /\ ToString.renderedFirstPageChunk
                 (ToString.write result isPage st chunk).1 = true)
        /\ (forall st,
              ToReadableStream.renderedFirstPageChunk st = true ->
              ToReadableStream.enqueued
                (ToReadableStream.write result isPage st chunk).1
              = ToReadableStream.enqueued st ++ byte_arrays result [chunk]
              /\ ToReadableStream.renderedFirstPageChunk
                   (ToReadableStream.write result isPage st chunk).1 = true)
        /\ (forall st,
              ToAsyncIterable.renderedFirstPageChunk st = true ->
              ToAsyncIterable.buffer
                (ToAsyncIterable.write result isPage st chunk).1
              = ToAsyncIterable.buffer st
                ++ non_empty (byte_arrays result [chunk])
              /\ ToAsyncIterable.renderedFirstPageChunk
                   (ToAsyncIterable.write result isPage st chunk).1 = true)).
Proof.
  intros Hpartial doctype.
  pose proof (injected_response result r Hpartial) as Hinjected.
  fold doctype in Hinjected.
  split; [| split; [| split]].
  - intros st Hflag.
    rewrite string_write_str, string_write_flag, string_write_returns, Hflag.
    rewrite Hinjected. simpl. by rewrite append_nil_r.
  - intros st Hflag.
    rewrite stream_write_enqueued, stream_write_flag, stream_write_throws, Hflag.
    rewrite Hinjected. simpl. by rewrite ?app_nil_r.
  - intros st Hflag.
    rewrite iterable_write_buffer, iterable_write_flag, iterable_write_throws,
      Hflag.
    rewrite Hinjected. simpl. by rewrite ?app_nil_r.
  - intros isPage chunk. split; [| split]; intros st Hflag.
    + rewrite string_write_str, string_write_flag, Hflag, injected_seen.
      by rewrite append_nil_l.
    + by rewrite stream_write_enqueued, stream_write_flag, Hflag, injected_seen.
    + by rewrite iterable_write_buffer, iterable_write_flag, Hflag, injected_seen.
Qed.

End ResponseChunks.

(** ** Renders that let an exception of [write] escape *)

Section Scripts.
Context `{C : Collaborators}.

Lemma after_writes_snoc {S : Type} (write : S -> Chunk -> S * option JsError)
    (s : S) (chunks : list Chunk) (chunk : Chunk) :
  after_writes write s (chunks ++ [chunk])
  = (write (after_writes write s chunks) chunk).1.
Proof. unfold after_writes. by rewrite foldl_app. Qed.

(** As long as [write] returns, the script goes on. *)
Lemma drive_script_returns {S : Type} (write : S -> Chunk -> S * option JsError)
    (chunks : list Chunk) (final : Render) (s : S) :
  (forall s chunk, chunk ∈ chunks -> (write s chunk).2 = None) ->
  drive write (script chunks final) s
  = drive write final (after_writes write s chunks).
Proof.
  revert s. induction chunks as [|chunk chunks IH]; intros s Hreturns; [done |].
  simpl. pose proof (Hreturns s chunk ltac:(left)) as Hchunk.
  destruct (write s chunk) as [s' thrown] eqn:Hwrite. simpl in Hchunk. subst.
  rewrite IH; [done |].
  intros s0 c Hc. apply Hreturns. by right.
Qed.

(** At the first call of [write] that throws, the script rejects. *)
Lemma drive_script_throws {S : Type} (write : S -> Chunk -> S * option JsError)
    (before after : list Chunk) (chunk : Chunk) (final : Render) (s : S)
    (e : JsError) :
  (forall s chunk, chunk ∈ before -> (write s chunk).2 = None) ->
  (write (after_writes write s before) chunk).2 = Some e ->
  drive write (script (before ++ chunk :: after) final) s
  = ((write (after_writes write s before) chunk).1, Threw e).
Proof.
  revert s. induction before as [|c before IH]; intros s Hreturns Hthrows.
  - simpl in *. destruct (write s chunk) as [s' thrown]. simpl in *. by subst.
  - simpl. pose proof (Hreturns s c ltac:(left)) as Hc.
    destruct (write s c) as [s' thrown] eqn:Hwrite. simpl in Hc. subst.
    rewrite IH.
    + reflexivity.
    + intros s0 c0 Hc0. apply Hreturns. by right.
    + unfold after_writes in *. simpl in Hthrows. by rewrite Hwrite in Hthrows.
Qed.

Lemma is_content_returns (chunks : list Chunk) :
  Forall (fun c => is_content c = true) chunks ->
  forall chunk, chunk ∈ chunks -> exists c, chunk = ChunkContent c.
Proof.
  intros Hall chunk Hin. rewrite Forall_forall in Hall.
  specialize (Hall chunk Hin). destruct chunk; [discriminate | eauto].
Qed.

(** The render task of the iterable, taken to its end in one go. *)
Lemma render_turns_drive (r : Render) (c : ToAsyncIterable.Config) :
  ToAsyncIterable.rendering c = Some r ->
  ToAsyncIterable.run
    (replicate
       (turns (ToAsyncIterable.result c) (ToAsyncIterable.isPage c) r
              (ToAsyncIterable.state c))
       ToAsyncIterable.RenderTurn) c
  = Some
      (ToAsyncIterable.set_rendering None
         (ToAsyncIterable.set_state
            (settle
               (drive (ToAsyncIterable.write (ToAsyncIterable.result c)
                                             (ToAsyncIterable.isPage c))
                      r (ToAsyncIterable.state c)))
            c)).
Proof.
  revert c. induction r as [| e | chunk k IH]; intros c Hr.
  - simpl. by rewrite Hr.
  - simpl. by rewrite Hr.
  - cbn [turns drive].
    destruct (ToAsyncIterable.write _ _ _ chunk) as [st thrown] eqn:Hwrite.
    cbn [replicate ToAsyncIterable.run ToAsyncIterable.step].
    rewrite Hr, Hwrite.
    pose proof (IH thrown
                  (ToAsyncIterable.set_rendering (Some (k thrown))
                     (ToAsyncIterable.set_state st c)) eq_refl) as Hrest.
    cbn [ToAsyncIterable.result ToAsyncIterable.isPage ToAsyncIterable.state
         ToAsyncIterable.set_rendering ToAsyncIterable.set_state] in Hrest.
    by rewrite Hrest.
Qed.

Lemma after_writes_written {S : Type} (write : S -> Chunk -> S * option JsError)
    (log : S -> list Effect) :
  (forall s chunk, written (log (write s chunk).1) = written (log s) ++ [chunk]) ->
  forall chunks s,
    written (log (after_writes write s chunks)) = written (log s) ++ chunks.
Proof.
  intros Hwrite chunks. induction chunks as [|chunk chunks IH]; intros s.
  - by rewrite app_nil_r.
  - unfold after_writes in *. simpl. rewrite IH, Hwrite.
    by rewrite <- (assoc_L (++)).
Qed.

(** The String Adapter takes a script to its end, responses or not. *)
Lemma string_script (result : SSRResult) (isPage : bool) (chunks : list Chunk)
    (st : ToString.State) :
  drive (ToString.write result isPage) (script chunks Resolve) st
  = (after_writes (ToString.write result isPage) st chunks, Returned tt)
  /\ written (ToString.log (after_writes (ToString.write result isPage) st chunks))
     = written (ToString.log st) ++ chunks.
Proof.
  split.
  - rewrite drive_script_returns; [done |].
    intros s chunk _. apply string_write_returns.
  - apply (after_writes_written _ ToString.log).
    intros s chunk. apply string_write_written.
Qed.

(** The detached task of the Stream Adapter stops at a response that escapes:
    the chunks after it are not written, the stream is not closed, and the
    error, located at the component of the route, waits in a timer. *)
Lemma stream_script_fatal (result : SSRResult) (isPage : bool)
    (route : option RouteData) (o : Component) (before after : list Chunk)
    (r : Response) (final : Render) (st0 : ToReadableStream.State) :
  render o = script (before ++ ChunkResponse r :: after) final ->
  Forall (fun c => is_content c = true) before ->
  let st := ToReadableStream.start result isPage route o st0 in
  written (ToReadableStream.log st)
  = written (ToReadableStream.log st0) ++ before ++ [ChunkResponse r]
  /\ ToReadableStream.closed st = ToReadableStream.closed st0
  /\ ToReadableStream.errored st = ToReadableStream.errored st0
  /\ ToReadableStream.timers st
     = ToReadableStream.timers st0
       ++ [ToReadableStream.CallControllerError
             (ErrAstro {| data := ResponseSentError;
                          loc := Some {| file := optional_component route |} |})].
Proof.
  intros Hrender Hbefore st. subst st. unfold ToReadableStream.start.
  rewrite Hrender.
  rewrite (drive_script_throws _ _ _ _ _ _ response_sent).
  - set (s1 := after_writes (ToReadableStream.write result isPage) st0 before).
    pose proof (stream_write_untouched result isPage s1 (ChunkResponse r))
      as (Hclosed & Herrored & Htimers).
    assert (stream_untouched st0 s1) as (Hclosed0 & Herrored0 & Htimers0).
    { subst s1. clear. induction before as [|c before IH] using rev_ind; [done |].
      rewrite after_writes_snoc.
      destruct (stream_write_untouched result isPage
                  (after_writes (ToReadableStream.write result isPage) st0 before) c)
        as (H1 & H2 & H3).
      destruct IH as (I1 & I2 & I3). unfold stream_untouched.
      by rewrite H1, H2, H3. }
    cbn [ToReadableStream.setTimeout ToReadableStream.log ToReadableStream.closed
         ToReadableStream.errored ToReadableStream.timers].
    rewrite stream_write_written, Hclosed, Herrored, Htimers.
    rewrite Hclosed0, Herrored0, Htimers0. subst s1.
    rewrite (after_writes_written _ ToReadableStream.log)
      by (intros; apply stream_write_written).
    by rewrite <- (assoc_L (++)).
  - intros s chunk [c ->]%(is_content_returns _ Hbefore).
    by rewrite stream_write_throws.
  - by rewrite stream_write_throws.
Qed.

(** One pull by an idle consumer once the render task has settled. *)
Lemma pull_after_settled (c : ToAsyncIterable.Config) :
  config_inv c ->
  ToAsyncIterable.rendering c = None ->
  ToAsyncIterable.consumer c = ToAsyncIterable.Idle ->
  ToAsyncIterable.run [ToAsyncIterable.Pull; ToAsyncIterable.Resume] c
  = Some
      (match ToAsyncIterable.error (ToAsyncIterable.state c) with
       | Some e =>
           ToAsyncIterable.set_consumer (ToAsyncIterable.Failed e) c
       | None =>
           ToAsyncIterable.set_consumer
             (if bool_decide
                   (total_length
                      (ToAsyncIterable.buffer (ToAsyncIterable.state c)) = 0)
              then ToAsyncIterable.Finished
              else ToAsyncIterable.Idle)
             (ToAsyncIterable.deliver
                (concat (ToAsyncIterable.buffer (ToAsyncIterable.state c)))
                (ToAsyncIterable.set_state
                   (ToAsyncIterable.buffer_clear (ToAsyncIterable.state c)) c))
       end).
Proof.
  intros (_ & _ & _ & _ & Hnext & _) Hr Hidle.
  apply Hnext in Hr. destruct c as [res page st r k pl]. simpl in *. subst k.
  cbn [ToAsyncIterable.set_consumer ToAsyncIterable.consumer
       ToAsyncIterable.state].
  rewrite Hr, next_body_spec. by destruct (ToAsyncIterable.error st).
Qed.

(** On the iterable, a response that escapes ends the render task with the
    error recorded; the chunks after it are not written, and the consumer's
    pull throws the error. *)
Lemma iterable_script_fatal (result : SSRResult) (isPage : bool)
    (l : list Effect) (before after : list Chunk) (r : Response)
    (final : Render) :
  Forall (fun e => is_output e = false) l ->
  Forall (fun c => is_content c = true) before ->
  exists schedule c,
    ToAsyncIterable.run schedule
      (ToAsyncIterable.initial result isPage l
         (script (before ++ ChunkResponse r :: after) final))
    = Some c
    /\ ToAsyncIterable.consumer c = ToAsyncIterable.Failed response_sent
    /\ ToAsyncIterable.rendering c = None
    /\ written (ToAsyncIterable.log (ToAsyncIterable.state c))
       = before ++ [ChunkResponse r].
Proof.
  intros Hquiet Hbefore.
  set (c0 := ToAsyncIterable.initial result isPage l
               (script (before ++ ChunkResponse r :: after) final)).
  pose proof (render_turns_drive _ c0 eq_refl) as Hturns.
  set (n := turns _ _ _ _) in Hturns.
  cbn [ToAsyncIterable.result ToAsyncIterable.isPage ToAsyncIterable.state
       ToAsyncIterable.initial c0] in Hturns.
  rewrite (drive_script_throws _ _ _ _ _ _ response_sent) in Hturns.
  2: { intros s chunk [c ->]%(is_content_returns _ Hbefore).
       by rewrite iterable_write_throws. }
  2: { by rewrite iterable_write_throws. }
  cbn [settle] in Hturns.
  match type of Hturns with _ = Some ?c => set (c1 := c) in Hturns end.
  assert (config_inv c1) as Hinv.
  { eapply run_inv; [| exact Hturns]. by apply initial_inv. }
  pose proof (pull_after_settled c1 Hinv eq_refl eq_refl) as Hpull.
  exists (replicate n ToAsyncIterable.RenderTurn
          ++ [ToAsyncIterable.Pull; ToAsyncIterable.Resume]).
  eexists. rewrite run_app, Hturns. cbn [mbind option_bind].
  split; [exact Hpull |].
  subst c1. clear Hturns Hinv Hpull. config_simpl.
  split; [done |]. split; [done |].
  rewrite iterable_write_written.
  rewrite (after_writes_written _ ToAsyncIterable.log)
    by (intros; apply iterable_write_written).
  cbn [ToAsyncIterable.log]. by rewrite (proj1 (quiet_written _ Hquiet)).
Qed.

(** C3.  A [Response] handed to [write] in the course of a render: the
    String Adapter returns from the call having appended nothing for it (only
    the doctype, if the call is the first of a page), and for a render that
    writes its chunks in order the adapter returns the doctype and the text of
    all the other chunks; the Stream Adapter and the Async-Iterable Adapter
    throw [ResponseSentError] from the call, having enqueued or pushed nothing
    for it, and for a render that lets the exception escape that is the end:
    the later chunks are not written, the stream is left with the error in a
    timer, and the pull of the consumer of the iterable throws the error. *)
Theorem response_mid_stream (result : SSRResult) (isPage : bool) (r : Response) :
  (forall st,
      (ToString.write result isPage st (ChunkResponse r)).2 = None
      /\ ToString.str (ToString.write result isPage st (ChunkResponse r)).1
         = ToString.str st
           +:+ default EmptyString
                 (injected result isPage (ToString.renderedFirstPageChunk st)
                           (ChunkResponse r)))
  /\ (forall result0 componentFactory props children route o chunks,
        componentFactory result0 props children
        = (result, Returned (FactoryComponent o)) ->
        isRenderTemplateResult o = true ->
        isHeadAndContent o = false ->
        render o = script chunks Resolve ->
        exists w,
          ToString.renderToString
            result0 componentFactory props children isPage route
          = (w,
             Returned
               (IsOutput
                  (default EmptyString (expected_doctype result isPage chunks)
                   +:+ join (texts result chunks))))
          /\ written (effects w) = chunks)
  /\ (forall before after,
        texts result (before ++ ChunkResponse r :: after)
        = texts result before ++ texts result after)
  /\ (forall st,
        (ToReadableStream.write result isPage st (ChunkResponse r)).2
        = Some (ErrAstro {| data := ResponseSentError; loc := None |})
        /\ ToReadableStream.enqueued
             (ToReadableStream.write result isPage st (ChunkResponse r)).1
           = ToReadableStream.enqueued st
             ++ option_list
                  (encoder_encode
                     <$> injected result isPage
                           (ToReadableStream.renderedFirstPageChunk st)
                           (ChunkResponse r)))
  /\ (forall st,
        (ToAsyncIterable.write result isPage st (ChunkResponse r)).2
        = Some (ErrAstro {| data := ResponseSentError; loc := None |})
        /\ ToAsyncIterable.buffer
             (ToAsyncIterable.write result isPage st (ChunkResponse r)).1
           = ToAsyncIterable.buffer st
             ++ option_list
                  (encoder_encode
                     <$> injected result isPage
                           (ToAsyncIterable.renderedFirstPageChunk st)
                           (ChunkResponse r)))
  /\ (forall route o before after final st0,
        render o = script (before ++ ChunkResponse r :: after) final ->
        Forall (fun c => is_content c = true) before ->
        let st := ToReadableStream.start result isPage route o st0 in
        written (ToReadableStream.log st)
        = written (ToReadableStream.log st0) ++ before ++ [ChunkResponse r]
        /\ ToReadableStream.closed st = ToReadableStream.closed st0
        /\ ToReadableStream.errored st = ToReadableStream.errored st0
        /\ ToReadableStream.timers st
           = ToReadableStream.timers st0
             ++ [ToReadableStream.CallControllerError
                   (ErrAstro
                      {| data := ResponseSentError;
                         loc := Some {| file := optional_component route |} |})])
  /\ (forall l before after final,
        Forall (fun e => is_output e = false) l ->
        Forall (fun c => is_content c = true) before ->
        exists schedule c,
          ToAsyncIterable.run schedule
            (ToAsyncIterable.initial result isPage l
               (script (before ++ ChunkResponse r :: after) final))
          = Some c
          /\ ToAsyncIterable.consumer c
             = ToAsyncIterable.Failed
                 (ErrAstro {| data := ResponseSentError; loc := None |})
          /\ ToAsyncIterable.rendering c = None
          /\ written (ToAsyncIterable.log (ToAsyncIterable.state c))
             = before ++ [ChunkResponse r]).
Proof.
  split; [| split; [| split; [| split; [| split; [| split]]]]].
  - intros st. rewrite string_write_returns, string_write_str. split; [done |].
    simpl. by rewrite append_nil_r.
  - intros result0 componentFactory props children route o chunks
      Hfactory Htemplate Hpair Hrender.
    unfold ToString.renderToString, callComponentAsTemplateResultOrResponse.
    rewrite Hfactory, Htemplate, Hpair. cbn [negb]. rewrite Hrender.
    pose proof (string_script result isPage chunks
                  {| ToString.str := EmptyString;
                     ToString.renderedFirstPageChunk := false;
                     ToString.log := [] |}) as [Hdrive Hwritten].
    pose proof (string_drive_inv result isPage (script chunks Resolve))
      as [_ Hstr].
    rewrite Hdrive in Hstr |- *. cbn [fst] in Hstr.
    rewrite Hwritten in Hstr. change (written [] ++ chunks) with chunks in *.
    eexists. split; [by rewrite Hstr |]. done.
  - intros before after. by rewrite texts_app.
  - intros st. rewrite stream_write_throws, stream_write_enqueued.
    split; [done |]. simpl. by rewrite app_nil_r.
  - intros st. rewrite iterable_write_throws, iterable_write_buffer.
    split; [done |]. simpl. by rewrite app_nil_r.
  - intros route o before after final st0. apply stream_script_fatal.
  - intros l before after final. apply iterable_script_fatal.
Qed.

End Scripts.

(** ** Delivery *)

Section Delivery.
Context `{C : Collaborators}.

Lemma byte_arrays_content (result : SSRResult) (chunks : list Chunk) :
  Forall (fun c => is_content c = true) chunks ->
  length (byte_arrays result chunks) = length chunks.
Proof.
  induction 1 as [|c chunks Hc _ IH]; [done |].
  destruct c; [discriminate |]. simpl. by rewrite <- IH.
Qed.

Lemma total_length_is_concat (l : list Uint8Array) :
  total_length l = length (concat l).
Proof. by rewrite total_length_concat. Qed.

(** Once the render task has settled, one pull, or two, take an idle
    consumer to [done] or to the error recorded. *)
Lemma settled_consumer_ends (c : ToAsyncIterable.Config) :
  config_inv c ->
  ToAsyncIterable.rendering c = None ->
  ToAsyncIterable.consumer c = ToAsyncIterable.Idle ->
  exists schedule c',
    ToAsyncIterable.run schedule c = Some c'
    /\ (ToAsyncIterable.consumer c' = ToAsyncIterable.Finished
        \/ exists e, ToAsyncIterable.consumer c' = ToAsyncIterable.Failed e).
Proof.
  intros Hinv Hr Hk.
  pose proof (pull_after_settled c Hinv Hr Hk) as Hpull1.
  destruct (ToAsyncIterable.error (ToAsyncIterable.state c)) as [e|] eqn:He.
  - eexists [ToAsyncIterable.Pull; ToAsyncIterable.Resume], _.
    split; [exact Hpull1 |]. right. by exists e.
  - destruct (bool_decide (total_length
                (ToAsyncIterable.buffer (ToAsyncIterable.state c)) = 0))
      eqn:Hdone.
    + eexists [ToAsyncIterable.Pull; ToAsyncIterable.Resume], _.
      split; [exact Hpull1 |]. by left.
    + match type of Hpull1 with _ = Some ?c => set (c2 := c) in Hpull1 end.
      assert (config_inv c2) as Hinv2 by (eapply run_inv; [exact Hinv | exact Hpull1]).
      assert (ToAsyncIterable.rendering c2 = None) as Hr2 by (subst c2; exact Hr).
      pose proof (pull_after_settled c2 Hinv2 Hr2 eq_refl) as Hpull2.
      assert (ToAsyncIterable.error (ToAsyncIterable.state c2) = None) as He2
        by (subst c2; config_simpl; exact He).
      rewrite He2 in Hpull2.
      eexists ([ToAsyncIterable.Pull; ToAsyncIterable.Resume]
               ++ [ToAsyncIterable.Pull; ToAsyncIterable.Resume]), _.
      rewrite run_app, Hpull1. cbn [mbind option_bind].
      split; [exact Hpull2 |]. by left.
Qed.

(** A consumer that keeps pulling gets to the end: the render task takes its
    turns, and then one pull, or two, end with [done] or with the error of the
    render. *)
Lemma consumer_reaches_the_end (result : SSRResult) (isPage : bool)
    (l : list Effect) (r : Render) :
  Forall (fun e => is_output e = false) l ->
  exists schedule c,
    ToAsyncIterable.run schedule (ToAsyncIterable.initial result isPage l r)
    = Some c
    /\ (ToAsyncIterable.consumer c = ToAsyncIterable.Finished
        \/ exists e, ToAsyncIterable.consumer c = ToAsyncIterable.Failed e).
Proof.
  intros Hquiet.
  set (c0 := ToAsyncIterable.initial result isPage l r).
  pose proof (render_turns_drive r c0 eq_refl) as Hturns.
  set (n := turns _ _ _ _) in Hturns.
  match type of Hturns with _ = Some ?c => set (c1 := c) in Hturns end.
  assert (config_inv c1) as Hinv1
    by (eapply run_inv; [by apply initial_inv | exact Hturns]).
  destruct (settled_consumer_ends c1 Hinv1 eq_refl eq_refl)
    as (schedule & c & Hrun & Hend).
  exists (replicate n ToAsyncIterable.RenderTurn ++ schedule), c.
  by rewrite run_app, Hturns.
Qed.

(** C7.  For a completed render that wrote no [Response], the bytes delivered
    are the bytes of the doctype, when one was inserted, followed by the
    converted bytes of every chunk written, in the order written: the arrays
    enqueued by the Stream Adapter, and the arrays returned by the pulls of a
    consumer of the Async-Iterable Adapter that has seen [done].  So the
    number of bytes delivered is the sum of the converted lengths plus the
    length of the doctype.  And a consumer that keeps pulling does get to the
    end: some schedule takes it to [done], or to the error of the render. *)
Theorem delivered_bytes_are_the_written_bytes (fuel : nat) (result : SSRResult)
    (componentFactory : AstroComponentFactory) (props : Props)
    (children : Children) (isPage : bool) (route : option RouteData) :
  (forall w st,
      ToReadableStream.renderToReadableStream
        fuel result componentFactory props children isPage route
      = (w, Returned (IsOutput st)) ->
      ToReadableStream.closed st = true ->
      Forall (fun c => is_content c = true) (written (effects w)) ->
      concat (ToReadableStream.enqueued st)
      = concat (doctype_bytes (ctx w) isPage (written (effects w)))
        ++ concat (byte_arrays (ctx w) (written (effects w)))
      /\ total_length (ToReadableStream.enqueued st)
         = total_length (doctype_bytes (ctx w) isPage (written (effects w)))
           + total_length (byte_arrays (ctx w) (written (effects w)))
      /\ length (byte_arrays (ctx w) (written (effects w)))
         = length (written (effects w)))
  /\ (forall w c0 schedule c,
        ToAsyncIterable.renderToAsyncIterable
          fuel result componentFactory props children isPage route
        = (w, Returned (IsOutput c0)) ->
        ToAsyncIterable.run schedule c0 = Some c ->
        ToAsyncIterable.consumer c = ToAsyncIterable.Finished ->
        let chunks := written (ToAsyncIterable.log (ToAsyncIterable.state c)) in
        Forall (fun c => is_content c = true) chunks ->
        ToAsyncIterable.rendering c = None
        /\ ToAsyncIterable.error (ToAsyncIterable.state c) = None
        /\ concat (ToAsyncIterable.pulled c)
           = concat (doctype_bytes (ctx w) isPage chunks)
             ++ concat (byte_arrays (ctx w) chunks)
        /\ total_length (ToAsyncIterable.pulled c)
           = total_length (doctype_bytes (ctx w) isPage chunks)
             + total_length (byte_arrays (ctx w) chunks)
        /\ length (byte_arrays (ctx w) chunks) = length chunks)
  /\ (forall w c0,
        ToAsyncIterable.renderToAsyncIterable
          fuel result componentFactory props children isPage route
        = (w, Returned (IsOutput c0)) ->
        exists schedule c,
          ToAsyncIterable.run schedule c0 = Some c
          /\ (ToAsyncIterable.consumer c = ToAsyncIterable.Finished
              \/ exists e, ToAsyncIterable.consumer c = ToAsyncIterable.Failed e)).
Proof.
  split; [| split].
  - intros w st Hadapter _ Hcontent.
    pose proof (stream_output _ _ _ _ _ _ _ _ _ Hadapter) as Hq.
    split; [by rewrite Hq, concat_app |].
    split; [| by apply byte_arrays_content].
    by rewrite Hq, total_length_app.
  - intros w c0 schedule c Hadapter Hrun Hfinished chunks Hcontent.
    destruct (reachable_inv _ _ _ _ _ _ _ _ _ _ _ Hadapter Hrun)
      as (([_ Hpushes] & Hacc & _ & _ & _ & _ & Hconsumer) & Hres & Hpage).
    rewrite Hfinished in Hconsumer. destruct Hconsumer as (Hr & Hbuffer & He).
    rewrite Hres, Hpage in Hpushes. fold chunks in Hpushes.
    rewrite Hbuffer, Hpushes, concat_app, concat_non_empty in Hacc.
    simpl in Hacc. rewrite app_nil_r in Hacc.
    split; [done |]. split; [done |]. split; [done |].
    split; [| by apply byte_arrays_content].
    by rewrite !total_length_is_concat, Hacc, length_app.
  - intros w c0
      (result' & templateResult & _ & Hhead & ->)%renderToAsyncIterable_output.
    apply consumer_reaches_the_end.
    pose proof (head_pass_quiet fuel isPage result') as Hquiet.
    by rewrite Hhead in Hquiet.
Qed.

End Delivery.

Section DeliveryExamples.
Import Demo ToAsyncIterable.

(** The example for C7: the page [hello] through the stream, and through the
    iterable with a consumer that pulls twice after the render. *)
Lemma delivered_bytes_are_the_written_bytes_witness :
  (exists w st,
      ToReadableStream.renderToReadableStream
        5 (context false false []) (factory (FactoryComponent hello)) tt tt true
        (Some index)
      = (w, Returned (IsOutput st))
      /\ ToReadableStream.closed st = true
      /\ Forall (fun c => is_content c = true) (written (effects w))
      /\ total_length (ToReadableStream.enqueued st) = 16 + (6 + 22))
  /\ (renderToAsyncIterable
        5 (context false false []) (factory (FactoryComponent hello)) tt tt true
        (Some index)
      = ({| ctx := context false false []; effects := [] |},
         Returned (IsOutput hello_iterable))
      /\ run hello_schedule hello_iterable = Some hello_pulled
      /\ consumer hello_pulled = Finished
      /\ Forall (fun c => is_content c = true) (written (log (state hello_pulled)))
      /\ total_length (pulled hello_pulled) = 16 + (6 + 22)).
Proof.
  pose proof (delivered_bytes_are_the_written_bytes
                5 (context false false []) (factory (FactoryComponent hello))
                tt tt true (Some index)) as (Hstream & Hiterable & _).
  split.
  - eexists _, _. split; [vm_compute; reflexivity |].
    split; [reflexivity |].
    split; [vm_compute; repeat constructor |].
    etrans; [exact (proj1 (proj2 (Hstream _ _ eq_refl eq_refl
                                    ltac:(vm_compute; repeat constructor))))
            | vm_compute; reflexivity].
  - assert (renderToAsyncIterable
              5 (context false false []) (factory (FactoryComponent hello))
              tt tt true (Some index)
            = ({| ctx := context false false []; effects := [] |},
               Returned (IsOutput hello_iterable))) as Hadapter
      by (vm_compute; reflexivity).
    assert (run hello_schedule hello_iterable = Some hello_pulled) as Hrun
      by (vm_compute; reflexivity).
    assert (consumer hello_pulled = Finished) as Hfinished
      by (vm_compute; reflexivity).
    assert (Forall (fun c => is_content c = true)
                   (written (log (state hello_pulled)))) as Hcontent
      by (vm_compute; repeat constructor).
    do 4 (split; [assumption |]).
    etrans;
      [exact (proj1 (proj2 (proj2 (proj2
                (Hiterable _ _ _ _ Hadapter Hrun Hfinished Hcontent)))))
      | vm_compute; reflexivity].
Defined.

End DeliveryExamples.

Section ResponseExamples.
Import Demo.

(** The example for C9: response number 3 as the first chunk of a page that
    is not partial and is compressed. *)
Lemma response_takes_the_first_chunk_slot_witness :
  partial (context false true []) = false
  /\ ToString.str
       (ToString.write (context false true []) true
          {| ToString.str := EmptyString; ToString.renderedFirstPageChunk := false;
             ToString.log := [] |}
          (ChunkResponse (response 3))).1
     = "<!DOCTYPE html>"
  /\ ToReadableStream.enqueued
       (ToReadableStream.write (context false true []) true
          {| ToReadableStream.enqueued := []; ToReadableStream.closed := false;
             ToReadableStream.errored := None; ToReadableStream.timers := [];
             ToReadableStream.renderedFirstPageChunk := false;
             ToReadableStream.log := [] |}
          (ChunkResponse (response 3))).1
     = [encoder_encode "<!DOCTYPE html>"]
  /\ ToAsyncIterable.buffer
       (ToAsyncIterable.write (context false true []) true
          {| ToAsyncIterable.error := None; ToAsyncIterable.next := 0;
             ToAsyncIterable.promises := [false]; ToAsyncIterable.buffer := [];
             ToAsyncIterable.renderedFirstPageChunk := false;
             ToAsyncIterable.log := [] |}
          (ChunkResponse (response 3))).1
     = [encoder_encode "<!DOCTYPE html>"].
Proof.
  pose proof (response_takes_the_first_chunk_slot
                (context false true []) (response 3) eq_refl)
    as (Hstring & Hstream & Hiterable & _).
  split; [reflexivity |]. split; [| split].
  - exact (proj1 (Hstring
                    {| ToString.str := EmptyString;
                       ToString.renderedFirstPageChunk := false;
                       ToString.log := [] |} eq_refl)).
  - exact (proj1 (Hstream
                    {| ToReadableStream.enqueued := [];
                       ToReadableStream.closed := false;
                       ToReadableStream.errored := None;
                       ToReadableStream.timers := [];
                       ToReadableStream.renderedFirstPageChunk := false;
                       ToReadableStream.log := [] |} eq_refl)).
  - exact (proj1 (Hiterable
                    {| ToAsyncIterable.error := None;
                       ToAsyncIterable.next := 0;
                       ToAsyncIterable.promises := [false];
                       ToAsyncIterable.buffer := [];
                       ToAsyncIterable.renderedFirstPageChunk := false;
                       ToAsyncIterable.log := [] |} eq_refl)).
Defined.

(** The example for C3: the page [redirecting], whose second chunk is a
    response.  The String Adapter returns the doctype and the two other
    chunks; the detached task of the stream stops at the response. *)
Lemma response_mid_stream_witness :
  (exists w,
      ToString.renderToString
        (context false false []) (factory (FactoryComponent redirecting)) tt tt
        true (Some index)
      = (w, Returned (IsOutput (doctype_newline +:+ "<p></p>")))
      /\ written (effects w) = chunk_of <$> chunks redirecting)
  /\ ToReadableStream.timers
       (ToReadableStream.start (context false false []) true (Some index)
          redirecting
          {| ToReadableStream.enqueued := []; ToReadableStream.closed := false;
             ToReadableStream.errored := None; ToReadableStream.timers := [];
             ToReadableStream.renderedFirstPageChunk := false;
             ToReadableStream.log := [] |})
     = [ToReadableStream.CallControllerError
          (ErrAstro {| data := ResponseSentError;
                       loc := Some {| file := Some "src/pages/index.astro" |} |})]
  /\ (exists schedule c,
        ToAsyncIterable.run schedule
          (ToAsyncIterable.initial (context false false []) true []
             (render redirecting))
        = Some c
        /\ ToAsyncIterable.consumer c = ToAsyncIterable.Failed response_sent
        /\ written (ToAsyncIterable.log (ToAsyncIterable.state c))
           = [chunk_of (inr "<p>"); chunk_of (inl 3)]).
Proof.
  pose proof (response_mid_stream (context false false []) true (response 3))
    as (_ & Hstring & _ & _ & _ & Hstream & Hiterable).
  split; [| split].
  - exact (Hstring (context false false [])
             (factory (FactoryComponent redirecting)) tt tt (Some index)
             redirecting (chunk_of <$> chunks redirecting)
             eq_refl eq_refl eq_refl eq_refl).
  - exact (proj2 (proj2 (proj2
             (Hstream (Some index) redirecting [chunk_of (inr "<p>")]
                [chunk_of (inr "</p>")] Resolve _ eq_refl
                ltac:(repeat constructor))))).
  - destruct (Hiterable [] [chunk_of (inr "<p>")] [chunk_of (inr "</p>")] Resolve
                ltac:(constructor) ltac:(repeat constructor))
      as (schedule & c & Hrun & Hconsumer & _ & Hwritten).
    by exists schedule, c.
Defined.

End ResponseExamples.

(** ** The end of the detached task of the Stream Adapter *)

Section StreamEnd.
Context `{C : Collaborators}.

(** The render of the Stream Adapter leaves the controller and the timers
    alone. *)
Lemma stream_drive_untouched (result : SSRResult) (isPage : bool) (r : Render)
    (st0 : ToReadableStream.State) :
  stream_untouched st0 (drive (ToReadableStream.write result isPage) r st0).1.
Proof.
  apply (drive_invariant _ (stream_untouched st0)); [| done].
  intros s chunk (H1 & H2 & H3).
  destruct (stream_write_untouched result isPage s chunk) as (W1 & W2 & W3).
  unfold stream_untouched. by rewrite W1, W2, W3.
Qed.

(** What the [catch] clause does to the error. *)
Lemma addLocation_spec (route : option RouteData) :
  (forall a, loc a = None ->
             ToReadableStream.addLocation route (ErrAstro a)
             = ErrAstro {| data := data a;
                           loc := Some {| file := optional_component route |} |})
  /\ (forall a, loc a <> None -> ToReadableStream.addLocation route (ErrAstro a) = ErrAstro a)
  /\ (forall e, (forall a, e <> ErrAstro a) -> ToReadableStream.addLocation route e = e).
Proof.
  split; [| split].
  - intros a Ha. unfold ToReadableStream.addLocation. by rewrite Ha.
  - intros a Ha. unfold ToReadableStream.addLocation. by destruct (loc a).
  - intros [a | | v] He; [by destruct (He a) | done | done].
Qed.

(** C5, as the code has it.  When the render of the Stream Adapter fails
    with [e], the detached task ends with the stream neither closed nor in
    error: all it does is set a timer.  Until that timer fires a reader gets
    every chunk the render enqueued, in order, and then waits.  The error is
    reported when the timer fires, and it is [e] with the component of the
    route as its location when [e] is an [AstroError] that has none, and [e] as
    it is otherwise; from then on every read fails with it, whatever was read
    before.  When the render completes, the stream is closed, and no timer is
    set: a reader gets every chunk and then the end. *)
Theorem stream_failure_is_deferred (fuel : nat) (result : SSRResult)
    (componentFactory : AstroComponentFactory) (props : Props)
    (children : Children) (isPage : bool) (route : option RouteData)
    (w : World) (st : ToReadableStream.State) :
  ToReadableStream.renderToReadableStream
    fuel result componentFactory props children isPage route
  = (w, Returned (IsOutput st)) ->
  ToReadableStream.errored st = None
  /\ (exists templateResult w0 st1 completion,
        drive (ToReadableStream.write (ctx w0) isPage) (render templateResult)
          {| ToReadableStream.enqueued := [];
             ToReadableStream.closed := false;
             ToReadableStream.errored := None;
             ToReadableStream.timers := [];
             ToReadableStream.renderedFirstPageChunk := false;
             ToReadableStream.log := effects w0 |}
        = (st1, completion)
        /\ ToReadableStream.enqueued st = ToReadableStream.enqueued st1
        /\ match completion with
           | Threw e =>
               ToReadableStream.closed st = false
               /\ ToReadableStream.timers st
                  = [ToReadableStream.CallControllerError (ToReadableStream.addLocation route e)]
               /\ ToReadableStream.log st = ToReadableStream.log st1
               /\ ToReadableStream.errored (ToReadableStream.tick st)
                  = Some (ToReadableStream.addLocation route e)
               /\ ToReadableStream.enqueued (ToReadableStream.tick st)
                  = ToReadableStream.enqueued st1
               /\ ToReadableStream.log (ToReadableStream.tick st)
                  = ToReadableStream.log st1
                    ++ [ControllerError (ToReadableStream.addLocation route e)]
               /\ ToReadableStream.timers (ToReadableStream.tick st) = []
               /\ (forall taken bytes,
                     ToReadableStream.enqueued st1 !! taken = Some bytes ->
                     ToReadableStream.reader_read st taken
                     = ToReadableStream.ReadChunk bytes)
               /\ ToReadableStream.reader_read
                    st (length (ToReadableStream.enqueued st1))
                  = ToReadableStream.ReadPending
               /\ (forall taken,
                     ToReadableStream.reader_read (ToReadableStream.tick st) taken
                     = ToReadableStream.ReadError
                         (ToReadableStream.addLocation route e))
           | Returned _ =>
               ToReadableStream.closed st = true
               /\ ToReadableStream.timers st = []
               /\ ToReadableStream.log st
                  = ToReadableStream.log st1 ++ [ControllerClose]
               /\ ToReadableStream.errored (ToReadableStream.tick st) = None
               /\ (forall taken bytes,
                     ToReadableStream.enqueued st1 !! taken = Some bytes ->
                     ToReadableStream.reader_read st taken
                     = ToReadableStream.ReadChunk bytes)
               /\ ToReadableStream.reader_read
                    st (length (ToReadableStream.enqueued st1))
                  = ToReadableStream.ReadDone
           | Pending => False
           end)
  /\ (forall a, loc a = None ->
                ToReadableStream.addLocation route (ErrAstro a)
                = ErrAstro
                    {| data := data a;
                       loc := Some {| file := optional_component route |} |})
  /\ (forall a, loc a <> None -> ToReadableStream.addLocation route (ErrAstro a) = ErrAstro a)
  /\ (forall e, (forall a, e <> ErrAstro a) -> ToReadableStream.addLocation route e = e).
Proof.
  intros (result' & templateResult & w0 & _ & _ & -> & _)%renderToReadableStream_output.
  set (st0 := {| ToReadableStream.enqueued := [];
                 ToReadableStream.closed := false;
                 ToReadableStream.errored := None;
                 ToReadableStream.timers := [];
                 ToReadableStream.renderedFirstPageChunk := false;
                 ToReadableStream.log := effects w0 |}).
  pose proof (stream_drive_untouched (ctx w0) isPage (render templateResult) st0)
    as (Hclosed & Herrored & Htimers).
  pose proof (drive_settles (ToReadableStream.write (ctx w0) isPage)
                (render templateResult) st0) as Hsettles.
  unfold ToReadableStream.start. fold st0.
  destruct (drive _ _ st0) as [st1 completion] eqn:Hdrive.
  cbn [fst snd] in *.
  split; [| split; [| apply addLocation_spec]].
  - destruct completion as [[] | e |]; [done | done | done].
  - exists templateResult, w0, st1, completion. split; [done |].
    destruct completion as [[] | e |]; [| | done].
    + unfold ToReadableStream.tick, ToReadableStream.reader_read. simpl.
      rewrite Htimers, Herrored. subst st0. simpl.
      repeat match goal with |- _ /\ _ => split end; try done.
      * by intros taken bytes ->.
      * by rewrite lookup_ge_None_2.
    + unfold ToReadableStream.tick, ToReadableStream.reader_read. simpl.
      rewrite Htimers, Hclosed, Herrored. subst st0. simpl.
      repeat match goal with |- _ /\ _ => split end; try done.
      * by intros taken bytes ->.
      * by rewrite lookup_ge_None_2.
Qed.

End StreamEnd.

Section StreamEndExamples.
Import Demo.

(** The page [broken] rejects with an error that is no [AstroError] and has
    no location; the error the stream reports on the next tick is that error,
    still without a location: a location is not attached to any error that
    lacks one.  And the two arrays enqueued before the failure do not reach a
    consumer that starts reading after that tick: its first read fails with
    the error. *)
Lemma foreign_error_surfaces_without_location :
  (exists w st,
      ToReadableStream.renderToReadableStream
        5 (context false false []) (factory (FactoryComponent broken)) tt tt true
        (Some index)
      = (w, Returned (IsOutput st))
      /\ ToReadableStream.errored (ToReadableStream.tick st)
         = Some (ErrForeign "boom")
      /\ location_of (ErrForeign "boom") = None
      /\ ToReadableStream.enqueued st
         = [encoder_encode doctype_newline; encoder_encode "<p>"]
      /\ ToReadableStream.reader_read (ToReadableStream.tick st) 0
         = ToReadableStream.ReadError (ErrForeign "boom"))
  /\ ~ (forall e : JsError,
          location_of e = None ->
          location_of (ToReadableStream.addLocation (Some index) e)
          = Some {| file := Some "src/pages/index.astro" |}).
Proof.
  split.
  - eexists _, _. split; [vm_compute; reflexivity |].
    split; [reflexivity |]. split; [reflexivity |].
    split; vm_compute; reflexivity.
  - intros Hall. by specialize (Hall (ErrForeign "boom") eq_refl).
Qed.

(** The example for C5: the stream of the page [broken] is not in error when
    the detached task ends, and holds the chunk that was written; a reader
    gets the doctype and the chunk, and then waits. *)
Lemma stream_failure_is_deferred_witness :
  exists w st,
    ToReadableStream.renderToReadableStream
      5 (context false false []) (factory (FactoryComponent broken)) tt tt true
      (Some index)
    = (w, Returned (IsOutput st))
    /\ ToReadableStream.errored st = None
    /\ ToReadableStream.enqueued st
       = [encoder_encode doctype_newline; encoder_encode "<p>"]
    /\ ToReadableStream.reader_read st 0
       = ToReadableStream.ReadChunk (encoder_encode doctype_newline)
    /\ ToReadableStream.reader_read st 1
       = ToReadableStream.ReadChunk (encoder_encode "<p>")
    /\ ToReadableStream.reader_read st 2 = ToReadableStream.ReadPending.
Proof.
  eexists _, _. split; [vm_compute; reflexivity |].
  split;
    [| split; [| split; [| split]]; vm_compute; reflexivity].
  exact (proj1 (stream_failure_is_deferred
                  5 (context false false []) (factory (FactoryComponent broken))
                  tt tt true (Some index) _ _ eq_refl)).
Defined.

End StreamEndExamples.

(** ** The head pass comes first *)

Section HeadFirst.
Context `{C : Collaborators}.

Lemma body_only_refl (l : list Effect) : body_only l l.
Proof. exists []. by rewrite app_nil_r. Qed.

Lemma body_only_trans (l0 l1 l2 : list Effect) :
  body_only l0 l1 -> body_only l1 l2 -> body_only l0 l2.
Proof.
  intros (p1 & -> & Hi1 & Hh1) (p2 & -> & Hi2 & Hh2).
  exists (p1 ++ p2). rewrite inits_app, heads_app, Hi1, Hi2, Hh1, Hh2.
  by rewrite (assoc_L (++)).
Qed.

Lemma body_only_step (l : list Effect) (post : list Effect) :
  inits post = [] -> heads post = [] -> body_only l (l ++ post).
Proof. intros Hi Hh. by exists post. Qed.

Lemma string_write_body (result : SSRResult) (isPage : bool)
    (st : ToString.State) (chunk : Chunk) :
  body_only (ToString.log st) (ToString.log (ToString.write result isPage st chunk).1).
Proof.
  destruct st as [s flag l]. unfold ToString.write.
  cbn [ToString.called ToString.renderedFirstPageChunk ToString.log ToString.str].
  destruct (isPage && negb flag),
    (negb (partial result) && negb (DOCTYPE_EXP_test (Chunk_toString chunk))),
    chunk;
    cbn [fst ToString.append ToString.set_rendered ToString.called ToString.log];
    rewrite <- ?(assoc_L (++)); by apply body_only_step.
Qed.

Lemma stream_write_body (result : SSRResult) (isPage : bool)
    (st : ToReadableStream.State) (chunk : Chunk) :
  body_only (ToReadableStream.log st)
            (ToReadableStream.log (ToReadableStream.write result isPage st chunk).1).
Proof.
  stream_cases st chunk flag; destruct (isPage && negb flag); stream_simpl;
    rewrite <- ?(assoc_L (++)); by apply body_only_step.
Qed.

Lemma iterable_write_body (result : SSRResult) (isPage : bool)
    (st : ToAsyncIterable.State) (chunk : Chunk) :
  body_only (ToAsyncIterable.log st)
            (ToAsyncIterable.log (ToAsyncIterable.write result isPage st chunk).1).
Proof.
  iterable_cases st chunk flag; destruct (isPage && negb flag); iterable_simpl;
    rewrite <- ?(assoc_L (++)); by apply body_only_step.
Qed.

Lemma stream_start_body (result : SSRResult) (isPage : bool)
    (route : option RouteData) (templateResult : Component)
    (st0 : ToReadableStream.State) :
  body_only (ToReadableStream.log st0)
    (ToReadableStream.log
       (ToReadableStream.start result isPage route templateResult st0)).
Proof.
  unfold ToReadableStream.start.
  pose proof (drive_invariant (ToReadableStream.write result isPage)
                (fun st => body_only (ToReadableStream.log st0)
                                     (ToReadableStream.log st))) as Hdrive.
  specialize (Hdrive
                (fun s chunk Hs =>
                   body_only_trans _ _ _ Hs (stream_write_body result isPage s chunk))
                (render templateResult) st0 (body_only_refl _)).
  destruct (drive _ _ _) as [st [[] | e |]]; cbn [fst] in Hdrive; try done.
  eapply body_only_trans; [exact Hdrive |]. by apply body_only_step.
Qed.

Lemma iterable_step_body (m : ToAsyncIterable.Move) (c c' : ToAsyncIterable.Config) :
  ToAsyncIterable.step m c = Some c' ->
  body_only (ToAsyncIterable.log (ToAsyncIterable.state c))
            (ToAsyncIterable.log (ToAsyncIterable.state c')).
Proof.
  unfold ToAsyncIterable.step. intros Hstep.
  destruct m, c as [res page st r k pl]; config_simpl.
  - destruct r as [[| e | chunk kont]|]; try discriminate.
    + injection Hstep as <-. apply body_only_refl.
    + injection Hstep as <-. apply body_only_refl.
    + pose proof (iterable_write_body res page st chunk) as Hbody.
      destruct (ToAsyncIterable.write res page st chunk).
      by injection Hstep as <-.
  - destruct k; try discriminate. injection Hstep as <-. apply body_only_refl.
  - destruct k; try discriminate.
    destruct (ToAsyncIterable.resolved st p); [| discriminate].
    rewrite next_body_spec in Hstep.
    destruct (ToAsyncIterable.error st); injection Hstep as <-;
      apply body_only_refl.
Qed.

Lemma iterable_run_body (schedule : list ToAsyncIterable.Move)
    (c c' : ToAsyncIterable.Config) :
  ToAsyncIterable.run schedule c = Some c' ->
  body_only (ToAsyncIterable.log (ToAsyncIterable.state c))
            (ToAsyncIterable.log (ToAsyncIterable.state c')).
Proof.
  revert c. induction schedule as [|m schedule IH]; intros c; simpl.
  - intros [= <-]. apply body_only_refl.
  - destruct (ToAsyncIterable.step m c) as [c1|] eqn:Hstep; [| done].
    intros Hrun. eapply body_only_trans; [by eapply iterable_step_body | by apply IH].
Qed.

(** The dispatcher hands on the context the factory left. *)
Lemma dispatcher_context (result : SSRResult)
    (componentFactory : AstroComponentFactory) (props : Props)
    (children : Children) (route : option RouteData) :
  (callComponentAsTemplateResultOrResponse
     result componentFactory props children route).1
  = (componentFactory result props children).1.
Proof.
  unfold callComponentAsTemplateResultOrResponse.
  destruct (componentFactory result props children) as [result' [[r|o] | e |]];
    try done.
  by destruct (negb (isRenderTemplateResult o)).
Qed.

(** What a head pass that returned has done. *)
Lemma head_pass_returned (fuel : nat) (result : SSRResult) (w : World) :
  bufferHeadContent fuel {| ctx := result; effects := [] |} = (w, Returned tt) ->
  Forall (fun e => is_output e = false) (effects w)
  /\ inits (effects w) = propagators (_metadata (ctx w))
  /\ heads (effects w) = omap propagated_head (propagators (_metadata (ctx w)))
  /\ extraHead (_metadata (ctx w))
     = extraHead (_metadata result) ++ heads (effects w)
  /\ (NoDup (propagators (_metadata result)) -> NoDup (inits (effects w))).
Proof.
  intros Hpass.
  pose proof (head_pass_quiet fuel true result) as Hquiet.
  cbn [fst] in Hquiet. rewrite Hpass in Hquiet.
  pose proof (bufferHeadContent_loop_NoDup fuel 0 {| ctx := result; effects := [] |})
    as Hnodup.
  unfold bufferHeadContent in Hpass. rewrite Hpass in Hnodup.
  apply bufferHeadContent_loop_returned in Hpass
    as (new & Hnew & _ & Hinits & Hheads & Hextra).
  simpl in Hnew. subst new. rewrite drop_0 in Hinits, Hheads.
  split; [done |]. split; [done |]. split; [done |]. split; [done |].
  rewrite Hinits. exact Hnodup.
Qed.

(** C6.  For a page, the stream and the iterable are made only when the
    head pass has returned: in the log, the effects of the pass come first and
    every effect on an output channel comes after them.  The pass has called
    [init] on the propagators of the set as it stands at the end, in the order
    of the set (so once each, the set having no duplicates), has awaited each
    result, and has pushed on [extraHead], in that order, the head fragment of
    every result that is a head-and-content pair.  The String Adapter calls no
    [init], pushes no head fragment, and leaves the context as the factory left
    it.  With more fuel than the propagators a render can register, the
    adapters do not depend on the fuel; and when, besides, every [init] of
    such a propagator returns, the pass runs to its end: both adapters return,
    the one its stream and the other its iterable. *)
Theorem head_pass_precedes_the_body (fuel : nat) (result : SSRResult)
    (componentFactory : AstroComponentFactory) (props : Props)
    (children : Children) (route : option RouteData) :
  let result' := (componentFactory result props children).1 in
  (forall w st,
      ToReadableStream.renderToReadableStream
        fuel result componentFactory props children true route
      = (w, Returned (IsOutput st)) ->
      exists pre post,
        effects w = pre ++ post
        /\ Forall (fun e => is_output e = false) pre
        /\ inits post = [] /\ heads post = []
        /\ inits pre = propagators (_metadata (ctx w))
        /\ heads pre = omap propagated_head (propagators (_metadata (ctx w)))
        /\ extraHead (_metadata (ctx w))
           = extraHead (_metadata result') ++ heads pre
        /\ (NoDup (propagators (_metadata result')) -> NoDup (inits pre)))
  /\ (forall w c0 schedule c,
        ToAsyncIterable.renderToAsyncIterable
          fuel result componentFactory props children true route
        = (w, Returned (IsOutput c0)) ->
        ToAsyncIterable.run schedule c0 = Some c ->
        exists post,
          ToAsyncIterable.log (ToAsyncIterable.state c) = effects w ++ post
          /\ Forall (fun e => is_output e = false) (effects w)
          /\ inits post = [] /\ heads post = []
          /\ inits (effects w) = propagators (_metadata (ctx w))
          /\ heads (effects w)
             = omap propagated_head (propagators (_metadata (ctx w)))
          /\ extraHead (_metadata (ctx w))
             = extraHead (_metadata result') ++ heads (effects w)
          /\ (NoDup (propagators (_metadata result')) ->
              NoDup (inits (effects w))))
  /\ (forall isPage w out,
        ToString.renderToString result componentFactory props children isPage route
        = (w, out) ->
        inits (effects w) = [] /\ heads (effects w) = [] /\ ctx w = result')
  /\ (forall universe isPage,
        closed_universe universe {| ctx := result'; effects := [] |} ->
        length universe < fuel ->
        ToReadableStream.renderToReadableStream
          fuel result componentFactory props children isPage route
        = ToReadableStream.renderToReadableStream
            (S (length universe)) result componentFactory props children isPage
            route
        /\ ToAsyncIterable.renderToAsyncIterable
             fuel result componentFactory props children isPage route
           = ToAsyncIterable.renderToAsyncIterable
               (S (length universe)) result componentFactory props children
               isPage route)
  /\ (forall universe templateResult,
        (callComponentAsTemplateResultOrResponse
           result componentFactory props children route).2
        = Returned (FactoryComponent templateResult) ->
        closed_universe universe {| ctx := result'; effects := [] |} ->
        length universe < fuel ->
        (forall p, p ∈ universe -> exists v, returnValue (init p) = Returned v) ->
        (exists w st,
            ToReadableStream.renderToReadableStream
              fuel result componentFactory props children true route
            = (w, Returned (IsOutput st)))
        /\ (exists w c0,
              ToAsyncIterable.renderToAsyncIterable
                fuel result componentFactory props children true route
              = (w, Returned (IsOutput c0)))).
Proof.
  intros result'. subst result'.
  rewrite <- (dispatcher_context result componentFactory props children route).
  split; [| split; [| split; [| split]]].
  - intros w st
      (r' & templateResult & w0 & Hcall & Hhead & -> & ->)%renderToReadableStream_output.
    rewrite Hcall. cbn [fst ctx effects].
    destruct (head_pass_returned _ _ _ Hhead) as (Hquiet & Hi & Hh & He & Hn).
    destruct (stream_start_body (ctx w0) true route templateResult
                {| ToReadableStream.enqueued := [];
                   ToReadableStream.closed := false;
                   ToReadableStream.errored := None;
                   ToReadableStream.timers := [];
                   ToReadableStream.renderedFirstPageChunk := false;
                   ToReadableStream.log := effects w0 |})
      as (post & Hlog & Hpi & Hph).
    by exists (effects w0), post.
  - intros w c0 schedule c
      (r' & templateResult & Hcall & Hhead & ->)%renderToAsyncIterable_output Hrun.
    rewrite Hcall. cbn [fst].
    destruct (head_pass_returned _ _ _ Hhead) as (Hquiet & Hi & Hh & He & Hn).
    destruct (iterable_run_body _ _ _ Hrun) as (post & Hlog & Hpi & Hph).
    by exists post.
  - intros isPage w out. unfold ToString.renderToString.
    destruct (callComponentAsTemplateResultOrResponse _ _ _ _ _)
      as [r' [[r | templateResult] | e |]]; try by intros [= <- <-].
    pose proof (drive_invariant (ToString.write r' isPage)
                  (fun st => body_only [] (ToString.log st))
                  (fun s chunk Hs =>
                     body_only_trans _ _ _ Hs (string_write_body r' isPage s chunk))
                  (render templateResult)
                  {| ToString.str := EmptyString;
                     ToString.renderedFirstPageChunk := false;
                     ToString.log := [] |} (body_only_refl _))
      as (post & Hlog & Hpi & Hph).
    destruct (drive _ _ _) as [st [[] | e |]]; cbn [fst] in Hlog;
      intros [= <- <-]; cbn [effects ctx fst]; by rewrite Hlog.
  - intros universe isPage Huniverse Hfuel.
    unfold ToReadableStream.renderToReadableStream,
      ToAsyncIterable.renderToAsyncIterable.
    destruct (callComponentAsTemplateResultOrResponse _ _ _ _ _)
      as [r' [[r | templateResult] | e |]]; try done.
    cbn [fst] in Huniverse.
    destruct isPage; [| done].
    by rewrite (bufferHeadContent_fuel universe fuel _ Huniverse Hfuel).
  - intros universe templateResult Hcall Huniverse Hfuel Hreturns.
    unfold ToReadableStream.renderToReadableStream,
      ToAsyncIterable.renderToAsyncIterable.
    destruct (callComponentAsTemplateResultOrResponse _ _ _ _ _)
      as [r' out]. cbn [fst snd] in Hcall, Huniverse. subst out.
    pose proof (bufferHeadContent_loop_returns
                  universe fuel 0 _ Huniverse) as Hpass.
    fold (bufferHeadContent fuel {| ctx := r'; effects := [] |}) in Hpass.
    destruct (bufferHeadContent fuel {| ctx := r'; effects := [] |})
      as [w0 buffered].
    cbn [snd] in Hpass. rewrite Hpass by (done || lia).
    split; by eexists _, _.
Qed.

End HeadFirst.

Section HeadFirstExamples.
Import Demo.

(** The example for C6: a page whose context holds propagator [0], which
    registers [1] and [2] while the pass runs; through the stream, through the
    iterable after two turns of the render task, and the pass as one that
    returns. *)
Lemma head_pass_precedes_the_body_witness :
  (exists w st,
      ToReadableStream.renderToReadableStream
        5 (context false false [0]) (factory (@FactoryComponent values hello)) tt tt true
        (Some index)
      = (w, Returned (IsOutput st))
      /\ propagators (_metadata (ctx w)) = [0; 1; 2]
      /\ extraHead (_metadata (ctx w)) = ["<link>"; "<style>"]
      /\ exists pre post,
           effects w = pre ++ post
           /\ Forall (fun e => is_output e = false) pre
           /\ inits post = []
           /\ inits pre = [0; 1; 2])
  /\ (exists w c0 c,
        ToAsyncIterable.renderToAsyncIterable
          5 (context false false [0]) (factory (@FactoryComponent values hello))
          tt tt true (Some index)
        = (w, Returned (IsOutput c0))
        /\ ToAsyncIterable.run
             [ToAsyncIterable.RenderTurn; ToAsyncIterable.RenderTurn] c0
           = Some c
        /\ propagators (_metadata (ctx w)) = [0; 1; 2]
        /\ extraHead (_metadata (ctx w)) = ["<link>"; "<style>"]
        /\ exists post,
             ToAsyncIterable.log (ToAsyncIterable.state c) = effects w ++ post
             /\ Forall (fun e => is_output e = false) (effects w)
             /\ inits post = []
             /\ inits (effects w) = [0; 1; 2])
  /\ (closed_universe [0; 1; 2]
        {| ctx := context false false [0]; effects := [] |}
      /\ length [0; 1; 2] < 5
      /\ (forall p : nat,
            p ∈ [0; 1; 2] -> exists v, returnValue (init_of p) = Returned v)
      /\ exists w c0,
           ToAsyncIterable.renderToAsyncIterable
             5 (context false false [0])
             (factory (@FactoryComponent values hello)) tt tt true (Some index)
           = (w, Returned (IsOutput c0))).
Proof.
  pose proof (head_pass_precedes_the_body
                5 (context false false [0])
                (factory (@FactoryComponent values hello)) tt tt (Some index))
    as (Hstream & Hiterable & _ & _ & Hreturns).
  split; [| split].
  - eexists _, _.
    match goal with
    | |- ?adapter /\ _ => assert adapter as Hadapter by (vm_compute; reflexivity)
    end.
    split; [exact Hadapter |]. split; [reflexivity |]. split; [reflexivity |].
    destruct (Hstream _ _ Hadapter)
      as (pre & post & Heffects & Hquiet & Hinits & _ & Hpre & _).
    by exists pre, post.
  - eexists _, _, _.
    match goal with
    | |- ?adapter /\ _ => assert adapter as Hadapter by (vm_compute; reflexivity)
    end.
    split; [exact Hadapter |].
    match goal with
    | |- ?run /\ _ => assert run as Hrun by (vm_compute; reflexivity)
    end.
    split; [exact Hrun |]. split; [reflexivity |]. split; [reflexivity |].
    destruct (Hiterable _ _ _ _ Hadapter Hrun)
      as (post & Hlog & Hquiet & Hinits & _ & Hpre & _).
    by exists post.
  - assert (closed_universe [0; 1; 2]
              {| ctx := context false false [0]; effects := [] |}) as Hclosed.
    { split; [| split].
      - apply NoDup_singleton.
      - intros p Hp. simpl in Hp.
        apply list_elem_of_singleton in Hp as ->. repeat constructor.
      - intros p q Hp Hq.
        apply elem_of_cons in Hp as [-> | Hp].
        { simpl in Hq.
          apply elem_of_cons in Hq as [-> | Hq]; [repeat constructor |].
          apply list_elem_of_singleton in Hq as ->. repeat constructor. }
        apply elem_of_cons in Hp as [-> | Hp].
        { simpl in Hq. apply list_elem_of_singleton in Hq as ->.
          repeat constructor. }
        apply list_elem_of_singleton in Hp as ->. simpl in Hq.
        by apply elem_of_nil in Hq. }
    assert (length [0; 1; 2] < 5) as Hfuel by (simpl; lia).
    assert (forall p : nat,
               p ∈ [0; 1; 2] -> exists v, returnValue (init_of p) = Returned v)
      as Hinit.
    { intros p Hp.
      apply elem_of_cons in Hp as [-> | Hp]; [by eexists |].
      apply elem_of_cons in Hp as [-> | Hp]; [by eexists |].
      apply list_elem_of_singleton in Hp as ->. by eexists. }
    split; [exact Hclosed |]. split; [exact Hfuel |]. split; [exact Hinit |].
    exact (proj2 (Hreturns [0; 1; 2] hello eq_refl Hclosed Hfuel Hinit)).
Defined.

End HeadFirstExamples.

(** * Further properties of the code *)

(** ** The test for the marker *)

Section Marker.

Lemma match_here_same_letters (pattern s t : string) :
  same_letters s t -> match_here pattern s = match_here pattern t.
Proof.
  revert s t. induction pattern as [|p pattern IH]; intros s t Hst; [done |].
  destruct s as [|a s], t as [|b t]; try done.
  destruct Hst as [Hab Hst]. cbn [match_here]. unfold same_letter in Hab.
  by rewrite Hab, (IH s t Hst).
Qed.

Lemma RegExp_test_same_letters (pattern s t : string) :
  same_letters s t -> RegExp_test pattern s = RegExp_test pattern t.
Proof.
  revert t. induction s as [|a s IH]; intros [|b t] Hst; try done.
  cbn [RegExp_test]. rewrite (match_here_same_letters pattern _ _ Hst).
  destruct Hst as [_ Hst]. by rewrite (IH t Hst).
Qed.

Lemma append_length (s t : string) :
  String.length (s +:+ t) = String.length s + String.length t.
Proof.
  induction s as [|a s IH]; [done |]. rewrite append_cons. simpl. by rewrite IH.
Qed.

Lemma same_letters_length (s t : string) :
  same_letters s t -> String.length s = String.length t.
Proof.
  revert t. induction s as [|a s IH]; intros [|b t] Hst; try done.
  destruct Hst as [_ Hst]. simpl. by rewrite (IH t Hst).
Qed.

Lemma contains_marker_within (before s after : string) :
  contains_marker s -> contains_marker (before +:+ s +:+ after).
Proof.
  intros (b & marker & a & -> & Hmarker).
  exists (before +:+ b), marker, (a +:+ after). split; [| done].
  by rewrite !append_assoc.
Qed.

(** The two doctype strings of the source hold the marker. *)
Lemma doctype_holds_the_marker (compress : bool) (before after : string) :
  DOCTYPE_EXP_test
    (before +:+ (if compress then doctype_compressed else doctype_newline)
     +:+ after) = true.
Proof.
  apply DOCTYPE_EXP_test_spec, contains_marker_within.
  exists EmptyString, "<!DOCTYPE html",
    (if compress
     then ">" else ">" +:+ String (ascii_of_nat 10) EmptyString)%string.
  split; [by destruct compress |]. simpl. by repeat split.
Qed.

(** X1.  The test [DOCTYPE_EXP.test] looks at the letters of a string only
    up to their case, so two strings that differ in case get the same answer;
    it finds the marker wherever it stands, so a string that passes keeps
    passing when text is put before and after it; and it fails on every string
    shorter than the fourteen characters of the marker, the empty string
    included. *)
Theorem doctype_test_ignores_case_and_position (s : string) :
  (forall t, same_letters s t -> DOCTYPE_EXP_test t = DOCTYPE_EXP_test s)
  /\ (forall before after,
        DOCTYPE_EXP_test s = true ->
        DOCTYPE_EXP_test (before +:+ s +:+ after) = true)
  /\ (String.length s < 14 -> DOCTYPE_EXP_test s = false).
Proof.
  split; [| split].
  - intros t Hst. symmetry. by apply RegExp_test_same_letters.
  - intros before after Hs%DOCTYPE_EXP_test_spec.
    by apply DOCTYPE_EXP_test_spec, contains_marker_within.
  - intros Hshort. apply not_true_is_false.
    intros (before & marker & after & -> & Hmarker%same_letters_length)%DOCTYPE_EXP_test_spec.
    rewrite !append_length, <- Hmarker in Hshort. simpl in Hshort. lia.
Qed.

Lemma doctype_test_ignores_case_and_position_witness :
  DOCTYPE_EXP_test "<!DOCTYPE HTML>" = DOCTYPE_EXP_test "<!DocType html>"
  /\ DOCTYPE_EXP_test ("<!-- page -->" +:+ "<!DocType html>" +:+ "<html>") = true
  /\ DOCTYPE_EXP_test "<!doctype" = false.
Proof.
  split; [| split].
  - apply (proj1 (doctype_test_ignores_case_and_position "<!DocType html>")).
    simpl. by repeat split.
  - apply (proj1 (proj2 (doctype_test_ignores_case_and_position "<!DocType html>"))).
    reflexivity.
  - apply (proj2 (proj2 (doctype_test_ignores_case_and_position "<!doctype"))).
    simpl. lia.
Defined.

End Marker.

Section Reinsertion.
Context `{C : Collaborators}.

(** X2.  Inserting the doctype is idempotent: a chunk whose string form
    holds one of the two doctype strings the adapters insert is never given
    another one.  Whatever the page flag, the context and the state of the
    destination, the call of [write] adds the converted chunk and nothing
    else: to the accumulator of the String Adapter, to the queue of the Stream
    Adapter, to the buffer of the Async-Iterable Adapter. *)
Theorem inserted_doctype_is_not_repeated (result : SSRResult) (isPage : bool)
    (chunk : Chunk) (compress : bool) (before after : string)
    (s : ToString.State) (q : ToReadableStream.State)
    (b : ToAsyncIterable.State) :
  Chunk_toString chunk
  = before +:+ (if compress then doctype_compressed else doctype_newline)
    +:+ after ->
  ToString.str (ToString.write result isPage s chunk).1
  = ToString.str s +:+ join (texts result [chunk])
  /\ ToReadableStream.enqueued (ToReadableStream.write result isPage q chunk).1
     = ToReadableStream.enqueued q ++ byte_arrays result [chunk]
  /\ ToAsyncIterable.buffer (ToAsyncIterable.write result isPage b chunk).1
     = ToAsyncIterable.buffer b ++ non_empty (byte_arrays result [chunk]).
Proof.
  intros Hchunk.
  assert (forall flag, injected result isPage flag chunk = None) as Hnone.
  { intros flag. unfold injected.
    rewrite Hchunk, doctype_holds_the_marker, andb_false_r.
    by destruct (isPage && negb flag). }
  rewrite string_write_str, stream_write_enqueued, iterable_write_buffer.
  rewrite !Hnone. cbn [default option_list fmap option_fmap option_map app].
  by rewrite append_nil_l.
Qed.

End Reinsertion.

Section ReinsertionExamples.
Import Demo.

Lemma inserted_doctype_is_not_repeated_witness :
  ToString.str
    (ToString.write (context false false []) true
       {| ToString.str := EmptyString;
          ToString.renderedFirstPageChunk := false;
          ToString.log := [] |}
       (chunk_of (inr "<!DOCTYPE html><html>"))).1
  = "<!DOCTYPE html><html>".
Proof.
  etrans;
    [exact (proj1 (inserted_doctype_is_not_repeated
                     (context false false []) true
                     (chunk_of (inr "<!DOCTYPE html><html>")) true
                     EmptyString "<html>"
                     {| ToString.str := EmptyString;
                        ToString.renderedFirstPageChunk := false;
                        ToString.log := [] |}
                     {| ToReadableStream.enqueued := [];
                        ToReadableStream.closed := false;
                        ToReadableStream.errored := None;
                        ToReadableStream.timers := [];
                        ToReadableStream.renderedFirstPageChunk := false;
                        ToReadableStream.log := [] |}
                     {| ToAsyncIterable.error := None;
                        ToAsyncIterable.next := 0;
                        ToAsyncIterable.promises := [false];
                        ToAsyncIterable.buffer := [];
                        ToAsyncIterable.renderedFirstPageChunk := false;
                        ToAsyncIterable.log := [] |}
                     eq_refl))
    | reflexivity].
Defined.

End ReinsertionExamples.

(** ** The head pass, whatever its outcome *)

Section HeadPassOutcomes.
Context `{C : Collaborators}.

(** The loop only adds to the set of propagators. *)
Lemma bufferHeadContent_loop_grows (fuel iterator : nat) (w : World) :
  propagators (_metadata (ctx w))
  `prefix_of`
  propagators (_metadata (ctx (bufferHeadContent_loop fuel iterator w).1)).
Proof.
  revert iterator w. induction fuel as [|fuel IH]; intros iterator w; [done |].
  destruct (propagators (_metadata (ctx w)) !! iterator) as [value|] eqn:Hvalue.
  - rewrite (bufferHeadContent_loop_turn _ _ _ _ Hvalue).
    destruct (returnValue (init value)).
    + etrans; [| apply IH]. rewrite turn_propagators. apply Set_add_all_prefix.
    + apply Set_add_all_prefix.
    + apply Set_add_all_prefix.
  - by rewrite (bufferHeadContent_loop_done _ _ _ Hvalue).
Qed.

(** Whatever the outcome, the propagators initialised are those the
    iterator went over, in the order of the set, and the head fragments of
    those that returned are what was added to [extraHead]. *)
Lemma bufferHeadContent_loop_trace (fuel iterator : nat) (w : World) :
  exists new,
    effects (bufferHeadContent_loop fuel iterator w).1 = effects w ++ new
    /\ inits new
       `prefix_of`
       drop iterator
         (propagators (_metadata (ctx (bufferHeadContent_loop fuel iterator w).1)))
    /\ heads new = omap propagated_head (inits new)
    /\ extraHead (_metadata (ctx (bufferHeadContent_loop fuel iterator w).1))
       = extraHead (_metadata (ctx w)) ++ heads new.
Proof.
  revert iterator w. induction fuel as [|fuel IH]; intros iterator w.
  { exists []. rewrite !app_nil_r. split; [done |]. split; [apply prefix_nil |]. done. }
  destruct (propagators (_metadata (ctx w)) !! iterator) as [value|] eqn:Hvalue.
  - pose proof (bufferHeadContent_loop_grows (S fuel) iterator w) as Hgrows.
    pose proof (prefix_lookup_Some _ _ _ _ Hvalue Hgrows) as Hlook.
    rewrite (drop_lookup_cons _ _ _ Hlook). clear Hgrows Hlook.
    rewrite (bufferHeadContent_loop_turn _ _ _ _ Hvalue).
    destruct (returnValue (init value)) eqn:Hret.
    + destruct (IH (S iterator) (turn value w))
        as (new & -> & Hinits & Hheads & ->).
      rewrite turn_effects, turn_extraHead.
      assert (heads (ExtraHeadPush <$> option_list (propagated_head value))
              = option_list (propagated_head value)) as Hh.
      { by destruct (propagated_head value). }
      assert (inits (ExtraHeadPush <$> option_list (propagated_head value)) = [])
        as Hi.
      { by destruct (propagated_head value). }
      exists (PropagatorInit value
                :: (ExtraHeadPush <$> option_list (propagated_head value)) ++ new).
      change (PropagatorInit value :: ?l) with ([PropagatorInit value] ++ l).
      rewrite !inits_app, !heads_app, Hh, Hi, Hheads.
      split; [by rewrite <- !(assoc_L (++)) |].
      split; [by apply prefix_cons |].
      split; [simpl; by destruct (propagated_head value) |].
      simpl. by rewrite <- !(assoc_L (++)).
    + exists [PropagatorInit value]. simpl.
      split; [done |]. split; [apply prefix_cons, prefix_nil |].
      unfold propagated_head. rewrite Hret. by rewrite app_nil_r.
    + exists [PropagatorInit value]. simpl.
      split; [done |]. split; [apply prefix_cons, prefix_nil |].
      unfold propagated_head. rewrite Hret. by rewrite app_nil_r.
  - rewrite (bufferHeadContent_loop_done _ _ _ Hvalue).
    exists []. rewrite !app_nil_r. split; [done |]. split; [apply prefix_nil |]. done.
Qed.

(** When the loop throws, the error is that of the last [init] called, and
    every [init] before it had returned. *)
Lemma bufferHeadContent_loop_threw (fuel iterator : nat) (w w' : World)
    (e : JsError) :
  bufferHeadContent_loop fuel iterator w = (w', Threw e) ->
  exists new visited p,
    effects w' = effects w ++ new
    /\ inits new = visited ++ [p]
    /\ returnValue (init p) = Threw e
    /\ Forall (fun q => exists v, returnValue (init q) = Returned v) visited.
Proof.
  revert iterator w. induction fuel as [|fuel IH]; intros iterator w; [done |].
  destruct (propagators (_metadata (ctx w)) !! iterator) as [value|] eqn:Hvalue.
  - rewrite (bufferHeadContent_loop_turn _ _ _ _ Hvalue).
    destruct (returnValue (init value)) as [v | e0 |] eqn:Hret; [| | done].
    + intros (new & visited & p & -> & Hinits & Hp & Hvisited)%IH.
      rewrite turn_effects.
      exists (PropagatorInit value
                :: (ExtraHeadPush <$> option_list (propagated_head value)) ++ new),
        (value :: visited), p.
      split; [by rewrite <- !(assoc_L (++)) |].
      split; [| split; [done |]].
      * change (PropagatorInit value :: ?l) with ([PropagatorInit value] ++ l).
        rewrite !inits_app, Hinits. by destruct (propagated_head value).
      * apply Forall_cons. split; [by exists v | done].
    + intros [= <- <-]. exists [PropagatorInit value], [], value.
      by repeat split.
  - by rewrite (bufferHeadContent_loop_done _ _ _ Hvalue).
Qed.

(** With more fuel than the universe has propagators, a pass that is still
    pending was left so by an [init]. *)
Lemma bufferHeadContent_loop_pending (universe : list Propagator)
    (fuel iterator : nat) (w : World) :
  closed_universe universe w ->
  1 <= fuel -> length universe + 1 - iterator <= fuel ->
  (bufferHeadContent_loop fuel iterator w).2 = Pending ->
  exists p,
    p ∈ propagators (_metadata (ctx (bufferHeadContent_loop fuel iterator w).1))
    /\ returnValue (init p) = Pending.
Proof.
  revert iterator w. induction fuel as [|fuel IH]; intros iterator w Hw H1 Hfuel;
    [lia |].
  destruct (propagators (_metadata (ctx w)) !! iterator) as [value|] eqn:Hvalue.
  - rewrite (bufferHeadContent_loop_turn _ _ _ _ Hvalue).
    pose proof (closed_universe_length _ _ Hw) as Hlen.
    pose proof (lookup_lt_Some _ _ _ Hvalue) as Hlt.
    destruct (returnValue (init value)) eqn:Hret; [| done |].
    + apply IH; [| lia | lia].
      apply closed_universe_turn; [done |]. by eapply list_elem_of_lookup_2.
    + intros _. exists value. split; [| done]. cbn [fst register ctx _metadata
        propagators log_init].
      apply Set_add_all_elem. left. by eapply list_elem_of_lookup_2.
  - by rewrite (bufferHeadContent_loop_done _ _ _ Hvalue).
Qed.


(** X3.  The head pass of a page never removes or reorders anything,
    whatever its outcome (returned, thrown, or still pending): the set of
    propagators and [extraHead] keep what they held and only grow at the end,
    the flags [partial] and [compressHTML] are left alone, nothing is written
    to an output channel, and no propagator is initialised twice: the
    propagators initialised are a duplicate-free beginning of the final set,
    and [extraHead] has gained the head fragments of those whose [init]
    returned a head-and-content pair. *)
Theorem head_pass_only_appends (fuel : nat) (w : World) :
  NoDup (propagators (_metadata (ctx w))) ->
  let w' := (bufferHeadContent fuel w).1 in
  propagators (_metadata (ctx w)) `prefix_of` propagators (_metadata (ctx w'))
  /\ NoDup (propagators (_metadata (ctx w')))
  /\ partial (ctx w') = partial (ctx w)
  /\ compressHTML (ctx w') = compressHTML (ctx w)
  /\ exists new,
       effects w' = effects w ++ new
       /\ Forall (fun e => is_output e = false) new
       /\ inits new `prefix_of` propagators (_metadata (ctx w'))
       /\ NoDup (inits new)
       /\ extraHead (_metadata (ctx w'))
          = extraHead (_metadata (ctx w)) ++ omap propagated_head (inits new).
Proof.
  intros Hnodup w'. unfold w', bufferHeadContent.
  pose proof (bufferHeadContent_loop_NoDup fuel 0 w Hnodup) as Hnodup'.
  destruct (bufferHeadContent_loop_quiet fuel 0 w)
    as (new & Hnew & Hquiet & Hpartial & Hcompress).
  destruct (bufferHeadContent_loop_trace fuel 0 w)
    as (new' & Hnew' & Hinits & Hheads & Hextra).
  rewrite Hnew in Hnew'. apply app_inv_head in Hnew'. subst new'.
  rewrite drop_0 in Hinits.
  split; [apply bufferHeadContent_loop_grows |]. split; [done |].
  split; [done |]. split; [done |].
  exists new. split; [done |]. split; [done |]. split; [done |].
  split; [| by rewrite Hextra, Hheads].
  destruct Hinits as [k Hk]. rewrite Hk in Hnodup'.
  by apply NoDup_app in Hnodup' as [? _].
Qed.

(** The loop throws at the first propagator whose [init] rejects. *)
Lemma bufferHeadContent_loop_throws (fuel iterator : nat) (w : World)
    (position : nat) (p : Propagator) (e : JsError) :
  propagators (_metadata (ctx w)) !! position = Some p ->
  returnValue (init p) = Threw e ->
  (forall j q,
      iterator <= j < position ->
      propagators (_metadata (ctx w)) !! j = Some q ->
      exists v, returnValue (init q) = Returned v) ->
  iterator <= position -> position - iterator < fuel ->
  (bufferHeadContent_loop fuel iterator w).2 = Threw e.
Proof.
  revert iterator w.
  induction fuel as [|fuel IH]; intros iterator w Hp He Hbefore Hle Hfuel; [lia |].
  destruct (lookup_lt_is_Some_2 (propagators (_metadata (ctx w))) iterator)
    as [value Hvalue].
  { apply lookup_lt_Some in Hp. lia. }
  rewrite (bufferHeadContent_loop_turn _ _ _ _ Hvalue).
  destruct (decide (iterator = position)) as [-> | Hne].
  - rewrite Hp in Hvalue. injection Hvalue as <-. by rewrite He.
  - destruct (Hbefore iterator value) as [v ->]; [lia | done |].
    assert (propagators (_metadata (ctx w))
            `prefix_of` propagators (_metadata (ctx (turn value w)))) as Hprefix.
    { rewrite turn_propagators. apply Set_add_all_prefix. }
    apply IH; [by eapply prefix_lookup_Some | done | | lia | lia].
    intros j q Hj Hq. apply (Hbefore j q); [lia |].
    destruct (lookup_lt_is_Some_2 (propagators (_metadata (ctx w))) j)
      as [q' Hq'].
    { apply lookup_lt_Some in Hp. lia. }
    pose proof (prefix_lookup_Some _ _ _ _ Hq' Hprefix) as Hq''.
    congruence.
Qed.

(** X4.  When the [init] of a propagator of the context rejects, and those
    of the propagators before it in the set return, the head pass rejects with
    that error, and so do the Stream Adapter and the Async-Iterable Adapter of
    a page: no stream or iterable is made and nothing is written.  The
    propagators initialised are those of the set up to the failing one, which
    is the last: the rest of the set, and what the earlier ones registered, is
    never visited. *)
Theorem head_pass_failure_stops_the_render (fuel : nat) (result result' : SSRResult)
    (componentFactory : AstroComponentFactory) (props : Props)
    (children : Children) (route : option RouteData)
    (templateResult : Component) (position : nat) (p : Propagator)
    (e : JsError) :
  callComponentAsTemplateResultOrResponse
    result componentFactory props children route
  = (result', Returned (FactoryComponent templateResult)) ->
  propagators (_metadata result') !! position = Some p ->
  returnValue (init p) = Threw e ->
  Forall (fun q => exists v, returnValue (init q) = Returned v)
         (take position (propagators (_metadata result'))) ->
  position < fuel ->
  exists w,
    bufferHeadContent fuel {| ctx := result'; effects := [] |} = (w, Threw e)
    /\ ToReadableStream.renderToReadableStream
         fuel result componentFactory props children true route
       = (w, Threw e)
    /\ ToAsyncIterable.renderToAsyncIterable
         fuel result componentFactory props children true route
       = (w, Threw e)
    /\ written (effects w) = []
    /\ inits (effects w) = take (S position) (propagators (_metadata result')).
Proof.
  intros Hcall Hp He Hbefore Hfuel.
  pose proof (bufferHeadContent_loop_throws
                fuel 0 {| ctx := result'; effects := [] |} position p e Hp He)
    as Hthrows.
  fold (bufferHeadContent fuel {| ctx := result'; effects := [] |}) in Hthrows.
  destruct (bufferHeadContent fuel {| ctx := result'; effects := [] |})
    as [w outcome] eqn:Hpass.
  cbn [snd] in Hthrows. rewrite Hthrows; [| | lia | lia].
  2:{ intros j q Hj Hq. apply (proj1 (Forall_lookup _ _) Hbefore j).
      rewrite lookup_take_lt by lia. exact Hq. }
  rewrite Hthrows in Hpass; [| | lia | lia].
  2:{ intros j q Hj Hq. apply (proj1 (Forall_lookup _ _) Hbefore j).
      rewrite lookup_take_lt by lia. exact Hq. }
  exists w. split; [done |].
  split; [unfold ToReadableStream.renderToReadableStream;
          by rewrite Hcall, Hpass |].
  split; [unfold ToAsyncIterable.renderToAsyncIterable;
          by rewrite Hcall, Hpass |].
  split.
  { pose proof (head_pass_quiet fuel true result') as Hquiet.
    cbn [fst] in Hquiet. rewrite Hpass in Hquiet.
    by apply quiet_written in Hquiet as [? _]. }
  pose proof (bufferHeadContent_loop_grows fuel 0 {| ctx := result'; effects := [] |})
    as Hgrows.
  destruct (bufferHeadContent_loop_trace fuel 0 {| ctx := result'; effects := [] |})
    as (new' & Hnew' & Hprefix & _).
  unfold bufferHeadContent in Hpass. rewrite Hpass in Hnew', Hprefix, Hgrows.
  apply bufferHeadContent_loop_threw in Hpass
    as (new & visited & p' & Hnew & Hinits & Hp' & Hvisited).
  cbn [ctx effects fst app] in Hnew, Hnew', Hgrows, Hprefix. subst new'.
  rewrite Hnew in Hprefix. rewrite drop_0, Hinits in Hprefix. rewrite Hnew, Hinits.
  pose proof (prefix_lookup_Some _ _ _ _ Hp Hgrows) as Hpw.
  assert (length visited = position) as Hlength.
  { destruct (lt_eq_lt_dec (length visited) position) as [[Hlt | Heq] | Hgt];
      [| done |].
    - assert ((visited ++ [p']) !! length visited = Some p') as Hlast.
      { rewrite lookup_app_r by lia. by rewrite Nat.sub_diag. }
      pose proof (prefix_lookup_Some _ _ _ _ Hlast Hprefix) as Hw.
      destruct (lookup_lt_is_Some_2 (propagators (_metadata result'))
                  (length visited)) as [q Hq].
      { apply lookup_lt_Some in Hp. lia. }
      pose proof (prefix_lookup_Some _ _ _ _ Hq Hgrows) as Hq'.
      assert (q = p') as -> by congruence.
      destruct (proj1 (Forall_lookup _ _) Hbefore (length visited) p') as [v Hv];
        [by rewrite lookup_take_lt by lia | congruence].
    - destruct (lookup_lt_is_Some_2 visited position) as [q Hq]; [lia |].
      assert ((visited ++ [p']) !! position = Some q) as Hq'
        by (by apply lookup_app_l_Some).
      pose proof (prefix_lookup_Some _ _ _ _ Hq' Hprefix) as Hw.
      assert (q = p) as -> by congruence.
      destruct (proj1 (Forall_lookup _ _) Hvisited position p Hq) as [v Hv].
      congruence. }
  destruct Hprefix as [rest Hrest]. destruct Hgrows as [more Hmore].
  assert (take (S position) (propagators (_metadata (ctx w))) = visited ++ [p'])
    as Htake.
  { rewrite Hrest. apply take_app_length'. rewrite length_app. simpl. lia. }
  rewrite <- Htake, Hmore. rewrite take_app_le; [done |].
  apply lookup_lt_Some in Hp. lia.
Qed.

(** X5.  The head pass comes to an end.  When every propagator a render can
    register belongs to a finite universe and the pass is given more turns
    than the universe has members, the pass is still pending only if the
    promise of some [init] it called never settles; otherwise it has returned
    or thrown. *)
Theorem head_pass_ends (universe : list Propagator) (fuel : nat) (w : World) :
  closed_universe universe w ->
  length universe < fuel ->
  (bufferHeadContent fuel w).2 = Pending ->
  exists p,
    p ∈ propagators (_metadata (ctx (bufferHeadContent fuel w).1))
    /\ p ∈ universe
    /\ returnValue (init p) = Pending.
Proof.
  intros Hw Hfuel Hpending.
  destruct (bufferHeadContent_loop_pending universe fuel 0 w Hw) as (p & Hp & Hret);
    [lia | lia | done |].
  exists p. split; [done |]. split; [| done].
  assert (forall fuel iterator w,
             closed_universe universe w ->
             closed_universe universe (bufferHeadContent_loop fuel iterator w).1)
    as Hclosed.
  { clear. induction fuel as [|fuel IH]; intros iterator w Hw; [done |].
    destruct (propagators (_metadata (ctx w)) !! iterator) as [value|] eqn:Hvalue.
    - rewrite (bufferHeadContent_loop_turn _ _ _ _ Hvalue).
      assert (closed_universe universe
                (register (registered (init value)) (log_init value w))) as Hreg.
      { destruct Hw as (Hnodup & Hsub & Hclosed). unfold closed_universe.
        cbn [register ctx _metadata propagators log_init].
        split; [by apply Set_add_all_NoDup |]. split; [| done].
        intros q [Hq | Hq]%Set_add_all_elem; [by apply Hsub |].
        apply (Hclosed value); [| done].
        by apply Hsub; eapply list_elem_of_lookup_2. }
      destruct (returnValue (init value)); [| done | done].
      apply IH, closed_universe_turn; [done |]. by eapply list_elem_of_lookup_2.
    - by rewrite (bufferHeadContent_loop_done _ _ _ Hvalue). }
  by apply (Hclosed fuel 0 w Hw).
Qed.


End HeadPassOutcomes.

(** ** The signal of the iterable *)

Section Signal.
Context `{C : Collaborators}.
Import ToAsyncIterable.

(** X7.  A call of [write] of the Async-Iterable Adapter wakes a waiting
    consumer exactly when the chunk has bytes.  With [next] pending at the
    call, the promise it held is resolved after the call if and only if the
    chunk is not a [Response] and converts to a non-empty array; in that case
    [next] holds a new promise.  Otherwise the promises are left as they were,
    even when the call has pushed the doctype on the buffer.  In both cases
    the promise held by [next] after the call is pending. *)
Theorem write_resolves_next_only_with_bytes (result : SSRResult) (isPage : bool)
    (st : State) (chunk : Chunk) :
  heap_inv st ->
  resolved st (next st) = false ->
  let st' := (write result isPage st chunk).1 in
  (resolved st' (next st) = true
   <-> exists c, chunk = ChunkContent c /\ 0 < length (chunkToByteArray result c))
  /\ resolved st' (next st') = false
  /\ (resolved st' (next st) = true -> next st' = S (next st))
  /\ (resolved st' (next st) = false ->
      next st' = next st /\ promises st' = promises st)
  /\ heap_inv st'.
Proof.
  intros [Hlen Hearlier] Hpending st'. unfold st'. clear st'.
  assert (non_empty (byte_arrays result [chunk]) <> []
          <-> exists c, chunk = ChunkContent c
                        /\ 0 < length (chunkToByteArray result c)) as Hbytes.
  { destruct chunk as [r|c]; cbn [byte_arrays omap list_omap].
    - split; [done |]. by intros (c & ? & _).
    - rewrite non_empty_one. destruct (decide _) as [Hc|Hc].
      + split; [| done]. intros _. by exists c.
      + split; [done |]. by intros (c' & [= <-] & Hc'). }
  unfold resolved in *.
  destruct (iterable_write_heap result isPage st chunk)
    as [(Hnone & Hnext & Hheap) | (Hsome & Hnext & Hheap)];
    rewrite Hnext, Hheap.
  - rewrite Hpending. split.
    { split; [done |]. by intros H%Hbytes. }
    split; [done |]. split; [done |]. split; [done |].
    unfold heap_inv. by rewrite Hnext, Hheap.
  - assert ((<[next st := true]> (promises st) ++ [false]) !! next st = Some true)
      as Hold.
    { rewrite lookup_app_l by (rewrite length_insert; lia).
      apply list_lookup_insert_eq. lia. }
    assert ((<[next st := true]> (promises st) ++ [false]) !! length (promises st)
            = Some false) as Hnew.
    { rewrite lookup_app_r by (rewrite length_insert; lia).
      by rewrite length_insert, Nat.sub_diag. }
    rewrite Hold, Hnew.
    split. { split; [| done]. intros _. by apply Hbytes. }
    split; [done |]. split; [intros _; lia |]. split; [done |].
    unfold heap_inv. rewrite Hnext, Hheap.
    split; [rewrite length_app, length_insert; simpl; lia |].
    intros p Hp.
    rewrite lookup_app_l by (rewrite length_insert; lia).
    destruct (decide (p = next st)) as [-> | Hne].
    + apply list_lookup_insert_eq. lia.
    + rewrite list_lookup_insert_ne by done. apply Hearlier. lia.
Qed.

End Signal.

Section SignalExamples.
Import Demo ToAsyncIterable.

(** The example for X7: the first chunk of a page is empty; the doctype is
    pushed on the buffer, and the promise stays pending. *)
Lemma write_resolves_next_only_with_bytes_witness :
  heap_inv (state hello_iterable)
  /\ resolved (state hello_iterable) (next (state hello_iterable)) = false
  /\ buffer (write (context false false []) true (state hello_iterable)
               (chunk_of (inr EmptyString))).1
     = [encoder_encode doctype_newline]
  /\ resolved (write (context false false []) true (state hello_iterable)
                 (chunk_of (inr EmptyString))).1
       (next (write (context false false []) true (state hello_iterable)
                (chunk_of (inr EmptyString))).1) = false.
Proof.
  assert (heap_inv (state hello_iterable)) as Hheap.
  { split; [reflexivity |]. intros p Hp. simpl in Hp. lia. }
  assert (resolved (state hello_iterable) (next (state hello_iterable)) = false)
    as Hpending by reflexivity.
  split; [exact Hheap |]. split; [exact Hpending |].
  split; [vm_compute; reflexivity |].
  exact (proj1 (proj2 (write_resolves_next_only_with_bytes
                         (context false false []) true (state hello_iterable)
                         (chunk_of (inr EmptyString)) Hheap Hpending))).
Defined.

End SignalExamples.

(** ** The iterable and its consumer, at every moment *)

Section Pulls.
Context `{C : Collaborators}.
Import ToAsyncIterable.

Lemma concat_empty (l : list Uint8Array) : total_length l = 0 -> concat l = [].
Proof. rewrite <- total_length_concat. apply nil_length_inv. Qed.

Lemma step_pulls_inv (m : Move) (c c' : Config) :
  step m c = Some c' -> pulls_inv c -> pulls_inv c'.
Proof.
  unfold step, pulls_inv. intros Hstep.
  destruct m, c as [res page st r k pl]; config_simpl.
  - destruct r as [[| e | chunk kont]|]; try discriminate.
    + by injection Hstep as <-.
    + by injection Hstep as <-.
    + destruct (write res page st chunk). by injection Hstep as <-.
  - destruct k; try discriminate. by injection Hstep as <-.
  - destruct k; try discriminate. destruct (resolved st p); [| discriminate].
    rewrite next_body_spec in Hstep.
    destruct (error st); [by injection Hstep as <- |].
    cbn [done value] in Hstep.
    destruct (bool_decide_reflect (total_length (buffer st) = 0)) as [Hzero|Hsome];
      injection Hstep as <-; cbn [consumer pulled]; intros Hpulled.
    + exists pl. by rewrite (concat_empty _ Hzero).
    + apply Forall_app. split; [done |]. apply Forall_singleton.
      intros Hnil. apply Hsome. by rewrite <- total_length_concat, Hnil.
Qed.

Lemma run_pulls_inv (schedule : list Move) (c c' : Config) :
  run schedule c = Some c' -> pulls_inv c -> pulls_inv c'.
Proof.
  revert c. induction schedule as [|m schedule IH]; intros c; simpl.
  - by intros [= <-].
  - destruct (step m c) as [c1|] eqn:Hstep; [| done].
    intros Hrun Hc. apply (IH c1 Hrun). by eapply step_pulls_inv.
Qed.

(** Once the render task has recorded an error, the consumer gets nothing
    more. *)
Lemma failure_freezes (later : list Move) (c c' : Config) (e : JsError) :
  rendering c = None -> error (state c) = Some e -> consumer c <> Finished ->
  run later c = Some c' ->
  pulled c' = pulled c /\ state c' = state c /\ consumer c' <> Finished.
Proof.
  revert c. induction later as [|m later IH]; intros c Hr He Hk; simpl.
  - by intros [= <-].
  - destruct (step m c) as [c1|] eqn:Hstep; [| done].
    assert (pulled c1 = pulled c /\ state c1 = state c /\ rendering c1 = None
            /\ consumer c1 <> Finished) as (Hpl & Hst & Hr1 & Hk1).
    { unfold step in Hstep. destruct m.
      - by rewrite Hr in Hstep.
      - destruct (consumer c); try discriminate. by injection Hstep as <-.
      - destruct (consumer c); try discriminate.
        destruct (resolved (state c) p); [| discriminate].
        rewrite next_body_spec, He in Hstep. by injection Hstep as <-. }
    rewrite <- Hst in He. intros (-> & -> & Hk')%(IH c1 Hr1 He Hk1).
    by rewrite Hpl, Hst.
Qed.

(** X8.  Between [write] and [next()] nothing is lost, repeated or
    reordered, at any moment and whatever the order in which the render task
    and the consumer take their turns: the bytes the consumer has pulled so
    far, followed by those waiting in the buffer, are the bytes of the
    doctype (if the first chunk called for one) followed by the converted
    bytes of the chunks written so far.  The buffer never holds an empty
    array. *)
Theorem pulled_and_buffered_are_the_written_bytes (fuel : nat)
    (result : SSRResult) (componentFactory : AstroComponentFactory)
    (props : Props) (children : Children) (isPage : bool)
    (route : option RouteData) (w : World) (c0 c : Config)
    (schedule : list Move) :
  renderToAsyncIterable fuel result componentFactory props children isPage route
  = (w, Returned (IsOutput c0)) ->
  run schedule c0 = Some c ->
  concat (pulled c) ++ concat (buffer (state c))
  = concat (doctype_bytes (ctx w) isPage (written (log (state c))))
    ++ concat (byte_arrays (ctx w) (written (log (state c))))
  /\ Forall (fun b : Uint8Array => 0 < length b) (buffer (state c)).
Proof.
  intros Hadapter Hrun.
  destruct (reachable_inv _ _ _ _ _ _ _ _ _ _ _ Hadapter Hrun)
    as (([_ Hpushes] & Hacc & Hbuffer & _) & Hres & Hpage).
  rewrite Hres, Hpage in Hpushes. split; [| done].
  by rewrite Hacc, Hpushes, concat_app, concat_non_empty.
Qed.

(** X9.  A consumer that pulls one value at a time never receives an empty
    array together with [done: false]: every value it gets before the end is
    non-empty, and when it is told [done] the value that comes with it, the
    last one, is the empty array. *)
Theorem only_the_last_pull_is_empty (fuel : nat)
    (result : SSRResult) (componentFactory : AstroComponentFactory)
    (props : Props) (children : Children) (isPage : bool)
    (route : option RouteData) (w : World) (c0 c : Config)
    (schedule : list Move) :
  renderToAsyncIterable fuel result componentFactory props children isPage route
  = (w, Returned (IsOutput c0)) ->
  run schedule c0 = Some c ->
  (consumer c <> Finished -> Forall (fun v : Uint8Array => v <> []) (pulled c))
  /\ (consumer c = Finished ->
      exists earlier,
        pulled c = earlier ++ [[]]
        /\ Forall (fun v : Uint8Array => v <> []) earlier).
Proof.
  intros (result' & templateResult & _ & _ & ->)%renderToAsyncIterable_output
    Hrun.
  apply run_pulls_inv in Hrun; [| by apply Forall_nil_2].
  unfold pulls_inv in Hrun. by destruct (consumer c).
Qed.

(** X10.  When the render fails with a truthy value (an error object, say),
    the bytes still waiting in the buffer are never delivered: from the moment
    the render task rejects, whatever the consumer does, it receives no further
    value and is never told [done], and the buffer stays as the failure found
    it.  (A falsy value is not recorded as an error, and the property does not
    hold for it.) *)
Theorem failure_drops_the_buffered_bytes (fuel : nat) (result : SSRResult)
    (componentFactory : AstroComponentFactory) (props : Props)
    (children : Children) (isPage : bool) (route : option RouteData)
    (w : World) (c0 c c' : Config) (before later : list Move) (e : JsError) :
  renderToAsyncIterable fuel result componentFactory props children isPage route
  = (w, Returned (IsOutput c0)) ->
  run before c0 = Some c ->
  rendering c = Some (Reject e) ->
  truthy e = true ->
  run (RenderTurn :: later) c = Some c' ->
  pulled c' = pulled c
  /\ buffer (state c') = buffer (state c)
  /\ consumer c' <> Finished.
Proof.
  intros Hadapter Hbefore Hrejects Htruthy Hlater.
  destruct (reachable_inv _ _ _ _ _ _ _ _ _ _ _ Hadapter Hbefore)
    as ((_ & _ & _ & _ & _ & _ & Hconsumer) & _).
  simpl in Hlater. rewrite Hrejects in Hlater.
  apply (failure_freezes _ _ _ e) in Hlater as (Hpulled & Hstate & Hk);
    [| done | by config_simpl; rewrite Htruthy |].
  - by rewrite Hstate.
  - cbn [consumer set_rendering set_state]. intros Hfinished.
    rewrite Hfinished, Hrejects in Hconsumer. by destruct Hconsumer.
Qed.

End Pulls.

Section PullsExamples.
Import Demo ToAsyncIterable.

(** The example for X8 and X9: the page [hello], with a consumer that has
    pulled twice. *)
Lemma pulled_and_buffered_are_the_written_bytes_witness :
  renderToAsyncIterable
    5 (context false false []) (factory (FactoryComponent hello)) tt tt true
    (Some index)
  = ({| ctx := context false false []; effects := [] |},
     Returned (IsOutput hello_iterable))
  /\ run hello_schedule hello_iterable = Some hello_pulled
  /\ Forall (fun b : Uint8Array => 0 < length b) (buffer (state hello_pulled)).
Proof.
  assert (renderToAsyncIterable
            5 (context false false []) (factory (FactoryComponent hello))
            tt tt true (Some index)
          = ({| ctx := context false false []; effects := [] |},
             Returned (IsOutput hello_iterable))) as Hadapter
    by (vm_compute; reflexivity).
  assert (run hello_schedule hello_iterable = Some hello_pulled) as Hrun
    by (vm_compute; reflexivity).
  do 2 (split; [assumption |]).
  exact (proj2 (pulled_and_buffered_are_the_written_bytes
                  5 (context false false []) (factory (FactoryComponent hello))
                  tt tt true (Some index) _ _ _ _ Hadapter Hrun)).
Defined.

Lemma only_the_last_pull_is_empty_witness :
  renderToAsyncIterable
    5 (context false false []) (factory (FactoryComponent hello)) tt tt true
    (Some index)
  = ({| ctx := context false false []; effects := [] |},
     Returned (IsOutput hello_iterable))
  /\ run hello_schedule hello_iterable = Some hello_pulled
  /\ consumer hello_pulled = Finished
  /\ exists earlier,
       pulled hello_pulled = earlier ++ [[]]
       /\ Forall (fun v : Uint8Array => v <> []) earlier.
Proof.
  assert (renderToAsyncIterable
            5 (context false false []) (factory (FactoryComponent hello))
            tt tt true (Some index)
          = ({| ctx := context false false []; effects := [] |},
             Returned (IsOutput hello_iterable))) as Hadapter
    by (vm_compute; reflexivity).
  assert (run hello_schedule hello_iterable = Some hello_pulled) as Hrun
    by (vm_compute; reflexivity).
  assert (consumer hello_pulled = Finished) as Hfinished
    by (vm_compute; reflexivity).
  do 3 (split; [assumption |]).
  exact (proj2 (only_the_last_pull_is_empty
                  5 (context false false []) (factory (FactoryComponent hello))
                  tt tt true (Some index) _ _ _ _ Hadapter Hrun) Hfinished).
Defined.

(** The example for X10: the page [broken] rejects after one chunk; the
    doctype and the chunk are in the buffer, and the consumer gets neither. *)
Lemma failure_drops_the_buffered_bytes_witness :
  renderToAsyncIterable
    5 (context false false []) (factory (FactoryComponent broken)) tt tt true
    (Some index)
  = ({| ctx := context false false []; effects := [] |},
     Returned (IsOutput broken_iterable))
  /\ run [RenderTurn] broken_iterable = Some broken_rejecting
  /\ rendering broken_rejecting = Some (Reject (ErrForeign "boom"))
  /\ truthy (ErrForeign "boom") = true
  /\ run [RenderTurn; Pull; Resume] broken_rejecting = Some broken_failed
  /\ length (buffer (state broken_rejecting)) = 2
  /\ pulled broken_failed = pulled broken_rejecting.
Proof.
  assert (renderToAsyncIterable
            5 (context false false []) (factory (FactoryComponent broken))
            tt tt true (Some index)
          = ({| ctx := context false false []; effects := [] |},
             Returned (IsOutput broken_iterable))) as Hadapter
    by (vm_compute; reflexivity).
  assert (run [RenderTurn] broken_iterable = Some broken_rejecting) as Hbefore
    by (vm_compute; reflexivity).
  assert (rendering broken_rejecting = Some (Reject (ErrForeign "boom")))
    as Hrejects by (vm_compute; reflexivity).
  assert (truthy (ErrForeign "boom") = true) as Htruthy by reflexivity.
  assert (run [RenderTurn; Pull; Resume] broken_rejecting = Some broken_failed)
    as Hlater by (vm_compute; reflexivity).
  do 5 (split; [assumption |]). split; [vm_compute; reflexivity |].
  exact (proj1 (failure_drops_the_buffered_bytes
                  5 (context false false []) (factory (FactoryComponent broken))
                  tt tt true (Some index) _ _ _ _ [RenderTurn] [Pull; Resume]
                  (ErrForeign "boom") Hadapter Hbefore Hrejects Htruthy Hlater)).
Defined.

End PullsExamples.

(** ** The stream and the iterable of the same render *)

Section Agreement.
Context `{C : Collaborators}.

Lemma thrown_at_stream (result : SSRResult) (isPage : bool)
    (st : ToReadableStream.State) (chunk : Chunk) :
  (ToReadableStream.write result isPage st chunk).2 = thrown_at chunk.
Proof. rewrite stream_write_throws. by destruct chunk. Qed.

Lemma thrown_at_iterable (result : SSRResult) (isPage : bool)
    (st : ToAsyncIterable.State) (chunk : Chunk) :
  (ToAsyncIterable.write result isPage st chunk).2 = thrown_at chunk.
Proof. rewrite iterable_write_throws. by destruct chunk. Qed.

Lemma streamed_end_settles (r : Render) : streamed_end r <> Pending.
Proof. induction r as [| e | chunk k IH]; simpl; [done | done | apply IH]. Qed.

(** The render of the Stream Adapter writes the chunks of the path and ends
    as the path does. *)
Lemma stream_drive_path (result : SSRResult) (isPage : bool) (r : Render)
    (st : ToReadableStream.State) :
  written (ToReadableStream.log
             (drive (ToReadableStream.write result isPage) r st).1)
  = written (ToReadableStream.log st) ++ streamed r
  /\ (drive (ToReadableStream.write result isPage) r st).2 = streamed_end r.
Proof.
  revert st. induction r as [| e | chunk k IH]; intros st;
    cbn [drive streamed streamed_end fst snd].
  - by rewrite app_nil_r.
  - by rewrite app_nil_r.
  - pose proof (stream_write_written result isPage st chunk) as Hw.
    pose proof (thrown_at_stream result isPage st chunk) as Ht.
    destruct (ToReadableStream.write result isPage st chunk) as [st1 thrown].
    cbn [fst snd] in Hw, Ht. subst thrown.
    destruct (IH (thrown_at chunk) st1) as [IHw IHe].
    by rewrite IHw, IHe, Hw, <- (assoc_L (++)).
Qed.

(** So does the render task of the iterable, turn by turn. *)
Lemma step_path_inv (chunks : list Chunk) (ending : Outcome unit)
    (m : ToAsyncIterable.Move) (c c' : ToAsyncIterable.Config) :
  (ToAsyncIterable.rendering c <> None ->
   ToAsyncIterable.error (ToAsyncIterable.state c) = None) ->
  ToAsyncIterable.step m c = Some c' ->
  path_inv chunks ending c -> path_inv chunks ending c'.
Proof.
  unfold ToAsyncIterable.step, path_inv, remaining. intros Herr Hstep.
  destruct m, c as [res page st r k pl]; config_simpl.
  - destruct r as [[| e | chunk kont]|]; try discriminate.
    + injection Hstep as <-. config_simpl. intros [<- <-].
      split; [done |]. by apply Herr.
    + injection Hstep as <-. config_simpl. by intros [<- <-].
    + pose proof (iterable_write_written res page st chunk) as Hw.
      pose proof (thrown_at_iterable res page st chunk) as Ht.
      destruct (ToAsyncIterable.write res page st chunk) as [st1 thrown].
      cbn [fst snd] in Hw, Ht. subst thrown.
      injection Hstep as <-. config_simpl. intros [<- <-].
      cbn [streamed streamed_end]. by rewrite Hw, <- (assoc_L (++)).
  - destruct k; try discriminate. by injection Hstep as <-.
  - destruct k; try discriminate.
    destruct (ToAsyncIterable.resolved st p); [| discriminate].
    rewrite next_body_spec in Hstep.
    destruct (ToAsyncIterable.error st) eqn:He; injection Hstep as <-;
      config_simpl; by rewrite ?He.
Qed.

Lemma run_path_inv (chunks : list Chunk) (ending : Outcome unit)
    (schedule : list ToAsyncIterable.Move) (c c' : ToAsyncIterable.Config) :
  config_inv c ->
  ToAsyncIterable.run schedule c = Some c' ->
  path_inv chunks ending c -> path_inv chunks ending c'.
Proof.
  revert c. induction schedule as [|m schedule IH]; intros c Hc; simpl.
  - by intros [= <-].
  - destruct (ToAsyncIterable.step m c) as [c1|] eqn:Hstep; [| done].
    intros Hrun Hpath. apply (IH c1); [by eapply step_inv | done |].
    eapply step_path_inv; [| done | done].
    by destruct Hc as (_ & _ & _ & _ & _ & Herr & _).
Qed.

(** The output of a render so far is a beginning of its output later on. *)
Lemma output_prefix (result : SSRResult) (isPage : bool)
    (chunks rest : list Chunk) :
  concat (doctype_bytes result isPage chunks)
    ++ concat (byte_arrays result chunks)
  `prefix_of`
  concat (doctype_bytes result isPage (chunks ++ rest))
    ++ concat (byte_arrays result (chunks ++ rest)).
Proof.
  destruct chunks as [|first chunks]; [apply prefix_nil |].
  change (doctype_bytes result isPage ((first :: chunks) ++ rest))
    with (doctype_bytes result isPage (first :: chunks)).
  rewrite byte_arrays_app, concat_app.
  apply prefix_app, prefix_app_r. done.
Qed.

(** How the detached task of the stream ends, by the end of the path. *)
Lemma stream_end (result : SSRResult) (isPage : bool)
    (route : option RouteData) (templateResult : Component) (l : list Effect) :
  let st :=
    ToReadableStream.start result isPage route templateResult
      {| ToReadableStream.enqueued := [];
         ToReadableStream.closed := false;
         ToReadableStream.errored := None;
         ToReadableStream.timers := [];
         ToReadableStream.renderedFirstPageChunk := false;
         ToReadableStream.log := l |} in
  match streamed_end (render templateResult) with
  | Returned _ =>
      ToReadableStream.closed st = true
      /\ ToReadableStream.errored (ToReadableStream.tick st) = None
  | Threw e =>
      ToReadableStream.closed st = false
      /\ ToReadableStream.errored (ToReadableStream.tick st)
         = Some (ToReadableStream.addLocation route e)
  | Pending => False
  end.
Proof.
  set (st0 := {| ToReadableStream.enqueued := [];
                 ToReadableStream.closed := false;
                 ToReadableStream.errored := None;
                 ToReadableStream.timers := [];
                 ToReadableStream.renderedFirstPageChunk := false;
                 ToReadableStream.log := l |}).
  pose proof (stream_drive_untouched result isPage (render templateResult) st0)
    as (Hclosed & Herrored & Htimers).
  destruct (stream_drive_path result isPage (render templateResult) st0)
    as [_ Hend].
  pose proof (streamed_end_settles (render templateResult)) as Hsettles.
  rewrite <- Hend in *. unfold ToReadableStream.start.
  destruct (drive _ _ st0) as [st1 completion]. cbn [fst snd] in *.
  destruct completion as [[] | e |]; [| | done].
  - unfold ToReadableStream.tick. simpl. by rewrite Htimers, Herrored.
  - unfold ToReadableStream.tick. simpl. by rewrite Htimers, Hclosed.
Qed.

(** X11.  The Stream Adapter and the Async-Iterable Adapter agree on the
    same render.  Whatever the order in which the render task and the consumer
    of the iterable take their turns, the bytes the consumer has pulled so far
    are a beginning of the bytes the stream has enqueued.  When the consumer
    is told [done] it has received exactly the bytes of the stream; the stream
    is then closed without an error, unless the render rejected with a falsy
    value: the iterable does not take that for an error and ends with [done],
    while the stream is not closed and reports the value once its timer fires.
    When the pull of the consumer throws [e], [e] is truthy, the stream is not
    closed and reports the same error once its timer fires, with the location
    of the route added when [e] is an [AstroError] without one (the iterable
    throws [e] as it is). *)
Theorem the_iterable_agrees_with_the_stream (fuel : nat) (result : SSRResult)
    (componentFactory : AstroComponentFactory) (props : Props)
    (children : Children) (isPage : bool) (route : option RouteData)
    (w1 w2 : World) (st : ToReadableStream.State)
    (c0 c : ToAsyncIterable.Config) (schedule : list ToAsyncIterable.Move) :
  ToReadableStream.renderToReadableStream
    fuel result componentFactory props children isPage route
  = (w1, Returned (IsOutput st)) ->
  ToAsyncIterable.renderToAsyncIterable
    fuel result componentFactory props children isPage route
  = (w2, Returned (IsOutput c0)) ->
  ToAsyncIterable.run schedule c0 = Some c ->
  concat (ToAsyncIterable.pulled c) `prefix_of` concat (ToReadableStream.enqueued st)
  /\ (ToAsyncIterable.consumer c = ToAsyncIterable.Finished ->
      concat (ToAsyncIterable.pulled c) = concat (ToReadableStream.enqueued st)
      /\ ((ToReadableStream.closed st = true
           /\ ToReadableStream.errored (ToReadableStream.tick st) = None)
          \/ (exists e,
                truthy e = false
                /\ ToReadableStream.closed st = false
                /\ ToReadableStream.errored (ToReadableStream.tick st)
                   = Some (ToReadableStream.addLocation route e))))
  /\ (forall e,
        ToAsyncIterable.consumer c = ToAsyncIterable.Failed e ->
        truthy e = true
        /\ ToReadableStream.closed st = false
        /\ ToReadableStream.errored (ToReadableStream.tick st)
           = Some (ToReadableStream.addLocation route e)).
Proof.
  intros Hstream Hiterable Hrun.
  destruct (reachable_inv _ _ _ _ _ _ _ _ _ _ _ Hiterable Hrun)
    as (([_ Hpushes] & Hacc & _ & _ & _ & _ & Hconsumer) & Hres & Hpage).
  rewrite Hres, Hpage in Hpushes.
  rewrite Hpushes, concat_app, concat_non_empty in Hacc.
  apply renderToReadableStream_output in Hstream
    as (result' & templateResult & w0 & Hcall & Hhead & -> & _).
  apply renderToAsyncIterable_output in Hiterable
    as (result2 & templateResult2 & Hcall2 & Hhead2 & ->).
  rewrite Hcall in Hcall2. injection Hcall2 as <- <-.
  rewrite Hhead in Hhead2. injection Hhead2 as ->.
  pose proof (head_pass_quiet fuel isPage result') as Hquiet.
  rewrite Hhead in Hquiet. cbn [fst] in Hquiet.
  pose proof (quiet_written _ Hquiet) as [Hwritten _].
  pose proof (stream_end (ctx w2) isPage route templateResult (effects w2))
    as Hend.
  cbv zeta in Hend.
  set (st0 := {| ToReadableStream.enqueued := [];
                 ToReadableStream.closed := false;
                 ToReadableStream.errored := None;
                 ToReadableStream.timers := [];
                 ToReadableStream.renderedFirstPageChunk := false;
                 ToReadableStream.log := effects w2 |}) in *.
  pose proof (stream_drive_inv (ctx w2) isPage (render templateResult)
                (effects w2) Hquiet) as [_ Hq].
  fold st0 in Hq.
  destruct (stream_drive_path (ctx w2) isPage (render templateResult) st0)
    as [Hpath _].
  cbn [ToReadableStream.log st0] in Hpath.
  rewrite Hwritten, app_nil_l in Hpath. rewrite Hpath in Hq.
  rewrite start_enqueued, Hq, concat_app.
  assert (path_inv (streamed (render templateResult))
                   (streamed_end (render templateResult)) c)
    as [Hchunks Hending].
  { eapply run_path_inv; [| exact Hrun |].
    - by apply initial_inv.
    - unfold path_inv, remaining.
      cbn [ToAsyncIterable.initial ToAsyncIterable.state ToAsyncIterable.log
           ToAsyncIterable.rendering].
      by rewrite Hwritten. }
  split; [| split].
  - rewrite <- Hchunks. etrans; [| apply output_prefix].
    rewrite <- Hacc. by apply prefix_app_r.
  - intros Hfinished. rewrite Hfinished in Hconsumer.
    destruct Hconsumer as (Hr & Hbuffer & He).
    unfold remaining in Hchunks. rewrite Hr in Hchunks, Hending.
    rewrite app_nil_r in Hchunks. rewrite <- Hchunks.
    rewrite Hbuffer in Hacc. simpl in Hacc. rewrite app_nil_r in Hacc.
    split; [done |]. rewrite He in Hending.
    destruct (streamed_end (render templateResult)) as [[] | e |];
      [by left | | done].
    destruct (truthy e) eqn:Htruthy; [done |]. right. by exists e.
  - intros e Hfailed. rewrite Hfailed in Hconsumer.
    destruct Hconsumer as (Hr & He). rewrite Hr, He in Hending.
    destruct (streamed_end (render templateResult)) as [[] | e' |];
      [done | | done].
    destruct (truthy e') eqn:Htruthy; [| done].
    by injection Hending as ->.
Qed.

End Agreement.

Section AgreementExamples.
Import Demo ToAsyncIterable.

(** The example for X11: the page [hello] through both adapters; and the
    page [muted], whose render rejects with the empty string: its consumer is
    told [done] with the bytes of the stream, which is not closed. *)
Lemma the_iterable_agrees_with_the_stream_witness :
  (exists w st,
      ToReadableStream.renderToReadableStream
        5 (context false false []) (factory (FactoryComponent hello)) tt tt true
        (Some index)
      = (w, Returned (IsOutput st))
      /\ renderToAsyncIterable
           5 (context false false []) (factory (FactoryComponent hello)) tt tt true
           (Some index)
         = ({| ctx := context false false []; effects := [] |},
            Returned (IsOutput hello_iterable))
      /\ run hello_schedule hello_iterable = Some hello_pulled
      /\ consumer hello_pulled = Finished
      /\ concat (pulled hello_pulled) = concat (ToReadableStream.enqueued st))
  /\ (exists w st,
        ToReadableStream.renderToReadableStream
          5 (context false false []) (factory (FactoryComponent muted)) tt tt true
          (Some index)
        = (w, Returned (IsOutput st))
        /\ renderToAsyncIterable
             5 (context false false []) (factory (FactoryComponent muted)) tt tt
             true (Some index)
           = ({| ctx := context false false []; effects := [] |},
              Returned (IsOutput muted_iterable))
        /\ run [RenderTurn; RenderTurn; Pull; Resume; Pull; Resume] muted_iterable
           = Some muted_finished
        /\ consumer muted_finished = Finished
        /\ ToReadableStream.closed st = false
        /\ concat (pulled muted_finished) = concat (ToReadableStream.enqueued st)).
Proof.
  split.
  - assert (renderToAsyncIterable
              5 (context false false []) (factory (FactoryComponent hello))
              tt tt true (Some index)
            = ({| ctx := context false false []; effects := [] |},
               Returned (IsOutput hello_iterable))) as Hadapter
      by (vm_compute; reflexivity).
    assert (run hello_schedule hello_iterable = Some hello_pulled) as Hrun
      by (vm_compute; reflexivity).
    assert (consumer hello_pulled = Finished) as Hfinished
      by (vm_compute; reflexivity).
    eexists _, _.
    match goal with
    | |- ?stream /\ _ => assert stream as Hstream by (vm_compute; reflexivity)
    end.
    split; [exact Hstream |]. do 3 (split; [assumption |]).
    exact (proj1 (proj1 (proj2
             (the_iterable_agrees_with_the_stream
                5 (context false false []) (factory (FactoryComponent hello))
                tt tt true (Some index) _ _ _ _ _ _ Hstream Hadapter Hrun))
             Hfinished)).
  - assert (renderToAsyncIterable
              5 (context false false []) (factory (FactoryComponent muted))
              tt tt true (Some index)
            = ({| ctx := context false false []; effects := [] |},
               Returned (IsOutput muted_iterable))) as Hadapter
      by (vm_compute; reflexivity).
    assert (run [RenderTurn; RenderTurn; Pull; Resume; Pull; Resume]
                muted_iterable
            = Some muted_finished) as Hrun
      by (vm_compute; reflexivity).
    assert (consumer muted_finished = Finished) as Hfinished
      by (vm_compute; reflexivity).
    eexists _, _.
    match goal with
    | |- ?stream /\ _ => assert stream as Hstream by (vm_compute; reflexivity)
    end.
    split; [exact Hstream |]. do 3 (split; [assumption |]).
    split; [reflexivity |].
    exact (proj1 (proj1 (proj2
             (the_iterable_agrees_with_the_stream
                5 (context false false []) (factory (FactoryComponent muted))
                tt tt true (Some index) _ _ _ _ _ _ Hstream Hadapter Hrun))
             Hfinished)).
Defined.

End AgreementExamples.

Section HeadPassExamples.
Import Demo.

(** The example for X3: the three propagators of the first universe. *)
Lemma head_pass_only_appends_witness :
  NoDup (propagators
           (_metadata (ctx {| ctx := context false false [0]; effects := [] |})))
  /\ NoDup (propagators
              (_metadata
                 (ctx (bufferHeadContent
                         5 {| ctx := context false false [0]; effects := [] |}).1))).
Proof.
  assert (NoDup (propagators
                   (_metadata
                      (ctx {| ctx := context false false [0]; effects := [] |}))))
    as Hnodup by apply NoDup_singleton.
  split; [exact Hnodup |].
  exact (proj1 (proj2 (head_pass_only_appends
                         5 {| ctx := context false false [0]; effects := [] |}
                         Hnodup))).
Defined.

(** The example for X4: in the second universe the [init] of propagator [1]
    rejects, after that of propagator [0] has returned; propagator [2], which
    the first one registered, is never visited. *)
Lemma head_pass_failure_stops_the_render_witness :
  @callComponentAsTemplateResultOrResponse values Faulty.collaborators
    (context false false [0; 1]) (factory (FactoryComponent hello)) tt tt
    (Some index)
  = (context false false [0; 1], Returned (FactoryComponent hello))
  /\ returnValue (Faulty.init_of 1) = Threw (ErrForeign "no head")
  /\ Forall (fun q => exists v, returnValue (Faulty.init_of q) = Returned v)
            (take 1 [0; 1])
  /\ exists w,
       @ToReadableStream.renderToReadableStream values Faulty.collaborators
         5 (context false false [0; 1]) (factory (FactoryComponent hello)) tt tt
         true (Some index)
       = (w, Threw (ErrForeign "no head"))
       /\ inits (effects w) = [0; 1]
       /\ propagators (_metadata (ctx w)) = [0; 1; 2].
Proof.
  assert (@callComponentAsTemplateResultOrResponse values Faulty.collaborators
            (context false false [0; 1]) (factory (FactoryComponent hello)) tt tt
            (Some index)
          = (context false false [0; 1], Returned (FactoryComponent hello)))
    as Hcall by (vm_compute; reflexivity).
  assert (returnValue (Faulty.init_of 1) = Threw (ErrForeign "no head"))
    as Hthrows by reflexivity.
  assert (Forall (fun q => exists v, returnValue (Faulty.init_of q) = Returned v)
                 (take 1 [0; 1])) as Hbefore.
  { apply Forall_singleton. by eexists. }
  split; [exact Hcall |]. split; [exact Hthrows |]. split; [exact Hbefore |].
  destruct (@head_pass_failure_stops_the_render
              values Faulty.collaborators
              5 (context false false [0; 1]) (context false false [0; 1])
              (factory (@FactoryComponent values hello)) tt tt
              (Some index) _ 1 _ _
              Hcall eq_refl Hthrows Hbefore ltac:(lia))
    as (w & Hpass & Hstream & _ & _ & Hinits).
  exists w. split; [exact Hstream |]. split; [exact Hinits |].
  assert (w = (@bufferHeadContent values Faulty.collaborators
                 5 {| ctx := context false false [0; 1]; effects := [] |}).1)
    as -> by (by rewrite Hpass).
  vm_compute. reflexivity.
Defined.

(** The example for X5: in the second universe the promise of propagator
    [2] never settles. *)
Lemma head_pass_ends_witness :
  @closed_universe values Faulty.collaborators [0; 1; 2]
    {| ctx := context false false [0; 2]; effects := [] |}
  /\ length [0; 1; 2] < 5
  /\ (@bufferHeadContent values Faulty.collaborators
        5 {| ctx := context false false [0; 2]; effects := [] |}).2 = Pending
  /\ exists p : nat,
       p ∈ [0; 1; 2] /\ returnValue (Faulty.init_of p) = Pending.
Proof.
  assert (@closed_universe values Faulty.collaborators [0; 1; 2]
            {| ctx := context false false [0; 2]; effects := [] |}) as Hclosed.
  { split; [| split].
    - apply (bool_decide_unpack _). vm_compute. exact I.
    - intros p Hp. simpl in Hp.
      apply elem_of_cons in Hp as [-> | Hp]; [repeat constructor |].
      apply list_elem_of_singleton in Hp as ->. repeat constructor.
    - intros p q Hp Hq.
      apply elem_of_cons in Hp as [-> | Hp].
      { simpl in Hq. apply elem_of_cons in Hq as [-> | Hq]; [repeat constructor |].
        apply list_elem_of_singleton in Hq as ->. repeat constructor. }
      apply elem_of_cons in Hp as [-> | Hp].
      { simpl in Hq. by apply elem_of_nil in Hq. }
      apply list_elem_of_singleton in Hp as ->. simpl in Hq.
      by apply elem_of_nil in Hq. }
  assert (length [0; 1; 2] < 5) as Hfuel by (simpl; lia).
  assert ((@bufferHeadContent values Faulty.collaborators
             5 {| ctx := context false false [0; 2]; effects := [] |}).2
          = Pending) as Hpending by (vm_compute; reflexivity).
  split; [exact Hclosed |]. split; [exact Hfuel |]. split; [exact Hpending |].
  destruct (@head_pass_ends values Faulty.collaborators [0; 1; 2] 5
              {| ctx := context false false [0; 2]; effects := [] |}
              Hclosed Hfuel Hpending) as (p & _ & Hp & Hret).
  by exists p.
Defined.


End HeadPassExamples.

(** ** When a pull waits, and a consumer that comes late *)

Section Waiting.
Context `{C : Collaborators}.
Import ToAsyncIterable.

(** X12.  A call of [next()] waits exactly as long as nothing happens on the
    side of the render: for a consumer that has called [next()], the call
    cannot go on if and only if no chunk with bytes was written since the call
    (the promise it awaits is still the one held by [next]) and the render has
    not settled.  And when a chunk with bytes was written since the call and
    no error is recorded, the call does not report [done]: the consumer is
    ready for its next pull. *)
Theorem next_waits_for_bytes_or_the_end (fuel : nat) (result : SSRResult)
    (componentFactory : AstroComponentFactory) (props : Props)
    (children : Children) (isPage : bool) (route : option RouteData)
    (w : World) (c0 c : Config) (schedule : list Move) (p : nat) :
  renderToAsyncIterable fuel result componentFactory props children isPage route
  = (w, Returned (IsOutput c0)) ->
  run schedule c0 = Some c ->
  consumer c = Awaiting p ->
  (step Resume c = None <-> p = next (state c) /\ rendering c <> None)
  /\ (forall c',
        step Resume c = Some c' ->
        p < next (state c) -> error (state c) = None ->
        consumer c' = Idle /\ pulled c' = pulled c ++ [concat (buffer (state c))]
        /\ concat (buffer (state c)) <> []).
Proof.
  intros Hadapter Hrun Hawaiting.
  destruct (reachable_inv _ _ _ _ _ _ _ _ _ _ _ Hadapter Hrun)
    as ((_ & _ & Hbuffer & [_ Hearlier] & Hnext & _ & Hconsumer) & _).
  rewrite Hawaiting in Hconsumer. destruct Hconsumer as [Hle Hsince].
  unfold step. rewrite Hawaiting, next_body_spec. split.
  - split.
    + intros Hstep.
      destruct (resolved (state c) p) eqn:Hresolved;
        [by destruct (error (state c)) |].
      assert (p = next (state c)) as ->.
      { destruct (decide (p < next (state c))) as [Hlt|Hge]; [| lia].
        apply Hearlier, resolved_spec in Hlt. congruence. }
      split; [done |]. intros Hr%Hnext. congruence.
    + intros [-> Hr].
      destruct (resolved (state c) (next (state c))) eqn:Hresolved; [| done].
      exfalso. by apply Hr, Hnext.
  - intros c' Hstep Hlt He. rewrite He in Hstep.
    rewrite (proj2 (resolved_spec _ _) (Hearlier p Hlt)) in Hstep.
    cbn [done value] in Hstep.
    assert (total_length (buffer (state c)) <> 0) as Hsome.
    { intros Hzero%(total_length_zero _ Hbuffer). by apply Hsince. }
    rewrite bool_decide_eq_false_2 in Hstep by done.
    injection Hstep as <-. split; [done |]. split; [done |].
    intros Hnil. apply Hsome. by rewrite <- total_length_concat, Hnil.
Qed.

(** X13.  The render never waits for the consumer.  With no pull at all the
    render task runs to its end, one turn for each call of [write] and one for
    the end of the render; everything it wrote is then in the buffer.  A
    consumer that comes after a render that resolved gets the whole output,
    doctype included, as one array from its first pull. *)
Theorem the_render_does_not_wait_for_the_consumer (fuel : nat)
    (result : SSRResult) (componentFactory : AstroComponentFactory)
    (props : Props) (children : Children) (isPage : bool)
    (route : option RouteData) (w : World) (c0 : Config) :
  renderToAsyncIterable fuel result componentFactory props children isPage route
  = (w, Returned (IsOutput c0)) ->
  exists n c,
    run (replicate n RenderTurn) c0 = Some c
    /\ rendering c = None
    /\ consumer c = Idle
    /\ pulled c = []
    /\ concat (buffer (state c))
       = concat (doctype_bytes (ctx w) isPage (written (log (state c))))
         ++ concat (byte_arrays (ctx w) (written (log (state c))))
    /\ (error (state c) = None ->
        exists c',
          run [Pull; Resume] c = Some c'
          /\ pulled c' = [concat (buffer (state c))]
          /\ buffer (state c') = []).
Proof.
  intros Hadapter.
  pose proof Hadapter as
    (result' & templateResult & _ & _ & Hc0)%renderToAsyncIterable_output.
  assert (rendering c0 = Some (render templateResult)) as Hr0 by by subst c0.
  pose proof (render_turns_drive (render templateResult) c0 Hr0) as Hturns.
  match type of Hturns with
  | run (replicate ?n _) _ = Some ?c => exists n, c; set (c1 := c) in *
  end.
  assert (rendering c1 = None) as Hr1 by done.
  assert (consumer c1 = Idle) as Hk1 by (subst c1 c0; done).
  assert (pulled c1 = []) as Hp1 by (subst c1 c0; done).
  destruct (reachable_inv _ _ _ _ _ _ _ _ _ _ _ Hadapter Hturns)
    as (Hinv & Hres & Hpage).
  pose proof Hinv as ([_ Hpushes] & Hacc & _).
  rewrite Hres, Hpage in Hpushes.
  rewrite Hp1, Hpushes, concat_app, concat_non_empty in Hacc.
  split; [done |]. split; [done |]. split; [done |]. split; [done |].
  split; [done |]. intros He.
  pose proof (pull_after_settled c1 Hinv Hr1 Hk1) as Hpull.
  rewrite He in Hpull. eexists. split; [exact Hpull |].
  cbn [pulled set_consumer deliver set_state state buffer buffer_clear].
  by rewrite Hp1.
Qed.

End Waiting.

Section WaitingExamples.
Import Demo ToAsyncIterable.

(** The example for X12: the consumer of the page [hello] has called
    [next()] before the render task has had a turn, and cannot go on. *)
Lemma next_waits_for_bytes_or_the_end_witness :
  renderToAsyncIterable
    5 (context false false []) (factory (FactoryComponent hello)) tt tt true
    (Some index)
  = ({| ctx := context false false []; effects := [] |},
     Returned (IsOutput hello_iterable))
  /\ (exists c,
        run [Pull] hello_iterable = Some c
        /\ consumer c = Awaiting 0
        /\ (step Resume c = None <-> 0 = next (state c) /\ rendering c <> None)).
Proof.
  assert (renderToAsyncIterable
            5 (context false false []) (factory (FactoryComponent hello))
            tt tt true (Some index)
          = ({| ctx := context false false []; effects := [] |},
             Returned (IsOutput hello_iterable))) as Hadapter
    by (vm_compute; reflexivity).
  split; [exact Hadapter |]. eexists.
  match goal with
  | |- ?run /\ _ => assert run as Hrun by (vm_compute; reflexivity)
  end.
  split; [exact Hrun |].
  match goal with
  | |- ?awaiting /\ _ => assert awaiting as Hawaiting by reflexivity
  end.
  split; [exact Hawaiting |].
  exact (proj1 (next_waits_for_bytes_or_the_end
                  5 (context false false []) (factory (FactoryComponent hello))
                  tt tt true (Some index) _ _ _ _ 0 Hadapter Hrun Hawaiting)).
Defined.

(** The example for X13: the page [hello] is rendered in three turns. *)
Lemma the_render_does_not_wait_for_the_consumer_witness :
  renderToAsyncIterable
    5 (context false false []) (factory (FactoryComponent hello)) tt tt true
    (Some index)
  = ({| ctx := context false false []; effects := [] |},
     Returned (IsOutput hello_iterable))
  /\ exists n c,
       run (replicate n RenderTurn) hello_iterable = Some c
       /\ rendering c = None.
Proof.
  assert (renderToAsyncIterable
            5 (context false false []) (factory (FactoryComponent hello))
            tt tt true (Some index)
          = ({| ctx := context false false []; effects := [] |},
             Returned (IsOutput hello_iterable))) as Hadapter
    by (vm_compute; reflexivity).
  split; [exact Hadapter |].
  destruct (the_render_does_not_wait_for_the_consumer
              5 (context false false [])
              (factory (@FactoryComponent values hello))
              tt tt true (Some index) _ _ Hadapter)
    as (n & c & Hrun & Hr & _).
  by exists n, c.
Defined.

End WaitingExamples.

